(** * DimensionalGen: the measurement rewriting engine of
      [src/services/excelService.ts]

    The development embeds the service in Gallina and checks the properties
    its specification states about it.

    - JavaScript numbers are IEEE-754 binary64 values.  They are modelled by
      [spec_float] of the Standard Library with [prec = 53], [emax = 1024]:
      every arithmetic operator of the source is the correctly rounded
      operation on that type, and [toString], [toFixed], [parseFloat] and
      [parseInt] follow ECMAScript on the exact value of the number.
      [Math.pow(10, e)] is taken to be the number nearest to [10^e];
      ECMAScript leaves its accuracy to the engine, the service calls it
      with [-2] only, and no property evaluates it elsewhere.
    - JavaScript strings are sequences of UTF-16 code units, modelled as
      [list N]; the degree glyph is the code unit 176.
    - [Math.random] is an explicit supply of draws; every call advances the
      state of the supply.
    - Exceptions are explicit: a computation returns [Ok] or [Throw].
    - The spreadsheet objects of ExcelJS (cells, rows, sheets, workbook) are
      records, finite maps and lists.  A cell carries the value ExcelJS
      reports for it; for a follower of a merged region that is the value
      of its master, and the service never writes to a follower.  What a
      follower reports once its master is rewritten is not modelled, and
      no property speaks of it.  Target columns are taken to be valid
      column numbers.
    - The two randomization helpers are written once, over the arithmetic
      they use, and run on binary64 in the service.  The properties that
      depend on rounding are proved on binary64, from the value of a
      number as a rational and the rounding of each operation. *)

From Stdlib Require Import ZArith QArith Qround Qpower Qabs Zpower Lia Lqa List Bool.
From Stdlib Require Import Floats.SpecFloat.
From Stdlib Require Import Strings.Ascii Strings.String.
From stdpp Require Import base option list gmap.

Set Default Proof Using "Type".
Local Open Scope Z_scope.

(* ===================================================================== *)
(** * 1. Strings as UTF-16 code units                                     *)
(* ===================================================================== *)

Module Str.

Definition codeunit := N.
Definition jsstring := list codeunit.

(** An ASCII literal, one code unit per character. *)
Fixpoint lit (s : string) : jsstring :=
  match s with
  | EmptyString => []
  | String a r => N_of_ascii a :: lit r
  end.

Definition DEGREE : codeunit := 176%N.   (* U+00B0 *)
Definition APOSTROPHE : codeunit := 39%N.
Definition MINUS : codeunit := 45%N.
Definition PLUS : codeunit := 43%N.
Definition DOT : codeunit := 46%N.
Definition COMMA : codeunit := 44%N.
Definition ZERO : codeunit := 48%N.

(** [\d] of a regular expression without the unicode flag: ASCII digits. *)
Definition isDigit (c : codeunit) : bool := ((48 <=? c) && (c <=? 57))%N.

(** WhiteSpace and LineTerminator of ECMAScript: the characters removed by
    [String.prototype.trim], skipped by [parseFloat] and matched by [\s]. *)
Definition isSpace (c : codeunit) : bool :=
  (((9 <=? c) && (c <=? 13)) || (c =? 32) || (c =? 160) || (c =? 5760)
   || ((8192 <=? c) && (c <=? 8202)) || (c =? 8232) || (c =? 8233)
   || (c =? 8239) || (c =? 8287) || (c =? 12288) || (c =? 65279))%N.

Fixpoint dropWhile (p : codeunit -> bool) (s : jsstring) : jsstring :=
  match s with
  | [] => []
  | c :: r => if p c then dropWhile p r else s
  end.

Fixpoint takeWhile (p : codeunit -> bool) (s : jsstring) : jsstring :=
  match s with
  | [] => []
  | c :: r => if p c then c :: takeWhile p r else []
  end.

Definition trimStart (s : jsstring) : jsstring := dropWhile isSpace s.
Definition trimEnd (s : jsstring) : jsstring := rev (dropWhile isSpace (rev s)).
(** [s.trim()] *)
Definition trim (s : jsstring) : jsstring := trimEnd (trimStart s).

(** [s.replace(a, b)] with a one-character string pattern: only the first
    occurrence is replaced. *)
Fixpoint replaceFirst (a b : codeunit) (s : jsstring) : jsstring :=
  match s with
  | [] => []
  | c :: r => if (c =? a)%N then b :: r else c :: replaceFirst a b r
  end.

(** [s.includes(c)] for a one-character string. *)
Definition includes (c : codeunit) (s : jsstring) : bool :=
  existsb (N.eqb c) s.

(** [s.padStart(n, '0')] *)
Definition padStart (n : nat) (s : jsstring) : jsstring :=
  repeat ZERO (n - length s)%nat ++ s.

Fixpoint startsWith (p s : jsstring) : bool :=
  match p, s with
  | [], _ => true
  | _ :: _, [] => false
  | a :: p', c :: s' => (a =? c)%N && startsWith p' s'
  end.

(** [toLowerCase] on the code units the service inspects (the Latin
    capitals; the degree glyph and the digits have no case). *)
Definition lowerUnit (c : codeunit) : codeunit :=
  if (((65 <=? c) && (c <=? 90)) || ((192 <=? c) && (c <=? 222) && negb (c =? 215)))%N
  then (c + 32)%N else c.
Definition toLowerCase (s : jsstring) : jsstring := map lowerUnit s.

(** Decimal digits of a non-negative integer, most significant first. *)
Fixpoint digitsOf (fuel : nat) (z : Z) (acc : jsstring) : jsstring :=
  match fuel with
  | O => acc
  | S f =>
      let acc' := (48 + Z.to_N (z mod 10))%N :: acc in
      if z <? 10 then acc' else digitsOf f (z / 10) acc'
  end.
Definition showNat (z : Z) : jsstring := digitsOf (S (Z.to_nat (Z.log2 z))) z [].

(** The integer written by a run of ASCII digits. *)
Definition digitVal (c : codeunit) : Z := Z.of_N c - 48.
Definition readNat (ds : jsstring) : Z :=
  fold_left (fun acc c => 10 * acc + digitVal c) ds 0.

End Str.
Import Str.

(* ===================================================================== *)
(** * 2. Numbers: IEEE-754 binary64                                       *)
(* ===================================================================== *)

Module F64.

Definition prec : Z := 53.
Definition emax : Z := 1024.

Definition number := spec_float.

Definition NaN : number := S754_nan.
Definition Infinity : number := S754_infinity false.

Definition add : number -> number -> number := SFadd prec emax.
Definition sub : number -> number -> number := SFsub prec emax.
Definition mul : number -> number -> number := SFmul prec emax.
Definition div : number -> number -> number := SFdiv prec emax.

(** [<], [<=], [>] and [===] on numbers; every comparison with NaN is
    false and the two zeros are equal. *)
Definition ltb : number -> number -> bool := SFltb.
Definition leb : number -> number -> bool := SFleb.
Definition gtb (x y : number) : bool := SFltb y x.
Definition eqb : number -> number -> bool := SFeqb.

Definition isNaN (x : number) : bool :=
  match x with S754_nan => true | _ => false end.

(** Identity of two number values (signed zeros distinguished). *)
Definition same (x y : number) : bool :=
  match x, y with
  | S754_zero a, S754_zero b => Bool.eqb a b
  | S754_infinity a, S754_infinity b => Bool.eqb a b
  | S754_nan, S754_nan => true
  | S754_finite a m e, S754_finite b m' e' =>
      Bool.eqb a b && (m =? m')%positive && (e =? e')
  | _, _ => false
  end.

(** The number value of an integer (round to nearest, ties to even). *)
Definition ofZ (z : Z) : number := binary_normalize prec emax z 0 false.

(** The number value of the decimal [(-1)^neg * m * 10^e] with [0 <= m]:
    the nearest binary64 value, ties to even.  This is the value of a
    numeric literal of the source and of a numeric string. *)
Definition decimal (neg : bool) (m : Z) (e : Z) : number :=
  match m with
  | Z0 => S754_zero neg
  | Zneg _ => S754_nan
  | Zpos _ =>
      if 0 <=? e
      then binary_normalize prec emax (cond_Zopp neg (m * 10 ^ e)) 0 neg
      else
        let '(q, e', l) := SFdiv_core_binary prec emax m 0 (10 ^ (- e)) 0 in
        binary_round_aux prec emax neg q e' l
  end.

(** [Math.abs] *)
Definition abs : number -> number := SFabs.

(** [Math.floor] *)
Definition floor (x : number) : number :=
  match x with
  | S754_finite s m e =>
      if 0 <=? e then x
      else ofZ (cond_Zopp s (Zpos m) / 2 ^ (- e))
  | _ => x
  end.

(** [Math.round]: the nearest integer, a tie going towards +Infinity; a
    result of zero keeps the sign of the argument. *)
Definition round (x : number) : number :=
  match x with
  | S754_finite s m e =>
      if 0 <=? e then x
      else
        let z := (2 * cond_Zopp s (Zpos m) + 2 ^ (- e)) / 2 ^ (- e + 1) in
        if z =? 0 then S754_zero s else ofZ z
  | _ => x
  end.

(** [Math.pow(10, e)] for an integer [e], taken to be the number nearest
    to [10^e].  ECMAScript leaves the accuracy of [Math.pow] to the
    engine, whose result can differ from this one in the last bit; the
    service calls it with [-2] only, where the two agree, and no property
    evaluates it elsewhere. *)
Definition pow10 (e : Z) : number := decimal false 1 e.

(** The exact value [p / q] of a positive finite number [m * 2^e]. *)
Definition fraction (m : positive) (e : Z) : Z * Z :=
  if 0 <=? e then (Zpos m * 2 ^ e, 1) else (Zpos m, 2 ^ (- e)).

End F64.

(* ===================================================================== *)
(** * 3. Conversions between numbers and strings                          *)
(* ===================================================================== *)

Module Conv.
Import F64.

(** ** Number::toString (radix 10) *)

(** [n] with [10^(n-1) <= p/q < 10^n], for [0 < p] and [0 < q]. *)
Fixpoint firstScale (fuel : nat) (p q j : Z) : Z :=
  match fuel with
  | O => j
  | S f => if q <=? p * 10 ^ j then j else firstScale f p q (j + 1)
  end.

Definition decimalExponent (p q : Z) : Z :=
  if q <=? p then Z.of_nat (length (showNat (p / q)))
  else 1 - firstScale (S (Z.to_nat (Z.log2 q))) p q 1.

(** [p/q * 10^d] as a fraction. *)
Definition scale10 (p q d : Z) : Z * Z :=
  if 0 <=? d then (p * 10 ^ d, q) else (p, q * 10 ^ (- d)).

(** The candidates with [k] digits for the shortest decimal that reads
    back as [x]: the two [k]-digit decimals around the exact value.  The
    result is the digit integer [s] and the exponent [n] of the chosen
    one (the closer to the exact value, the even one on a tie). *)
Definition candidate (x : number) (p q n k : Z) : option (Z * Z) :=
  let '(P, Q) := scale10 p q (k - n) in
  let lo := P / Q in
  let hi := lo + 1 in
  let '(hi', nhi) := if hi =? 10 ^ k then (10 ^ (k - 1), n + 1) else (hi, n) in
  let okLo := same (decimal false lo (n - k)) x in
  let okHi := same (decimal false hi' (nhi - k)) x in
  match okLo, okHi with
  | true, false => Some (lo, n)
  | false, true => Some (hi', nhi)
  | false, false => None
  | true, true =>
      match 2 * (P mod Q) ?= Q with
      | Lt => Some (lo, n)
      | Gt => Some (hi', nhi)
      | Eq => if Z.even lo then Some (lo, n) else Some (hi', nhi)
      end
  end.

Fixpoint shortest (fuel : nat) (x : number) (p q n k : Z) : Z * Z * Z :=
  match fuel with
  | O => (p / q, n, k)
  | S f =>
      match candidate x p q n k with
      | Some (s, n') => (s, n', k)
      | None => shortest f x p q n (k + 1)
      end
  end.

Definition exponentPart (n : Z) : jsstring :=
  lit "e" ++ [if 0 <=? n - 1 then PLUS else MINUS] ++ showNat (Z.abs (n - 1)).

(** The string of a positive finite number. *)
Definition showPositive (x : number) (m : positive) (e : Z) : jsstring :=
  let '(p, q) := fraction m e in
  let '(s, n, k) := shortest 17 x p q (decimalExponent p q) 1 in
  let ds := showNat s in
  if (k <=? n) && (n <=? 21) then ds ++ repeat ZERO (Z.to_nat (n - k))
  else if (0 <? n) && (n <=? 21)
       then take (Z.to_nat n) ds ++ [DOT] ++ drop (Z.to_nat n) ds
  else if (-6 <? n) && (n <=? 0)
       then lit "0." ++ repeat ZERO (Z.to_nat (- n)) ++ ds
  else if k =? 1 then ds ++ exponentPart n
  else take 1 ds ++ [DOT] ++ drop 1 ds ++ exponentPart n.

(** [x.toString()] *)
Definition toString (x : number) : jsstring :=
  match x with
  | S754_nan => lit "NaN"
  | S754_zero _ => lit "0"
  | S754_infinity s => (if s then [MINUS] else []) ++ lit "Infinity"
  | S754_finite s m e =>
      (if s then [MINUS] else []) ++ showPositive (S754_finite false m e) m e
  end.

(** ** Number.prototype.toFixed *)

(** The digits of [x.toFixed(f)] for a fraction-digit count the method
    accepts.  [n] is the integer nearest to [|x| * 10^f], the larger one
    on a tie. *)
Definition toFixedDigits (f : nat) (x : number) : jsstring :=
  match x with
  | S754_finite s m e =>
      let '(p, q) := fraction m e in
      if 10 ^ 21 * q <=? p then toString x
      else
        let n := (2 * p * 10 ^ Z.of_nat f + q) / (2 * q) in
        let ds := if n =? 0 then lit "0" else showNat n in
        let ds := padStart (S f) ds in
        let k := length ds in
        (if s then [MINUS] else []) ++
        match f with
        | O => ds
        | S _ => take (k - f) ds ++ [DOT] ++ drop (k - f) ds
        end
  | S754_zero _ =>
      match f with
      | O => lit "0"
      | S _ => lit "0." ++ repeat ZERO f
      end
  | _ => toString x
  end.

(** ** parseFloat and parseInt *)

(** The exponent part of a decimal literal: [e] or [E], an optional sign
    and at least one digit; [0] when there is none. *)
Definition readExponent (s : jsstring) : Z :=
  match s with
  | c :: r =>
      if ((c =? 101) || (c =? 69))%N then
        let '(neg, r') :=
          match r with
          | d :: r'' =>
              if (d =? MINUS)%N then (true, r'')
              else if (d =? PLUS)%N then (false, r'') else (false, r)
          | [] => (false, r)
          end in
        match takeWhile isDigit r' with
        | [] => 0
        | ds => cond_Zopp neg (readNat ds)
        end
      else 0
  | [] => 0
  end.

(** [parseFloat(s)]: leading white space is skipped, the longest prefix
    that is a decimal literal is read, and its value is rounded to the
    nearest number; NaN when no prefix is a literal. *)
Definition parseFloat (s : jsstring) : number :=
  let t := trimStart s in
  let '(neg, t) :=
    match t with
    | c :: r =>
        if (c =? MINUS)%N then (true, r)
        else if (c =? PLUS)%N then (false, r) else (false, t)
    | [] => (false, t)
    end in
  if startsWith (lit "Infinity") t then S754_infinity neg
  else
    let ip := takeWhile isDigit t in
    let r := dropWhile isDigit t in
    match r with
    | c :: r' =>
        if (c =? DOT)%N then
          let fp := takeWhile isDigit r' in
          match ip, fp with
          | [], [] => NaN
          | _, _ =>
              decimal neg (readNat (ip ++ fp))
                (readExponent (dropWhile isDigit r') - Z.of_nat (length fp))
          end
        else
          match ip with
          | [] => NaN
          | _ => decimal neg (readNat ip) (readExponent r)
          end
    | [] =>
        match ip with
        | [] => NaN
        | _ => decimal neg (readNat ip) 0
        end
    end.

(** [parseInt(s, 10)] *)
Definition parseInt (s : jsstring) : number :=
  let t := trimStart s in
  let '(neg, t) :=
    match t with
    | c :: r =>
        if (c =? MINUS)%N then (true, r)
        else if (c =? PLUS)%N then (false, r) else (false, t)
    | [] => (false, t)
    end in
  match takeWhile isDigit t with
  | [] => NaN
  | ds => decimal neg (readNat ds) 0
  end.

End Conv.

(* ===================================================================== *)
(** * 4. Exceptions and effects                                           *)
(* ===================================================================== *)

(** The two exceptions the service can raise: the [RangeError] of
    [Number.prototype.toFixed] for a digit count outside 0..100, and the
    [Error] that [processExcelBuffer] throws when no sheet has rows
    (the specification's NoDataError). *)
Inductive exn := RangeError | NoDataError.

Inductive result (X : Type) :=
| Ok (x : X)
| Throw (e : exn).
Arguments Ok {X} x.
Arguments Throw {X} e.

(** Computations that read and update a state [S] and may throw. *)
Definition M (S X : Type) : Type := S -> result (X * S).

Definition ret {S X} (x : X) : M S X := fun s => Ok (x, s).
Definition throw {S X} (e : exn) : M S X := fun _ => Throw e.
Definition bind {S X Y} (m : M S X) (k : X -> M S Y) : M S Y :=
  fun s => match m s with
           | Ok (x, s') => k x s'
           | Throw e => Throw e
           end.
Definition modify {S} (f : S -> S) : M S unit := fun s => Ok (tt, f s).

Notation "'let*' x ':=' m 'in' k" := (bind m (fun x => k))
  (at level 10, x pattern, m at level 100, k at level 200).

(** [xs.forEach(...)] over an object [a] that the callback updates. *)
Fixpoint foldM {S X Y} (f : Y -> X -> M S Y) (a : Y) (xs : list X) : M S Y :=
  match xs with
  | [] => ret a
  | x :: r => let* a' := f a x in foldM f a' r
  end.

(* ===================================================================== *)
(** * 5. The randomization helpers                                        *)
(* ===================================================================== *)

(** The arithmetic the two helpers use.  [nlit m e] is the numeric literal
    [m * 10^e]; [nfixed f x] is [parseFloat(x.toFixed(f))] for a digit count
    [toFixed] accepts. *)
Record Arith := {
  num :> Type;
  nadd : num -> num -> num;
  nsub : num -> num -> num;
  nmul : num -> num -> num;
  ndiv : num -> num -> num;
  nlt : num -> num -> bool;
  nle : num -> num -> bool;
  nseq : num -> num -> bool;
  nlit : Z -> Z -> num;
  nfloor : num -> num;
  npow10 : Z -> num;
  nfixed : nat -> num -> num
}.

Arguments nadd {_}. Arguments nsub {_}. Arguments nmul {_}. Arguments ndiv {_}.
Arguments nlt {_}. Arguments nle {_}. Arguments nseq {_}. Arguments nlit {_}.
Arguments nfloor {_}. Arguments npow10 {_}. Arguments nfixed {_}.

(** The outcome of the retry loop of [randomizeOutSpec]: the value of
    [newValue] and of the counter [attempts] when the loop is left. *)
Record Outcome (A : Type) := { newValue : A; attempts : nat }.
Arguments newValue {A}. Arguments attempts {A}.

Section Randomization.
Context {A : Arith}.
(** [Math.random()], drawing from a state [St]. *)
Context {St : Type} (random : St -> A * St).

Local Notation "x + y" := (nadd x y).
Local Notation "x - y" := (nsub x y).
Local Notation "x * y" := (nmul x y).
Local Notation "x / y" := (ndiv x y).
Local Notation "x < y" := (nlt x y).
Local Notation "x > y" := (nlt y x) (only parsing).
Local Notation "x <= y" := (nle x y).
Local Notation "x !== y" := (negb (nseq x y)) (at level 70).
Local Notation "x === y" := (nseq x y) (at level 70).

Definition Math_random : M St A := fun s => Ok (random s).

(** [parseFloat(x.toFixed(precision))] *)
Definition roundTo (precision : Z) (x : A) : M St A :=
  if ((0 <=? precision) && (precision <=? 100))%Z
  then ret (nfixed (Z.to_nat precision) x)
  else throw RangeError.

Definition randomizeInSpec (min max : A) (precision : Z) : M St A :=
  let tolerance := max - min in
  if tolerance <= nlit 0 0 then ret min
  else
    let safeMin := min + (tolerance * nlit 5 (-2)) in
    let safeMax := max - (tolerance * nlit 5 (-2)) in
    if safeMax <= safeMin then
      let* r := Math_random in
      let randomVal := r * (max - min) + min in
      roundTo precision randomVal
    else
      let* r := Math_random in
      let randomVal := r * (safeMax - safeMin) + safeMin in
      roundTo precision randomVal.

Section OutSpec.
Variables (originalValue min max : A) (precision : Z) (isAngle : bool).

Definition step : A :=
  if isAngle then nlit 1 0 / nlit 60 0 else npow10 (- precision).

(** One pass through the body of the loop, up to the test: the
    candidate it computes. *)
Definition drawCandidate : M St A :=
  let* r := Math_random in
  let randomInt := nfloor (r * nlit 7 0) - nlit 3 0 in
  let randomInt := if randomInt === nlit 0 0 then nlit 1 0 else randomInt in
  let randomStep := randomInt * step in
  let candidate := originalValue + randomStep in
  if negb isAngle then roundTo precision candidate else ret candidate.

Definition isStillOut (candidate : A) : bool :=
  (candidate > max) || (candidate < min).

Definition directionPreserved (candidate : A) : bool :=
  ((originalValue > max) && (candidate > max))
  || ((originalValue < min) && (candidate < min)).

(** The condition under which the loop takes the candidate. *)
Definition accepts (attempts : nat) (candidate : A) : bool :=
  isStillOut candidate
  && (directionPreserved candidate || (20 <? attempts)%nat)
  && (candidate !== originalValue).

(** [while (attempts < 50) { ... }]; [fuel] bounds the unfolding and 50
    is enough, the counter growing by one each round. *)
Fixpoint retryLoop (fuel attempts : nat) : M St (Outcome A) :=
  match fuel with
  | O => ret {| newValue := originalValue; attempts := attempts |}
  | S fuel' =>
      if (attempts <? 50)%nat then
        let* candidate := drawCandidate in
        if accepts attempts candidate
        then ret {| newValue := candidate; attempts := attempts |}
        else retryLoop fuel' (S attempts)
      else ret {| newValue := originalValue; attempts := attempts |}
  end.

Definition randomizeOutSpecLoop : M St (Outcome A) := retryLoop 50 0.

Definition randomizeOutSpec : M St A :=
  let* o := randomizeOutSpecLoop in ret (newValue o).
End OutSpec.

End Randomization.

(** ** The arithmetic of the service *)

(** Binary64, the arithmetic the service runs on. *)
Definition Binary64 : Arith := {|
  num := F64.number;
  nadd := F64.add;
  nsub := F64.sub;
  nmul := F64.mul;
  ndiv := F64.div;
  nlt := F64.ltb;
  nle := F64.leb;
  nseq := F64.eqb;
  nlit := F64.decimal false;
  nfloor := F64.floor;
  npow10 := F64.pow10;
  nfixed := fun f x => Conv.parseFloat (Conv.toFixedDigits f x)
|}.


(* ===================================================================== *)
(** * 6. Cell values, the numeric parser and the angle codec              *)
(* ===================================================================== *)

Module Service.
Import F64 Conv.

(** A primitive JavaScript value a cell can report. *)
Inductive Prim :=
| PNum (x : number)
| PStr (s : jsstring)
| PBool (b : bool).

(** The [result] property of a formula value. *)
Inductive FormulaResult :=
| RUndefined
| RPrim (p : Prim)
| RObject.                       (* a date, an error value or null *)

(** [cell.value] of ExcelJS. *)
Inductive CellValue :=
| VNull                          (* null or undefined *)
| VPrim (p : Prim)
| VFormula (result : FormulaResult)
| VRichText (runs : list jsstring)   (* the [text] of each run *)
| VHyperlink (text : jsstring)
| VOther.                        (* a date, an error value, ... *)

(** A cell of ExcelJS: the value it reports (for a follower of a merged
    region, that of its master), its number format, and whether it is a
    follower ([cell.isMerged && cell.address !== cell.master.address]).
    The service never writes to a follower.  A write to a master is not
    carried over to the record of its followers: what a follower reports
    after its master is rewritten is outside the model. *)
Record Cell := {
  value : CellValue;
  numFmt : option jsstring;
  follower : bool
}.

Definition emptyCell : Cell :=
  {| value := VNull; numFmt := None; follower := false |}.

Definition getCellValue (cell : Cell) : option Prim :=
  match value cell with
  | VNull => None
  | VPrim p => Some p
  | VFormula RUndefined => None
  | VFormula RObject => None
  | VFormula (RPrim p) => Some p
  | VRichText runs => Some (PStr (concat runs))
  | VHyperlink text => Some (PStr text)
  | VOther => None
  end.

Definition parseNumber (val : option Prim) : option number :=
  match val with
  | Some (PNum x) => if negb (isNaN x) then Some x else None
  | Some (PStr s) =>
      match trim s with
      | [] => None
      | _ =>
          let normalized := replaceFirst COMMA DOT s in
          let num := parseFloat normalized in
          if isNaN num then None else Some num
      end
  | _ => None
  end.

(** ** Angle helpers *)

Definition isSeparator (c : codeunit) : bool := (c =? DEGREE)%N || isSpace c.

(** [val.match(/^(-?\d+)[°\s]+(\d+)/)]: the two captured groups. *)
Definition dmsMatch (val : jsstring) : option (jsstring * jsstring) :=
  let '(sign, r) :=
    match val with
    | c :: r' => if (c =? MINUS)%N then ([MINUS], r') else ([], val)
    | [] => ([], val)
    end in
  match takeWhile isDigit r with
  | [] => None
  | ds =>
      let r := dropWhile isDigit r in
      match takeWhile isSeparator r with
      | [] => None
      | _ =>
          match takeWhile isDigit (dropWhile isSeparator r) with
          | [] => None
          | ms => Some (sign ++ ds, ms)
          end
      end
  end.

Definition parseAngleToDecimal (val : option Prim) : option number :=
  match val with
  | Some (PNum x) => Some x
  | Some (PStr s) =>
      match dmsMatch s with
      | Some (g1, g2) =>
          let deg := parseInt g1 in
          let min := parseInt g2 in
          let sign := if ltb deg (ofZ 0) then ofZ (-1) else ofZ 1 in
          Some (add (abs deg) (mul (div min (ofZ 60)) sign))
      | None => parseNumber val
      end
  | _ => None
  end.

Definition formatAngle (decimalDeg : number) : jsstring :=
  let sign := if ltb decimalDeg (ofZ 0) then [MINUS] else [] in
  let absVal := abs decimalDeg in
  let deg := floor absVal in
  let minPart := mul (sub absVal deg) (ofZ 60) in
  let min := round minPart in
  let degStr := padStart 2 (toString deg) in
  let minStr := padStart 2 (toString min) in
  sign ++ degStr ++ [DEGREE] ++ minStr ++ [APOSTROPHE].

(* =================================================================== *)
(** * 7. Sheets and the main process                                    *)
(* =================================================================== *)

Record ProcessingStats := {
  totalRows : nat;
  processedCells : nat;
  outOfSpecCount : nat;
  inSpecCount : nat
}.

(** A row maps 1-based column numbers to cells; a sheet is the array of
    its rows, an entry being absent where the sheet has no row object. *)
Abbreviation Row := (gmap nat Cell).
Abbreviation Worksheet := (list (option (gmap nat Cell))).
Abbreviation Workbook := (list (list (option (gmap nat Cell)))).

(** [row.getCell(c)] *)
Definition getCell (row : Row) (c : nat) : Cell := default emptyCell (row !! c).

(** [row.hasValues]: some cell is not of the Null type. *)
Definition cellHasValue (c : Cell) : bool :=
  follower c || match value c with VNull => false | _ => true end.
Definition hasValues (row : Row) : bool :=
  existsb cellHasValue (map_to_list row).*2.

(** [sheet.rowCount]: the number of the last row object of the sheet. *)
Fixpoint rowCount (sheet : Worksheet) : nat :=
  match sheet with
  | [] => 0
  | r :: rest =>
      match rowCount rest, r with
      | O, None => 0
      | n, _ => S n
      end
  end.

(** The state of a run: the statistics record and the position in the
    supply of random draws. *)
Record State := { stats : ProcessingStats; cursor : nat }.

Definition onStats (f : ProcessingStats -> ProcessingStats) : M State unit :=
  modify (fun s => {| stats := f (stats s); cursor := cursor s |}).

Definition incTotalRows (t : ProcessingStats) : ProcessingStats :=
  {| totalRows := S (totalRows t); processedCells := processedCells t;
     outOfSpecCount := outOfSpecCount t; inSpecCount := inSpecCount t |}.
Definition incProcessedCells (t : ProcessingStats) : ProcessingStats :=
  {| totalRows := totalRows t; processedCells := S (processedCells t);
     outOfSpecCount := outOfSpecCount t; inSpecCount := inSpecCount t |}.
Definition incOutOfSpecCount (t : ProcessingStats) : ProcessingStats :=
  {| totalRows := totalRows t; processedCells := processedCells t;
     outOfSpecCount := S (outOfSpecCount t); inSpecCount := inSpecCount t |}.
Definition incInSpecCount (t : ProcessingStats) : ProcessingStats :=
  {| totalRows := totalRows t; processedCells := processedCells t;
     outOfSpecCount := outOfSpecCount t; inSpecCount := S (inSpecCount t) |}.

(** ** Regular expressions of the cell rewriter *)

Definition optionalMinus (s : jsstring) : jsstring * jsstring :=
  match s with
  | c :: r => if (c =? MINUS)%N then ([MINUS], r) else ([], s)
  | [] => ([], s)
  end.

Definition isDecimalSeparator (c : codeunit) : bool :=
  (c =? DOT)%N || (c =? COMMA)%N.

(** [/^-?\d*([.,]\d+)?\s*$/.test(t)] *)
Definition cleanNumber (t : jsstring) : bool :=
  let r := dropWhile isDigit (snd (optionalMinus t)) in
  let r :=
    match r with
    | c :: r' =>
        if isDecimalSeparator c then
          match takeWhile isDigit r' with
          | [] => r
          | _ => dropWhile isDigit r'
          end
        else r
    | [] => r
    end in
  forallb isSpace r.

(** A match of [/-?\d+(?:[.,]\d+)?/] at the head of [s]: the matched
    text and what follows it. *)
Definition linearToken (s : jsstring) : option (jsstring * jsstring) :=
  let '(sign, r) := optionalMinus s in
  match takeWhile isDigit r with
  | [] => None
  | ds =>
      let r1 := dropWhile isDigit r in
      match r1 with
      | c :: r2 =>
          if isDecimalSeparator c then
            match takeWhile isDigit r2 with
            | [] => Some (sign ++ ds, r1)
            | fs => Some (sign ++ ds ++ [c] ++ fs, dropWhile isDigit r2)
            end
          else Some (sign ++ ds, r1)
      | [] => Some (sign ++ ds, [])
      end
  end.

(** A match of [/-?\d+[°\s]\d+'?/] at the head of [s]. *)
Definition angleToken (s : jsstring) : option (jsstring * jsstring) :=
  let '(sign, r) := optionalMinus s in
  match takeWhile isDigit r with
  | [] => None
  | ds =>
      match dropWhile isDigit r with
      | c :: r2 =>
          if isSeparator c then
            match takeWhile isDigit r2 with
            | [] => None
            | ms =>
                match dropWhile isDigit r2 with
                | q :: r3 =>
                    if (q =? APOSTROPHE)%N
                    then Some (sign ++ ds ++ [c] ++ ms ++ [q], r3)
                    else Some (sign ++ ds ++ [c] ++ ms, q :: r3)
                | [] => Some (sign ++ ds ++ [c] ++ ms, [])
                end
            end
          else None
      | [] => None
      end
  end.

(** [pattern.test(s)]: the pattern matches somewhere in [s]. *)
Fixpoint testPattern (tok : jsstring -> option (jsstring * jsstring))
    (s : jsstring) : bool :=
  match tok s with
  | Some _ => true
  | None =>
      match s with
      | [] => false
      | _ :: r => testPattern tok r
      end
  end.

(** [s.replace(pattern, callback)] for a global pattern: the matches are
    found from left to right, none overlapping, and each is replaced by
    what the callback returns for it.  The callback also tells whether
    it set [cellModified]. *)
Fixpoint replacePattern (fuel : nat)
    (tok : jsstring -> option (jsstring * jsstring))
    (callback : jsstring -> M State (jsstring * bool))
    (s : jsstring) : M State (jsstring * bool) :=
  match fuel with
  | O => ret (s, false)
  | S fuel' =>
      match tok s with
      | Some (m, rest) =>
          let* (t, b) := callback m in
          let* (u, b') := replacePattern fuel' tok callback rest in
          ret (t ++ u, b || b')
      | None =>
          match s with
          | [] => ret ([], false)
          | c :: r =>
              let* (u, b') := replacePattern fuel' tok callback r in
              ret (c :: u, b')
          end
      end
  end.

Section Process.
(** The supply of [Math.random()] draws. *)
Variable rand : nat -> number.

Definition random (s : State) : number * State :=
  (rand (cursor s), {| stats := stats s; cursor := S (cursor s) |}).

(** The block shared by the two cases: classify a decoded value against
    the window and draw its replacement. *)
Definition regenerate (isAngle : bool) (currentMin currentMax : number)
    (precision : Z) (val : number) : M State number :=
  let isOut := gtb val currentMax || ltb val currentMin in
  if isOut then
    let* newVal := randomizeOutSpec (A := Binary64) random
                     val currentMin currentMax precision isAngle in
    let* _ := onStats incOutOfSpecCount in
    ret newVal
  else
    let* newVal := randomizeInSpec (A := Binary64) random
                     currentMin currentMax precision in
    let* _ := onStats incInSpecCount in
    ret newVal.

(** The callback of CASE B. *)
Definition rewriteToken (isAngle : bool) (currentMin currentMax : number)
    (precision : Z) (match_ : jsstring) : M State (jsstring * bool) :=
  let val :=
    if isAngle then parseAngleToDecimal (Some (PStr match_))
    else parseNumber (Some (PStr match_)) in
  match val with
  | None => ret (match_, false)
  | Some val =>
      let* newVal := regenerate isAngle currentMin currentMax precision val in
      if isAngle then ret (formatAngle newVal, true)
      else if includes COMMA match_
           then ret (replaceFirst DOT COMMA (toFixedDigits 2 newVal), true)
           else ret (toFixedDigits 2 newVal, true)
  end.

(** CASE A of the column callback: the cell holds a single value. *)
Definition caseA (isAngle : bool) (currentMin currentMax : number)
    (precision : Z) (row : Row) (colIndex : nat) (singleVal : number)
    : M State Row :=
  let cell := getCell row colIndex in
  let* newVal := regenerate isAngle currentMin currentMax precision singleVal in
  let cell' :=
    if isAngle
    then {| value := VPrim (PStr (formatAngle newVal));
            numFmt := numFmt cell;
            follower := follower cell |}
    else {| value := VPrim (PNum newVal);
            numFmt := Some (lit "0.00");
            follower := follower cell |} in
  let* _ := onStats incProcessedCells in
  ret (<[colIndex := cell']> row).

(** CASE B of the column callback: a string with embedded numbers. *)
Definition caseB (isAngle : bool) (currentMin currentMax : number)
    (precision : Z) (row : Row) (colIndex : nat) (cellValueRaw : jsstring)
    : M State Row :=
  let cell := getCell row colIndex in
  let pattern := if isAngle then angleToken else linearToken in
  if testPattern pattern cellValueRaw then
    let* (newText, cellModified) :=
      replacePattern (S (length cellValueRaw)) pattern
        (rewriteToken isAngle currentMin currentMax precision) cellValueRaw in
    if cellModified then
      let* _ := onStats incProcessedCells in
      ret (<[colIndex := {| value := VPrim (PStr newText);
                            numFmt := numFmt cell;
                            follower := follower cell |}]> row)
    else ret row
  else ret row.

(** The body of [excelTargetCols.forEach] for one column of a row whose
    window is resolved. *)
Definition processTarget (isAngle : bool) (currentMin currentMax : number)
    (row : Row) (colIndex : nat) : M State Row :=
  let cell := getCell row colIndex in
  if follower cell then ret row
  else
    let cellValueRaw := getCellValue cell in
    match cellValueRaw with
    | None => ret row
    | Some (PStr []) => ret row
    | Some raw =>
        let precision := if isAngle then 0 else 2 in
        let singleVal :=
          if isAngle then parseAngleToDecimal cellValueRaw
          else parseNumber cellValueRaw in
        let isCleanNumberString :=
          match raw with PStr s => cleanNumber (trim s) | _ => false end in
        let isNumberType :=
          match raw with PNum _ => true | _ => false end in
        let isString :=
          match raw with PStr _ => true | _ => false end in
        let complexString : M State Row :=
          match raw with
          | PStr s => caseB isAngle currentMin currentMax precision row colIndex s
          | _ => ret row
          end in
        match singleVal with
        | Some singleVal =>
            if isNumberType || isCleanNumberString || (isAngle && isString)
            then caseA isAngle currentMin currentMax precision row colIndex singleVal
            else complexString
        | None => complexString
        end
    end.

Record Latch := {
  currentMax : option number;
  currentMin : option number
}.

Definition COL_DESC : nat := 2.
Definition COL_UT : nat := 3.
Definition COL_LT : nat := 4.

(** Step 1 of the row callback. *)
Definition rowIsAngle (row : Row) : bool :=
  match getCellValue (getCell row COL_DESC) with
  | Some (PStr descVal) =>
      let text := toLowerCase (trim descVal) in
      startsWith (lit "ang") text || includes DEGREE text
  | _ => false
  end.

(** Step 2 of the row callback: the tolerances the row defines. *)
Definition rowTolerances (row : Row) : option number * option number :=
  let rawMax := getCellValue (getCell row COL_UT) in
  let rawMin := getCellValue (getCell row COL_LT) in
  if rowIsAngle row
  then (parseAngleToDecimal rawMax, parseAngleToDecimal rawMin)
  else (parseNumber rawMax, parseNumber rawMin).

(** The latch: a bound the row defines replaces the current one. *)
Definition latch (l : Latch) (vals : option number * option number) : Latch :=
  {| currentMax := match fst vals with Some v => Some v | None => currentMax l end;
     currentMin := match snd vals with Some v => Some v | None => currentMin l end |}.

(** The callback of [sheet.eachRow]. *)
Definition processRow (excelTargetCols : list nat) (l : Latch) (row : Row)
    : M State (Row * Latch) :=
  let* _ := onStats incTotalRows in
  let isAngle := rowIsAngle row in
  let l := latch l (rowTolerances row) in
  match currentMax l, currentMin l with
  | Some cmax, Some cmin =>
      let* row' := foldM (processTarget isAngle cmin cmax) row excelTargetCols in
      ret (row', l)
  | _, _ => ret (row, l)
  end.

(** [sheet.eachRow({ includeEmpty: false }, ...)] *)
Fixpoint eachRow (excelTargetCols : list nat) (l : Latch)
    (rows : Worksheet) : M State (Worksheet * Latch) :=
  match rows with
  | [] => ret ([], l)
  | Some row :: rest =>
      if hasValues row then
        let* (row', l') := processRow excelTargetCols l row in
        let* (rest', l'') := eachRow excelTargetCols l' rest in
        ret (Some row' :: rest', l'')
      else
        let* (rest', l'') := eachRow excelTargetCols l rest in
        ret (Some row :: rest', l'')
  | None :: rest =>
      let* (rest', l'') := eachRow excelTargetCols l rest in
      ret (None :: rest', l'')
  end.

Definition processSheet (sheet : Worksheet) (targetCols : list nat)
    : M State Worksheet :=
  let excelTargetCols := map S targetCols in
  let* (sheet', _) :=
    eachRow excelTargetCols {| currentMax := None; currentMin := None |} sheet in
  ret sheet'.

(** [workbook.eachSheet(...)], with the counter [validSheetsFound]. *)
Fixpoint eachSheet (targetCols : list nat) (validSheetsFound : nat)
    (sheets : Workbook) : M State (Workbook * nat) :=
  match sheets with
  | [] => ret ([], validSheetsFound)
  | sheet :: rest =>
      if (0 <? rowCount sheet)%nat then
        let* sheet' := processSheet sheet targetCols in
        let* (rest', n) := eachSheet targetCols (S validSheetsFound) rest in
        ret (sheet' :: rest', n)
      else
        let* (rest', n) := eachSheet targetCols validSheetsFound rest in
        ret (sheet :: rest', n)
  end.

Definition initialStats : ProcessingStats :=
  {| totalRows := 0; processedCells := 0; outOfSpecCount := 0; inSpecCount := 0 |}.

(** [processExcelBuffer], on the workbook loaded from the buffer; the
    workbook it returns is the one serialized into the output buffer.
    [start] is the position of the random supply when it is called. *)
Definition processExcelBuffer (workbook : Workbook) (targetCols : list nat)
    (start : nat) : result (Workbook * ProcessingStats) :=
  match eachSheet targetCols 0 workbook {| stats := initialStats; cursor := start |} with
  | Throw e => Throw e
  | Ok ((workbook', validSheetsFound), s) =>
      if (validSheetsFound =? 0)%nat then Throw NoDataError
      else Ok (workbook', stats s)
  end.

Definition defaultTargetCols : list nat := [4; 5; 6]%nat.
End Process.

End Service.

(* ===================================================================== *)
(** * 7b. The remaining helpers: decimal count, column selection, names   *)
(* ===================================================================== *)

Module Helpers.
Import F64 Conv.

(** [s.split(sep)] for a one-character separator. *)
Fixpoint split (sep : codeunit) (s : jsstring) : list jsstring :=
  match s with
  | [] => [[]]
  | c :: r =>
      if (c =? sep)%N then [] :: split sep r
      else
        match split sep r with
        | seg :: segs => (c :: seg) :: segs
        | [] => [[c]]
        end
  end.

(** [parts.join(sep)] *)
Fixpoint join (sep : codeunit) (parts : list jsstring) : jsstring :=
  match parts with
  | [] => []
  | [p] => p
  | p :: rest => p ++ sep :: join sep rest
  end.

(** [s.endsWith(suffix)] *)
Definition endsWith (suffix s : jsstring) : bool :=
  startsWith (rev suffix) (rev s).

(** [countDecimals] of the service: the argument is a number or a string. *)
Definition countDecimals (value : number + jsstring) : nat :=
  let str :=
    replaceFirst COMMA DOT
      (match value with inl x => toString x | inr s => s end) in
  if negb (includes DOT str) then 0
  else length (nth 1 (split DOT str) []).

(** The state update of [toggleColumn] in [App.tsx]. *)
Definition toggleColumn (prev : list nat) (index : nat) : list nat :=
  if existsb (Nat.eqb index) prev
  then List.filter (fun i => negb (i =? index)%nat) prev
  else prev ++ [index].

(** The name [downloadFile] of [App.tsx] gives to the generated file. *)
Definition downloadName (fileName : jsstring) : jsstring :=
  let nameParts := split DOT fileName in
  let ext := List.last nameParts [] in
  let nameParts := removelast nameParts in
  join DOT nameParts ++ lit "_Gerado." ++ ext.

(** The decision of [validateFile] in [Dropzone.tsx] on the MIME type and
    the name of a file. *)
Definition validTypes : list jsstring :=
  [lit "application/vnd.openxmlformats-officedocument.spreadsheetml.sheet";
   lit "application/vnd.ms-excel";
   lit "application/vnd.ms-excel.sheet.macroEnabled.12"].

Definition validateFile (type name : jsstring) : bool :=
  existsb (fun t => bool_decide (t = type)) validTypes
  || endsWith (lit ".xlsx") name
  || endsWith (lit ".xls") name
  || endsWith (lit ".xlsm") name.

End Helpers.

(* ===================================================================== *)
(** * 8. Vocabulary of the properties                                     *)
(* ===================================================================== *)

(** A computation that never throws. *)
Definition total {S X} (m : M S X) : Prop :=
  forall s, exists x s', m s = Ok (x, s').

(** The state of the random supply after [i] calls of [Math.random()]. *)
Definition afterDraws {A St : Type} (random : St -> A * St) (i : nat) (s : St) : St :=
  Nat.iter i (fun s => snd (random s)) s.

(** A string of white space only (the empty string included). *)
Definition whitespaceOnly (s : jsstring) : Prop := Forall (fun c => isSpace c = true) s.

Definition digitsOnly (s : jsstring) : Prop := Forall (fun c => isDigit c = true) s.

(** A sheet contains a row when its array of rows has a row object. *)
Definition containsRow (sheet : list (option (gmap nat Service.Cell))) : Prop :=
  exists row, In (Some row) sheet.

(** A single numeric token: an optional minus sign, digits, and optionally
    a decimal separator followed by digits. *)
Definition numericToken (t : jsstring) : Prop :=
  exists sign ds frac,
    t = sign ++ ds ++ frac
    /\ (sign = [] \/ sign = [MINUS])
    /\ ds <> [] /\ digitsOnly ds
    /\ (frac = []
        \/ exists c fs, frac = c :: fs /\ Service.isDecimalSeparator c = true
                        /\ fs <> [] /\ digitsOnly fs).

(** ** Vocabulary of the further properties *)

(** A zero or a finite number: neither NaN nor an infinity. *)
Definition finiteNumber (x : F64.number) : Prop :=
  match x with
  | S754_zero _ | S754_finite _ _ _ => True
  | _ => False
  end.

(** A number [toFixed] writes in fixed notation: a zero, or a finite
    value below [10^21] in magnitude. *)
Definition fixedNotation (x : F64.number) : Prop :=
  match x with
  | S754_zero _ => True
  | S754_finite _ m e =>
      let '(p, q) := F64.fraction m e in (10 ^ 21 * q <=? p) = false
  | _ => False
  end.

(** A string in which the code unit [sep] does not occur. *)
Definition without (sep : codeunit) (s : jsstring) : Prop :=
  Forall (fun c => (c =? sep)%N = false) s.

Definition noDigits (s : jsstring) : Prop := Forall (fun c => isDigit c = false) s.

(** How the statistics [t'] extend the statistics [t]: [rows] more rows,
    at most [cells] more processed cells, no counter going down, and every
    new processed cell matched by a new classified value. *)
Definition tally (rows cells : nat) (t t' : Service.ProcessingStats) : Prop :=
  (Service.totalRows t' = Service.totalRows t + rows
   /\ Service.processedCells t <= Service.processedCells t'
      <= Service.processedCells t + cells
   /\ Service.inSpecCount t <= Service.inSpecCount t'
   /\ Service.outOfSpecCount t <= Service.outOfSpecCount t'
   /\ Service.processedCells t' + Service.inSpecCount t + Service.outOfSpecCount t
      <= Service.processedCells t + Service.inSpecCount t' + Service.outOfSpecCount t')%nat.

(** The same for the tokens of one string: only the two classification
    counters move, and they do when [b], the flag [cellModified], is set. *)
Definition tokensTally (b : bool) (t t' : Service.ProcessingStats) : Prop :=
  (Service.totalRows t' = Service.totalRows t
   /\ Service.processedCells t' = Service.processedCells t
   /\ Service.inSpecCount t <= Service.inSpecCount t'
   /\ Service.outOfSpecCount t <= Service.outOfSpecCount t'
   /\ (b = true ->
       Service.inSpecCount t + Service.outOfSpecCount t
       < Service.inSpecCount t' + Service.outOfSpecCount t'))%nat.

(** The rows of a sheet that [eachRow] visits: the row objects holding a
    value. *)
Definition visitedRows (sheet : list (option (gmap nat Service.Cell))) : nat :=
  length (List.filter
            (fun r => match r with Some row => Service.hasValues row | None => false end)
            sheet).

(** [row'] is [row] in every cell outside the columns [cols] that is not
    a merge follower. *)
Definition rowFrame (cols : list nat) (row row' : gmap nat Service.Cell) : Prop :=
  forall c, ~ In c cols -> Service.follower (Service.getCell row c) = false ->
            row' !! c = row !! c.

Definition sheetFrame (cols : list nat)
    (sheet sheet' : list (option (gmap nat Service.Cell))) : Prop :=
  Forall2 (fun r r' =>
             match r, r' with
             | None, None => True
             | Some row, Some row' => rowFrame cols row row'
             | _, _ => False
             end) sheet sheet'.

(** ** Numbers as rationals, and rounding *)

(** The power [2^e]. *)
Definition pow2 (e : Z) : Q := Qpower 2 e.

(** The value of a number: [(-1)^s * m * 2^e] for a finite number, 0 for
    a zero (and for NaN and the infinities, which have none). *)
Definition B2Q (x : F64.number) : Q :=
  match x with
  | S754_finite s m e => inject_Z (cond_Zopp s (Zpos m)) * pow2 e
  | _ => 0
  end.

(** A zero, or a finite number in the canonical form of binary64: a
    significand below [2^53] and an exponent between -1074 and 971, the
    significand being at least [2^52] unless the exponent is -1074. *)
Definition wellFormed (x : F64.number) : Prop :=
  match x with
  | S754_zero _ => True
  | S754_finite _ m e => bounded 53 1024 m e = true
  | _ => False
  end.

(** [x] is a binary64 number nearest to the rational [q]: its value is
    [n * 2^e] for an integer [n] nearest to [q / 2^e], on the grid [2^e]
    of the binade of [q] (the grid [2^-1074] below the normal numbers). *)
Definition rounds (q : Q) (x : F64.number) : Prop :=
  wellFormed x
  /\ exists n e : Z,
       (B2Q x == inject_Z n * pow2 e)%Q
       /\ (Qabs (q * pow2 (- e) - inject_Z n) <= 1 # 2)%Q
       /\ -1074 <= e
       /\ (-1074 < e -> (pow2 (52 + e) <= Qabs q)%Q).

(** Where [x] lies between the integers [m] and [m + 1], as [SpecFloat]
    records it: on [m], below, on or above the middle. *)
Definition inbetween (x : Q) (m : Z) (l : location) : Prop :=
  match l with
  | loc_Exact => (x == inject_Z m)%Q
  | loc_Inexact Lt => (inject_Z m < x < inject_Z m + (1 # 2))%Q
  | loc_Inexact Eq => (x == inject_Z m + (1 # 2))%Q
  | loc_Inexact Gt => (inject_Z m + (1 # 2) < x < inject_Z m + 1)%Q
  end.

(** The same for the record of a right shift. *)
Definition located (x : Q) (mrs : shr_record) : Prop :=
  0 <= shr_m mrs /\ inbetween x (shr_m mrs) (loc_of_shr_record mrs).

(** The sign of a zero or of a finite number. *)
Definition signOf (x : F64.number) : option bool :=
  match x with
  | S754_zero s | S754_finite s _ _ => Some s
  | _ => None
  end.





(** The digits [ds] read after the number [acc]. *)
Definition readFrom (acc : Z) (ds : jsstring) : Z :=
  fold_left (fun acc c => 10 * acc + digitVal c) ds acc.

(** The candidate of [randomizeOutSpec] for the multiplier [k], as the
    service calls it: two decimals for a linear value, the minute step
    and no rounding for an angle. *)
Definition candidateFor (originalValue : F64.number) (isAngle : bool) (k : Z)
    : F64.number :=
  let precision := if isAngle then 0 else 2 in
  let c := F64.add originalValue
             (F64.mul (F64.ofZ k) (step (A := Binary64) precision isAngle)) in
  if isAngle then c else nfixed (a := Binary64) (Z.to_nat precision) c.

(** ** The latch across rows *)

(** The latch after the rows of [rows] that [eachRow] visits, starting
    from [l]: each visited row latches the bounds it defines. *)
Definition latchThrough (l : Service.Latch)
    (rows : list (option (gmap nat Service.Cell))) : Service.Latch :=
  fold_left
    (fun l r =>
       match r with
       | Some row =>
           if Service.hasValues row
           then Service.latch l (Service.rowTolerances row) else l
       | None => l
       end) rows l.

(** The state in which the target cells of a row are processed: the row
    has been counted. *)
Definition counted (s : Service.State) : Service.State :=
  {| Service.stats := Service.incTotalRows (Service.stats s);
     Service.cursor := Service.cursor s |}.

(** ** Concrete inputs used by the examples *)

(** The number written by a decimal literal. *)
Definition dec (m : Z) (e : Z) : F64.number := F64.decimal (m <? 0) (Z.abs m) e.

(** A random supply that returns the same draw every time; its state is
    the number of draws made. *)
Definition constantDraw (r : F64.number) (k : nat) : F64.number * nat := (r, Datatypes.S k).

(** Cells and rows of the examples. *)
Definition textCell (t : string) : Service.Cell :=
  {| Service.value := Service.VPrim (Service.PStr (lit t));
     Service.numFmt := None; Service.follower := false |}.
Definition numberCell (m e : Z) : Service.Cell :=
  {| Service.value := Service.VPrim (Service.PNum (dec m e));
     Service.numFmt := None; Service.follower := false |}.
Definition rowOf (cells : list (nat * Service.Cell)) : gmap nat Service.Cell :=
  list_to_map cells.

(** A supply for the sheet examples: the draw 0.5 every time. *)
Definition halves (k : nat) : F64.number := dec 5 (-1).

Definition freshState : Service.State :=
  {| Service.stats := Service.initialStats; Service.cursor := 0 |}.

(** The three rows of the latching scenario: R1 defines the bounds
    [0, 10], R2 defines none, R3 redefines the upper bound to 15.  Each has
    a measured value in column E. *)
Definition rowR1 : gmap nat Service.Cell :=
  rowOf [(3, numberCell 10 0); (4, numberCell 0 0); (5, numberCell 5 0)]%nat.
Definition rowR2 : gmap nat Service.Cell :=
  rowOf [(5, numberCell 7 0)]%nat.
Definition rowR3 : gmap nat Service.Cell :=
  rowOf [(3, numberCell 15 0); (5, numberCell 12 0)]%nat.

Definition noWindow : Service.Latch :=
  {| Service.currentMax := None; Service.currentMin := None |}.
Definition window (lower upper : Z) : Service.Latch :=
  {| Service.currentMax := Some (dec upper 0); Service.currentMin := Some (dec lower 0) |}.

(** A workbook with an empty sheet and a sheet holding the three rows of
    the latching scenario around an absent row. *)
Definition sampleWorkbook : list (list (option (gmap nat Service.Cell))) :=
  [[]; [Some rowR1; None; Some rowR2; Some rowR3]].

(* ===================================================================== *)
(** * 9. Properties of the effects                                        *)
(* ===================================================================== *)

Section Effects.
Context {S : Type}.

Lemma total_ret {X} (x : X) : total (S := S) (ret x).
Proof. intros s. eexists _, _. reflexivity. Qed.

Lemma total_modify (f : S -> S) : total (modify f).
Proof. intros s. eexists _, _. reflexivity. Qed.

Lemma total_bind {X Y} (m : M S X) (k : X -> M S Y) :
  total m -> (forall x, total (k x)) -> total (bind m k).
Proof.
  intros Hm Hk s. unfold bind.
  destruct (Hm s) as (x & s' & ->). apply Hk.
Qed.

Lemma total_foldM {X Y} (f : Y -> X -> M S Y) (xs : list X) :
  (forall a x, total (f a x)) -> forall a, total (foldM f a xs).
Proof.
  intros Hf. induction xs as [|x xs IH]; intros a; simpl.
  - apply total_ret.
  - apply total_bind; [apply Hf | exact IH].
Qed.

Lemma bind_Ok {X Y} (m : M S X) (k : X -> M S Y) s y s'' :
  bind m k s = Ok (y, s'') ->
  exists x s', m s = Ok (x, s') /\ k x s' = Ok (y, s'').
Proof.
  unfold bind. destruct (m s) as [[x s']|e]; [|discriminate].
  intros H. eauto.
Qed.
End Effects.

Create HintDb total.
#[global] Hint Resolve total_ret total_modify : total.

(* ===================================================================== *)
(** * 10. The out-of-spec generator                                       *)
(* ===================================================================== *)

Section OutSpecFacts.
Context {A : Arith} {St : Type} (random : St -> A * St).
Variables (originalValue min max : A) (precision : Z) (isAngle : bool).

Let loop := retryLoop random originalValue min max precision isAngle.
Let draw := drawCandidate random originalValue precision isAngle.
Let ok := accepts originalValue min max.

(** A pass of the loop draws exactly once. *)
Lemma drawCandidate_state s c s' :
  draw s = Ok (c, s') -> s' = snd (random s).
Proof.
  unfold draw, drawCandidate, bind, Math_random, roundTo, ret, throw.
  destruct (random s) as [r s1]; simpl.
  destruct (negb isAngle); [|congruence].
  destruct (_ && _); congruence.
Qed.

(** The loop leaves either with the original value or with a candidate
    that passed the test at the count it reports. *)
Lemma retryLoop_outcome fuel : forall n s o s',
  loop fuel n s = Ok (o, s') ->
  (newValue o = originalValue /\ attempts o = Nat.max n (Nat.min (n + fuel) 50))
  \/ (ok (attempts o) (newValue o) = true /\ attempts o < 50)%nat.
Proof.
  induction fuel as [|fuel IH]; intros n s o s'; simpl.
  - unfold ret. intros [= <- <-]. left. simpl. split; [reflexivity | lia].
  - destruct (Nat.ltb_spec n 50) as [Hlt|Hge].
    + intros H. apply bind_Ok in H as (c & s1 & Hc & H).
      fold ok in H. destruct (ok n c) eqn:Hok.
      * unfold ret in H. injection H as <- <-. right. simpl. auto.
      * apply IH in H as [[H1 H2]|H]; [left|right; exact H].
        split; [exact H1 | lia].
    + unfold ret. intros [= <- <-]. left. simpl. split; [reflexivity | lia].
Qed.

(** When every attempt from the count [n] on is rejected the loop runs to
    the bound and keeps the original value. *)
Lemma retryLoop_rejected s0 fuel : forall n,
  (forall i, n <= i < 50 ->
     exists c s1, draw (afterDraws random i s0) = Ok (c, s1) /\ ok i c = false)%nat ->
  (n <= 50)%nat ->
  loop fuel n (afterDraws random n s0)
  = Ok ({| newValue := originalValue; attempts := Nat.min (n + fuel) 50 |},
        afterDraws random (Nat.min (n + fuel) 50) s0).
Proof.
  induction fuel as [|fuel IH]; intros n Hrej Hle; simpl.
  - unfold ret. replace (Nat.min (n + 0) 50) with n by lia. reflexivity.
  - destruct (Nat.ltb_spec n 50) as [Hlt|Hge].
    + destruct (Hrej n) as (c & s1 & Hc & Hno); [lia|].
      unfold bind. fold draw. rewrite Hc. fold ok. rewrite Hno.
      apply drawCandidate_state in Hc. subst s1.
      change (snd (random (afterDraws random n s0)))
        with (afterDraws random (Datatypes.S n) s0).
      rewrite IH; [|intros i Hi; apply Hrej; lia|lia].
      replace (Nat.min (Datatypes.S n + fuel) 50)
        with (Nat.min (n + Datatypes.S fuel) 50) by lia.
      reflexivity.
    + unfold ret. replace (Nat.min (n + Datatypes.S fuel) 50) with n by lia.
      reflexivity.
Qed.
End OutSpecFacts.

(** The helpers never throw for a precision [toFixed] accepts. *)
Section Totality.
Context {A : Arith} {St : Type} (random : St -> A * St).

Lemma total_Math_random : total (Math_random random).
Proof. intros s. unfold Math_random. destruct (random s). eauto. Qed.

Lemma total_roundTo (precision : Z) (x : A) :
  0 <= precision <= 100 -> total (S := St) (roundTo precision x).
Proof.
  intros Hp. unfold roundTo.
  replace ((0 <=? precision) && (precision <=? 100)) with true
    by (symmetry; apply andb_true_intro; split; apply Z.leb_le; lia).
  apply total_ret.
Qed.

Lemma total_randomizeInSpec (min max : A) (precision : Z) :
  0 <= precision <= 100 -> total (randomizeInSpec random min max precision).
Proof.
  intros Hp. unfold randomizeInSpec.
  destruct (nle _ _); [apply total_ret|].
  destruct (nle _ _); (apply total_bind; [apply total_Math_random|]);
    intros r; apply total_roundTo; exact Hp.
Qed.

Lemma total_drawCandidate (originalValue : A) (precision : Z) (isAngle : bool) :
  0 <= precision <= 100 ->
  total (drawCandidate random originalValue precision isAngle).
Proof.
  intros Hp. unfold drawCandidate.
  apply total_bind; [apply total_Math_random|]. intros r.
  destruct (negb isAngle); [apply total_roundTo; exact Hp | apply total_ret].
Qed.

Lemma total_retryLoop (originalValue min max : A) (precision : Z) (isAngle : bool) :
  0 <= precision <= 100 ->
  forall fuel n, total (retryLoop random originalValue min max precision isAngle fuel n).
Proof.
  intros Hp. induction fuel as [|fuel IH]; intros n; simpl.
  - apply total_ret.
  - destruct (n <? 50)%nat; [|apply total_ret].
    apply total_bind; [apply total_drawCandidate; exact Hp|].
    intros c. destruct (accepts _ _ _ _ _); [apply total_ret | apply IH].
Qed.

Lemma total_randomizeOutSpec (originalValue min max : A) (precision : Z) (isAngle : bool) :
  0 <= precision <= 100 ->
  total (randomizeOutSpec random originalValue min max precision isAngle).
Proof.
  intros Hp. unfold randomizeOutSpec, randomizeOutSpecLoop.
  apply total_bind; [apply total_retryLoop; exact Hp|].
  intros o. apply total_ret.
Qed.
End Totality.


(** C2.  Whenever [randomizeOutSpec] returns a value different from the
    original, that value is outside the window (above the upper bound or
    below the lower bound); and when the loop took it at an attempt count of
    at most 20, it is on the side of the window the original is on. *)
Theorem randomizeOutSpec_stays_out
    {A : Arith} {St : Type} (random : St -> A * St)
    (originalValue min max : A) (precision : Z) (isAngle : bool)
    (s : St) (v : A) (s' : St) :
  randomizeOutSpec random originalValue min max precision isAngle s = Ok (v, s') ->
  v <> originalValue ->
  (nlt max v = true \/ nlt v min = true)
  /\ exists o,
       randomizeOutSpecLoop random originalValue min max precision isAngle s = Ok (o, s')
       /\ newValue o = v
       /\ ((attempts o <= 20)%nat ->
           (nlt max originalValue = true /\ nlt max v = true)
           \/ (nlt originalValue min = true /\ nlt v min = true)).
Proof.
  unfold randomizeOutSpec. intros H Hne.
  apply bind_Ok in H as (o & s1 & Hloop & H).
  unfold ret in H. injection H as <- <-.
  pose proof Hloop as Hacc. unfold randomizeOutSpecLoop in Hacc.
  apply retryLoop_outcome in Hacc as [[Hsame _]|[Hacc _]]; [contradiction|].
  unfold accepts, isStillOut, directionPreserved in Hacc.
  apply andb_prop in Hacc as [Hacc _].
  apply andb_prop in Hacc as [Hout Hdir].
  split.
  - apply orb_prop in Hout. exact Hout.
  - exists o. split; [exact Hloop|]. split; [reflexivity|].
    intros Hle. apply orb_prop in Hdir as [Hdir|Hlate].
    + apply orb_prop in Hdir as [Hdir|Hdir];
        apply andb_prop in Hdir; [left|right]; exact Hdir.
    + apply Nat.ltb_lt in Hlate. lia.
Qed.

(** The value 16.00 against the window [10, 15] at precision 2, the draw
    0.9: the first attempt gives 16.03, above the window as 16.00 is. *)
Lemma randomizeOutSpec_stays_out_witness :
  randomizeOutSpec (A := Binary64) (constantDraw (dec 9 (-1)))
    (dec 16 0) (dec 10 0) (dec 15 0) 2 false 0%nat = Ok (dec 1603 (-2), 1%nat)
  /\ F64.ltb (dec 15 0) (dec 1603 (-2)) = true.
Proof.
  assert (H : randomizeOutSpec (A := Binary64) (constantDraw (dec 9 (-1)))
                (dec 16 0) (dec 10 0) (dec 15 0) 2 false 0%nat
              = Ok (dec 1603 (-2), 1%nat)) by (vm_compute; reflexivity).
  assert (Hne : dec 1603 (-2) <> dec 16 0) by (vm_compute; discriminate).
  split; [exact H|].
  destruct (randomizeOutSpec_stays_out (A := Binary64) _ _ _ _ _ _ _ _ _ H Hne)
    as [[Hup|Hlow] _].
  - exact Hup.
  - vm_compute in Hlow. discriminate.
Defined.

(** C6.  If each of the 50 attempts of [randomizeOutSpec] computes a
    candidate that the loop rejects, the function returns the original
    value, unchanged, and does not throw. *)
Theorem randomizeOutSpec_exhausted
    {A : Arith} {St : Type} (random : St -> A * St)
    (originalValue min max : A) (precision : Z) (isAngle : bool) (s : St) :
  (forall i, (i < 50)%nat ->
     exists c s1,
       drawCandidate random originalValue precision isAngle (afterDraws random i s)
         = Ok (c, s1)
       /\ accepts originalValue min max i c = false) ->
  randomizeOutSpec random originalValue min max precision isAngle s
  = Ok (originalValue, afterDraws random 50 s).
Proof.
  intros Hrej. unfold randomizeOutSpec, randomizeOutSpecLoop, bind.
  change s with (afterDraws random 0 s) at 1.
  rewrite (retryLoop_rejected random originalValue min max precision isAngle s 50 0);
    [reflexivity | intros i Hi; apply Hrej; lia | lia].
Qed.

(** The value 12.00 inside the window [10, 15]: every candidate stays
    inside, all 50 attempts are rejected and 12.00 comes back. *)
Lemma randomizeOutSpec_exhausted_witness :
  randomizeOutSpec (A := Binary64) (constantDraw (dec 5 (-1)))
    (dec 12 0) (dec 10 0) (dec 15 0) 2 false 0%nat = Ok (dec 12 0, 50%nat).
Proof.
  apply (randomizeOutSpec_exhausted (A := Binary64) (constantDraw (dec 5 (-1)))
           (dec 12 0) (dec 10 0) (dec 15 0) 2 false 0%nat).
  intros i Hi.
  assert (Hc : forall k,
             drawCandidate (A := Binary64) (constantDraw (dec 5 (-1)))
               (dec 12 0) 2 false k = Ok (dec 1201 (-2), Datatypes.S k))
    by (intros k; vm_compute; reflexivity).
  exists (dec 1201 (-2)), (Datatypes.S (afterDraws (constantDraw (dec 5 (-1))) i 0%nat)).
  split; [apply Hc|].
  do 50 (destruct i as [|i]; [vm_compute; reflexivity|]).
  lia.
Defined.

(* ===================================================================== *)
(** * 11. The in-spec generator                                           *)
(* ===================================================================== *)

(** The window property of the generator is proved in section 25, on the
    rounding of binary64. *)


(** On windows whose bounds have two decimals the binary64 generator stays
    inside, here for the window [10.00, 15.00] and four draws. *)
Example randomizeInSpec_binary64_samples :
  map (fun r => randomizeInSpec (A := Binary64) (constantDraw r)
                  (dec 10 0) (dec 15 0) 2 0%nat)
      [dec 0 0; dec 5 (-1); dec 37 (-2); dec 9999999 (-7)]
  = [Ok (dec 1025 (-2), 1%nat); Ok (dec 125 (-1), 1%nat);
     Ok (dec 1191 (-2), 1%nat); Ok (dec 1475 (-2), 1%nat)].
Proof. vm_compute. reflexivity. Qed.

(* ===================================================================== *)
(** * 12. The cell rewriter                                               *)
(* ===================================================================== *)

Import Service.

Section StringFacts.

Lemma space_not_digit c : isSpace c = true -> isDigit c = false.
Proof.
  unfold isSpace, isDigit. intros H.
  rewrite !orb_true_iff, !andb_true_iff, !N.leb_le, !N.eqb_eq in H.
  apply andb_false_iff. rewrite !N.leb_gt. lia.
Qed.

Lemma space_not_minus c : isSpace c = true -> (c =? MINUS)%N = false.
Proof.
  unfold isSpace, MINUS. intros H.
  rewrite !orb_true_iff, !andb_true_iff, !N.leb_le, !N.eqb_eq in H.
  apply N.eqb_neq. lia.
Qed.

Lemma dropWhile_all p s : Forall (fun c => p c = true) s -> dropWhile p s = [].
Proof. induction 1 as [|c s Hc _ IH]; simpl; [reflexivity|]. rewrite Hc. exact IH. Qed.

Lemma trim_whitespace s : whitespaceOnly s -> trim s = [].
Proof.
  intros H. unfold trim, trimStart, trimEnd.
  rewrite (dropWhile_all _ _ H). reflexivity.
Qed.

(** None of the three number patterns matches at a white-space character. *)
Lemma tokens_reject_space c r :
  isSpace c = true ->
  dmsMatch (c :: r) = None /\ linearToken (c :: r) = None /\ angleToken (c :: r) = None.
Proof.
  intros H. pose proof (space_not_digit c H) as Hd.
  pose proof (space_not_minus c H) as Hm.
  unfold dmsMatch, linearToken, angleToken, optionalMinus.
  rewrite Hm. simpl. rewrite Hd. auto.
Qed.

Lemma testPattern_whitespace tok s :
  tok [] = None -> (forall c r, isSpace c = true -> tok (c :: r) = None) ->
  whitespaceOnly s -> testPattern tok s = false.
Proof.
  intros Hnil Htok. induction 1 as [|c s Hc _ IH]; simpl.
  - rewrite Hnil. reflexivity.
  - rewrite (Htok c s Hc). exact IH.
Qed.
End StringFacts.

(** C9.  A target cell whose value is absent, the empty string or a string
    of white space only is left as it is, and so is the whole state of the
    run: [processedCells] and the other counters do not change.  This holds
    in angular and in linear rows. *)
Theorem processTarget_blank (rand : nat -> F64.number) (isAngle : bool)
    (currentMin currentMax : F64.number) (row : gmap nat Cell) (colIndex : nat) (s : State) :
  getCellValue (getCell row colIndex) = None
  \/ (exists t, getCellValue (getCell row colIndex) = Some (PStr t)
                /\ whitespaceOnly t) ->
  processTarget rand isAngle currentMin currentMax row colIndex s = Ok (row, s).
Proof.
  intros H. unfold processTarget.
  destruct (follower (getCell row colIndex)); [reflexivity|].
  destruct H as [-> | (t & -> & Hws)]; [reflexivity|].
  destruct t as [|c t]; [reflexivity|].
  assert (Hc : isSpace c = true) by (inversion Hws; assumption).
  destruct (tokens_reject_space c t Hc) as (Hdms & Hlin & Hang).
  assert (Hnum : parseNumber (Some (PStr (c :: t))) = None).
  { unfold parseNumber. rewrite (trim_whitespace _ Hws). reflexivity. }
  assert (Hsingle : (if isAngle then parseAngleToDecimal (Some (PStr (c :: t)))
                     else parseNumber (Some (PStr (c :: t)))) = None).
  { destruct isAngle; [|exact Hnum].
    unfold parseAngleToDecimal. rewrite Hdms. exact Hnum. }
  rewrite Hsingle.
  assert (Htest : testPattern (if isAngle then angleToken else linearToken) (c :: t) = false).
  { apply testPattern_whitespace; [destruct isAngle; reflexivity| |exact Hws].
    intros c' r' Hc'. destruct (tokens_reject_space c' r' Hc') as (_ & ? & ?).
    destruct isAngle; assumption. }
  unfold caseB. rewrite Htest. reflexivity.
Qed.

(** A linear and an angular row whose column E holds two spaces. *)
Lemma processTarget_blank_witness :
  let row := rowOf [(2, textCell "Angulo"); (5, textCell "  ")]%nat in
  processTarget halves false (dec 0 0) (dec 10 0) row 5 freshState = Ok (row, freshState)
  /\ processTarget halves true (dec 0 0) (dec 10 0) row 5 freshState = Ok (row, freshState).
Proof.
  intros row.
  assert (H : exists t, getCellValue (getCell row 5) = Some (PStr t)
                        /\ whitespaceOnly t).
  { exists (lit "  "). split; [vm_compute; reflexivity|].
    repeat constructor. }
  split; apply processTarget_blank; right; exact H.
Defined.

(** C10.  When, after the latch, the upper bound or the lower bound is
    still null, the row callback leaves every cell of the row untouched and
    changes no counter but [totalRows]. *)
Theorem processRow_unresolved (rand : nat -> F64.number) (excelTargetCols : list nat)
    (l : Latch) (row : gmap nat Cell) (s : State) :
  currentMax (latch l (rowTolerances row)) = None
  \/ currentMin (latch l (rowTolerances row)) = None ->
  processRow rand excelTargetCols l row s
  = Ok ((row, latch l (rowTolerances row)),
        {| stats := incTotalRows (stats s); cursor := cursor s |}).
Proof.
  intros H. unfold processRow, bind, onStats, modify, ret.
  destruct H as [-> | H].
  - reflexivity.
  - rewrite H. destruct (currentMax _); reflexivity.
Qed.

(** A first row that defines only the upper tolerance. *)
Lemma processRow_unresolved_witness :
  let row := rowOf [(3, numberCell 10 0); (5, numberCell 52 (-1))]%nat in
  processRow halves [5; 6; 7]%nat {| currentMax := None; currentMin := None |} row freshState
  = Ok ((row, {| currentMax := Some (dec 10 0); currentMin := None |}),
        {| stats := incTotalRows initialStats; cursor := 0 |}).
Proof.
  intros row.
  apply (processRow_unresolved halves [5; 6; 7]%nat
           {| currentMax := None; currentMin := None |} row freshState).
  right. vm_compute. reflexivity.
Defined.

(* ===================================================================== *)
(** * 13. Rows, sheets and the workbook                                   *)
(* ===================================================================== *)

Section ProcessTotal.
Variable rand : nat -> F64.number.

Lemma total_onStats f : total (onStats f).
Proof. apply total_modify. Qed.

Lemma total_regenerate isAngle currentMin currentMax val :
  total (regenerate rand isAngle currentMin currentMax (if isAngle then 0 else 2) val).
Proof.
  assert (Hp : 0 <= (if isAngle then 0 else 2) <= 100) by (destruct isAngle; lia).
  unfold regenerate.
  destruct (_ || _).
  - apply total_bind; [apply total_randomizeOutSpec; exact Hp|]. intros v.
    apply total_bind; [apply total_onStats|]. intros _. apply total_ret.
  - apply total_bind; [apply total_randomizeInSpec; exact Hp|]. intros v.
    apply total_bind; [apply total_onStats|]. intros _. apply total_ret.
Qed.

Lemma total_rewriteToken isAngle currentMin currentMax m :
  total (rewriteToken rand isAngle currentMin currentMax (if isAngle then 0 else 2) m).
Proof.
  unfold rewriteToken.
  destruct (if isAngle then _ else _) as [val|]; [|apply total_ret].
  apply total_bind; [apply total_regenerate|]. intros v.
  destruct isAngle; [apply total_ret|].
  destruct (includes _ _); apply total_ret.
Qed.

Lemma total_replacePattern tok callback :
  (forall m, total (callback m)) ->
  forall fuel s, total (replacePattern fuel tok callback s).
Proof.
  intros Hcb. induction fuel as [|fuel IH]; intros s; simpl.
  - apply total_ret.
  - destruct (tok s) as [[m rest]|].
    + apply total_bind; [apply Hcb|]. intros [t b].
      apply total_bind; [apply IH|]. intros [u b']. apply total_ret.
    + destruct s as [|c r]; [apply total_ret|].
      apply total_bind; [apply IH|]. intros [u b']. apply total_ret.
Qed.

Lemma total_caseA isAngle currentMin currentMax (row : gmap nat Cell) colIndex v :
  total (caseA rand isAngle currentMin currentMax (if isAngle then 0 else 2) row colIndex v).
Proof.
  unfold caseA.
  apply total_bind; [apply total_regenerate|]. intros nv.
  apply total_bind; [apply total_onStats|]. intros _. apply total_ret.
Qed.

Lemma total_caseB isAngle currentMin currentMax (row : gmap nat Cell) colIndex s :
  total (caseB rand isAngle currentMin currentMax (if isAngle then 0 else 2) row colIndex s).
Proof.
  unfold caseB.
  destruct (testPattern _ _); [|apply total_ret].
  apply total_bind; [apply total_replacePattern, total_rewriteToken|].
  intros [newText [|]]; [|apply total_ret].
  apply total_bind; [apply total_onStats|]. intros _. apply total_ret.
Qed.

Lemma total_processTarget isAngle currentMin currentMax (row : gmap nat Cell) colIndex :
  total (processTarget rand isAngle currentMin currentMax row colIndex).
Proof.
  unfold processTarget.
  destruct (follower _); [apply total_ret|].
  destruct (getCellValue _) as [[x|s|b]|]; [| | |apply total_ret].
  - destruct (if isAngle then _ else _) as [v|]; [|apply total_ret].
    simpl. apply total_caseA.
  - destruct s as [|c s]; [apply total_ret|].
    destruct (if isAngle then _ else _) as [v|]; [|apply total_caseB].
    destruct (_ || _); [apply total_caseA | apply total_caseB].
  - destruct (if isAngle then _ else _) as [v|]; [|apply total_ret].
    simpl. destruct isAngle; apply total_ret.
Qed.

Lemma total_processRow cols l (row : gmap nat Cell) : total (processRow rand cols l row).
Proof.
  unfold processRow.
  apply total_bind; [apply total_onStats|]. intros _.
  destruct (currentMax _); [|apply total_ret].
  destruct (currentMin _); [|apply total_ret].
  apply total_bind; [|intros r; apply total_ret].
  apply total_foldM. intros a x. apply total_processTarget.
Qed.



End ProcessTotal.


Section Orchestrator.
Variable rand : nat -> F64.number.

Lemma filter_length_zero {X} (f : X -> bool) (l : list X) :
  length (List.filter f l) = 0%nat <-> Forall (fun x => f x = false) l.
Proof.
  induction l as [|x l IH]; cbn [List.filter].
  - split; [constructor | reflexivity].
  - destruct (f x) eqn:E; cbn [length].
    + split; [discriminate|]. intros H. inversion H. congruence.
    + rewrite IH. split; [constructor; assumption | intros H; inversion H; assumption].
Qed.

Lemma rowCount_zero (sheet : list (option (gmap nat Cell))) :
  rowCount sheet = 0%nat <-> ~ containsRow sheet.
Proof.
  unfold containsRow. induction sheet as [|r rest IH]; cbn [rowCount].
  - split; [intros _ (row & []) | reflexivity].
  - destruct (rowCount rest) as [|n] eqn:E.
    + destruct r as [row|].
      * split; [discriminate|]. intros H. exfalso. apply H. exists row. left. reflexivity.
      * split; [|reflexivity]. intros _ (row & [Hd|Hin]); [discriminate|].
        apply (proj1 IH); [reflexivity | exists row; exact Hin].
    + split; [discriminate|]. intros H. exfalso.
      assert (Hrest : ~ (exists row, In (Some row) rest))
        by (intros (row & Hin); apply H; exists row; right; exact Hin).
      apply IH in Hrest. discriminate.
Qed.


(** The row callback never throws; it passes on the latch updated by the
    tolerances the row defines, and that latch is the window its target
    cells are processed with. *)
Lemma processRow_latches (excelTargetCols : list nat) (l : Latch)
    (row : gmap nat Cell) (s : State) :
  exists row' l' s',
    processRow rand excelTargetCols l row s = Ok ((row', l'), s')
    /\ currentMax l' = match fst (rowTolerances row) with
                       | Some v => Some v
                       | None => currentMax l
                       end
    /\ currentMin l' = match snd (rowTolerances row) with
                       | Some v => Some v
                       | None => currentMin l
                       end
    /\ (forall cmax cmin,
          currentMax l' = Some cmax -> currentMin l' = Some cmin ->
          foldM (processTarget rand (rowIsAngle row) cmin cmax) row excelTargetCols
            {| stats := incTotalRows (stats s); cursor := cursor s |}
          = Ok (row', s')).
Proof.
  destruct (total_processRow rand excelTargetCols l row s) as ([row' l'] & s' & H).
  exists row', l', s'. split; [exact H|].
  unfold processRow, bind, onStats, modify in H. cbn beta iota in H.
  set (w := latch l (rowTolerances row)) in *.
  assert (Hl : l' = w /\
    (forall cmax cmin, currentMax w = Some cmax -> currentMin w = Some cmin ->
       foldM (processTarget rand (rowIsAngle row) cmin cmax) row excelTargetCols
         {| stats := incTotalRows (stats s); cursor := cursor s |} = Ok (row', s'))).
  { destruct (currentMax w) as [cmax|] eqn:Emax.
    - destruct (currentMin w) as [cmin|] eqn:Emin.
      + destruct (foldM _ _ _ _) as [[r1 s1]|e] eqn:Ef; [|discriminate].
        unfold ret in H. injection H as <- <- <-. split; [reflexivity|].
        intros cmax' cmin' [= <-] [= <-]. exact Ef.
      + unfold ret in H. injection H as <- <- <-. split; [reflexivity|].
        intros cmax' cmin' _ [=].
    - unfold ret in H. injection H as <- <- <-. split; [reflexivity|].
      intros cmax' cmin' [=]. }
  destruct Hl as [-> Hfold].
  split; [reflexivity|]. split; [reflexivity|]. exact Hfold.
Qed.

End Orchestrator.

Section Latching.
Variable rand : nat -> F64.number.

Lemma processRow_latch cols l (row : gmap nat Cell) s row' l' s' :
  processRow rand cols l row s = Ok ((row', l'), s') ->
  l' = latch l (rowTolerances row).
Proof.
  intros H.
  destruct (processRow_latches rand cols l row s) as (r & w & t & H' & Hmax & Hmin & _).
  rewrite H in H'. injection H' as <- <- <-.
  destruct l' as [a b]. cbn [currentMax currentMin] in *. unfold latch.
  rewrite Hmax, Hmin. reflexivity.
Qed.

Lemma eachRow_latch cols rows : forall l s,
  exists rows' s',
    eachRow rand cols l rows s = Ok ((rows', latchThrough l rows), s').
Proof.
  induction rows as [|r rest IH]; intros l s.
  - exists [], s. reflexivity.
  - cbn [eachRow latchThrough fold_left]. destruct r as [row|].
    + destruct (hasValues row) eqn:Hv.
      * unfold bind.
        destruct (total_processRow rand cols l row s) as ([row' l'] & s1 & H1).
        rewrite H1. pose proof (processRow_latch _ _ _ _ _ _ _ H1) as ->.
        destruct (IH (latch l (rowTolerances row)) s1) as (rest' & s2 & H2).
        fold (latchThrough (latch l (rowTolerances row)) rest).
        rewrite H2. eexists _, _. reflexivity.
      * unfold bind. destruct (IH l s) as (rest' & s2 & H2).
        fold (latchThrough l rest). rewrite H2. eexists _, _. reflexivity.
    + unfold bind. destruct (IH l s) as (rest' & s2 & H2).
      fold (latchThrough l rest). rewrite H2. eexists _, _. reflexivity.
Qed.

Lemma eachRow_app cols pre : forall post l s pre' l1 s1 post' l2 s2,
  eachRow rand cols l pre s = Ok ((pre', l1), s1) ->
  eachRow rand cols l1 post s1 = Ok ((post', l2), s2) ->
  eachRow rand cols l (pre ++ post) s = Ok ((pre' ++ post', l2), s2).
Proof.
  induction pre as [|r rest IH]; intros post l s pre' l1 s1 post' l2 s2 H1 H2.
  - cbn in H1. injection H1 as <- <- <-. exact H2.
  - cbn [eachRow app] in *. destruct r as [row|].
    + destruct (hasValues row).
      * unfold bind in *.
        destruct (processRow rand cols l row s) as [[[row' l'] t]|e]; [|discriminate].
        destruct (eachRow rand cols l' rest t) as [[[rest' l''] t']|e] eqn:E; [|discriminate].
        cbn in H1. injection H1 as <- <- <-.
        rewrite (IH post l' t rest' l'' t' post' l2 s2 E H2). reflexivity.
      * unfold bind in *.
        destruct (eachRow rand cols l rest s) as [[[rest' l''] t']|e] eqn:E; [|discriminate].
        cbn in H1. injection H1 as <- <- <-.
        rewrite (IH post l s rest' l'' t' post' l2 s2 E H2). reflexivity.
    + unfold bind in *.
      destruct (eachRow rand cols l rest s) as [[[rest' l''] t']|e] eqn:E; [|discriminate].
      cbn in H1. injection H1 as <- <- <-.
      rewrite (IH post l s rest' l'' t' post' l2 s2 E H2). reflexivity.
Qed.

Lemma latchThrough_app l pre post :
  latchThrough l (pre ++ post) = latchThrough (latchThrough l pre) post.
Proof. apply fold_left_app. Qed.

(** A visited row is processed with the latch of the rows before it, and
    hands on that latch updated by its own bounds. *)
Lemma eachRow_visits cols l pre (row : gmap nat Cell) post s :
  hasValues row = true ->
  exists pre' s1 row' s2 post' s3,
    eachRow rand cols l pre s = Ok ((pre', latchThrough l pre), s1)
    /\ processRow rand cols (latchThrough l pre) row s1
       = Ok ((row', latch (latchThrough l pre) (rowTolerances row)), s2)
    /\ eachRow rand cols (latch (latchThrough l pre) (rowTolerances row)) post s2
       = Ok ((post', latchThrough l (pre ++ Some row :: post)), s3)
    /\ eachRow rand cols l (pre ++ Some row :: post) s
       = Ok ((pre' ++ Some row' :: post', latchThrough l (pre ++ Some row :: post)), s3).
Proof.
  intros Hv.
  destruct (eachRow_latch cols pre l s) as (pre' & s1 & Hpre).
  destruct (total_processRow rand cols (latchThrough l pre) row s1) as ([row' l'] & s2 & Hrow).
  pose proof (processRow_latch _ _ _ _ _ _ _ Hrow) as ->.
  destruct (eachRow_latch cols post (latch (latchThrough l pre) (rowTolerances row)) s2)
    as (post' & s3 & Hpost).
  assert (El : latchThrough l (pre ++ Some row :: post)
               = latchThrough (latch (latchThrough l pre) (rowTolerances row)) post).
  { rewrite latchThrough_app. cbn [latchThrough fold_left]. rewrite Hv. reflexivity. }
  exists pre', s1, row', s2, post', s3. rewrite El.
  split; [exact Hpre|]. split; [exact Hrow|]. split; [exact Hpost|].
  apply (eachRow_app cols pre (Some row :: post) l s pre' (latchThrough l pre) s1).
  - exact Hpre.
  - cbn [eachRow]. rewrite Hv. unfold bind. rewrite Hrow, Hpost. reflexivity.
Qed.

(** C4.  The window is latched bound by bound across the rows
    [eachRow] visits.  A row hands on, for each bound, the value it
    decodes when that is not null and the previous one otherwise, and its
    target cells are processed with the latched bounds; in a sheet, a
    visited row is processed with the latch handed on by the rows before
    it.  For a sheet with the rows R1 (bounds [0, 10]), R2 (no bounds) and
    R3 (upper bound 15), [processSheet] processes the target cells of R1
    and of R2 with the window [0, 10] and those of R3 with [0, 15]. *)
Theorem tolerance_window_latched (excelTargetCols : list nat) :
  (forall (l : Latch) (row : gmap nat Cell) (s : State),
     exists row' l' s',
       processRow rand excelTargetCols l row s = Ok ((row', l'), s')
       /\ currentMax l' = match fst (rowTolerances row) with
                          | Some v => Some v
                          | None => currentMax l
                          end
       /\ currentMin l' = match snd (rowTolerances row) with
                          | Some v => Some v
                          | None => currentMin l
                          end
       /\ (forall cmax cmin,
             currentMax l' = Some cmax -> currentMin l' = Some cmin ->
             foldM (processTarget rand (rowIsAngle row) cmin cmax) row excelTargetCols
               (counted s)
             = Ok (row', s')))
  /\ (forall (l : Latch) (pre post : list (option (gmap nat Cell)))
             (row : gmap nat Cell) (s : State),
        hasValues row = true ->
        exists pre' s1 row' s2 post' s3,
          eachRow rand excelTargetCols l pre s = Ok ((pre', latchThrough l pre), s1)
          /\ processRow rand excelTargetCols (latchThrough l pre) row s1
             = Ok ((row', latch (latchThrough l pre) (rowTolerances row)), s2)
          /\ eachRow rand excelTargetCols
               (latch (latchThrough l pre) (rowTolerances row)) post s2
             = Ok ((post', latchThrough l (pre ++ Some row :: post)), s3)
          /\ eachRow rand excelTargetCols l (pre ++ Some row :: post) s
             = Ok ((pre' ++ Some row' :: post',
                    latchThrough l (pre ++ Some row :: post)), s3))
  /\ (forall (targetCols : list nat) (s0 : State),
        exists r1 s1 r2 s2 r3 s3,
          foldM (processTarget rand false (dec 0 0) (dec 10 0)) rowR1
            (map S targetCols) (counted s0) = Ok (r1, s1)
          /\ foldM (processTarget rand false (dec 0 0) (dec 10 0)) rowR2
               (map S targetCols) (counted s1) = Ok (r2, s2)
          /\ foldM (processTarget rand false (dec 0 0) (dec 15 0)) rowR3
               (map S targetCols) (counted s2) = Ok (r3, s3)
          /\ processSheet rand [Some rowR1; Some rowR2; Some rowR3] targetCols s0
             = Ok ([Some r1; Some r2; Some r3], s3)).
Proof.
  split; [intros l row s; apply processRow_latches|].
  split; [intros l pre post row s Hv; apply eachRow_visits; exact Hv|].
  intros targetCols s0.
  destruct (processRow_latches rand (map S targetCols) noWindow rowR1 s0)
    as (r1 & [m1 n1] & s1 & H1 & Hmax1 & Hmin1 & F1).
  destruct (processRow_latches rand (map S targetCols) (window 0 10) rowR2 s1)
    as (r2 & [m2 n2] & s2 & H2 & Hmax2 & Hmin2 & F2).
  destruct (processRow_latches rand (map S targetCols) (window 0 10) rowR3 s2)
    as (r3 & [m3 n3] & s3 & H3 & Hmax3 & Hmin3 & F3).
  cbn [currentMax currentMin] in *.
  vm_compute in Hmax1, Hmin1, Hmax2, Hmin2, Hmax3, Hmin3. subst.
  exists r1, s1, r2, s2, r3, s3.
  split; [exact (F1 _ _ eq_refl eq_refl)|].
  split; [exact (F2 _ _ eq_refl eq_refl)|].
  split; [exact (F3 _ _ eq_refl eq_refl)|].
  unfold processSheet, bind. cbn [eachRow].
  change (hasValues rowR1) with true. change (hasValues rowR2) with true.
  change (hasValues rowR3) with true. cbv iota. unfold bind.
  change {| currentMax := None; currentMin := None |} with noWindow.
  rewrite H1.
  match goal with
  | |- context [processRow rand ?c ?l rowR2 s1] =>
      change (processRow rand c l rowR2 s1) with (processRow rand c (window 0 10) rowR2 s1)
  end.
  rewrite H2.
  match goal with
  | |- context [processRow rand ?c ?l rowR3 s2] =>
      change (processRow rand c l rowR3 s2) with (processRow rand c (window 0 10) rowR3 s2)
  end.
  rewrite H3. reflexivity.
Qed.
End Latching.

(** The scenario run through [processSheet] on column E with the draw 0.5:
    the value 12 of R3 is classified against [0, 15], so the three
    measured values are all in spec. *)
Example latching_scenario_counts :
  match processSheet halves [Some rowR1; Some rowR2; Some rowR3] [4]%nat freshState with
  | Ok (_, s) => stats s
  | Throw _ => initialStats
  end
  = {| totalRows := 3; processedCells := 3; outOfSpecCount := 0; inSpecCount := 3 |}.
Proof. vm_compute. reflexivity. Qed.


(* ===================================================================== *)
(** * 14. The angle codec                                                 *)
(* ===================================================================== *)

(** C7.  For 30.995 degrees the fractional part is 59.7 arc-minutes: the
    minute field is rounded to 60 and the degree field stays 30. *)
Theorem formatAngle_minute_60 :
  exists d : F64.number,
    F64.ltb (dec 595 (-1))
      (F64.mul (F64.sub (F64.abs d) (F64.floor (F64.abs d))) (F64.ofZ 60)) = true
    /\ Conv.toString (F64.floor (F64.abs d)) = lit "30"
    /\ formatAngle d = lit "30" ++ [DEGREE] ++ lit "60'".
Proof. exists (dec 30995 (-3)). vm_compute. repeat split; reflexivity. Qed.

(** C3 on a negative angle: -30.25 degrees is 30 degrees and 15 minutes
    below zero and is encoded as such, but decoding the string gives
    +29.75, the minutes being subtracted from the degrees. *)
Theorem angle_round_trip_negative :
  formatAngle (dec (-3025) (-2)) = lit "-30" ++ [DEGREE] ++ lit "15'"
  /\ parseAngleToDecimal (Some (PStr (formatAngle (dec (-3025) (-2)))))
     = Some (dec 2975 (-2)).
Proof. vm_compute. split; reflexivity. Qed.

(** Between zero and minus one degree the sign is lost altogether. *)
Example angle_round_trip_negative_minutes :
  formatAngle (dec (-25) (-2)) = lit "-00" ++ [DEGREE] ++ lit "15'"
  /\ parseAngleToDecimal (Some (PStr (formatAngle (dec (-25) (-2)))))
     = Some (dec 25 (-2)).
Proof. vm_compute. split; reflexivity. Qed.

(** Without a sign the round trip holds: every angle of [deg] degrees and
    [m] minutes with [deg < 100] and [m < 60] is decoded to itself. *)
Example angle_round_trip_nonnegative :
  forallb (fun deg =>
    forallb (fun m =>
      let d := F64.add (F64.ofZ (Z.of_nat deg))
                 (F64.div (F64.ofZ (Z.of_nat m)) (F64.ofZ 60)) in
      match parseAngleToDecimal (Some (PStr (formatAngle d))) with
      | Some d' => F64.same d' d
      | None => false
      end) (List.seq 0 60)) (List.seq 0 100) = true.
Proof. vm_compute. reflexivity. Qed.

(* ===================================================================== *)
(** * 15. Cells holding a single numeric token                            *)
(* ===================================================================== *)

(** ** A decimal never reads as NaN *)

Section NotNaN.
Variables prec emax : Z.

Lemma shr_1_nonneg mrs : 0 <= shr_m mrs -> 0 <= shr_m (shr_1 mrs).
Proof.
  destruct mrs as [m r s]. simpl.
  destruct m as [|p|p]; [simpl; lia| |simpl; lia].
  destruct p; simpl; lia.
Qed.

Lemma iter_pos_shr_1_nonneg p : forall mrs,
  0 <= shr_m mrs -> 0 <= shr_m (SpecFloat.iter_pos shr_1 p mrs).
Proof.
  induction p as [p IH|p IH|]; intros mrs H; simpl.
  - apply IH, IH, shr_1_nonneg, H.
  - apply IH, IH, H.
  - apply shr_1_nonneg, H.
Qed.

Lemma shr_fexp_nonneg m e l :
  0 <= m -> 0 <= shr_m (fst (shr_fexp prec emax m e l)).
Proof.
  intros H. unfold shr_fexp, shr.
  assert (H0 : 0 <= shr_m (shr_record_of_loc m l))
    by (destruct l as [|[]]; exact H).
  destruct (_ - e) as [|p|p]; simpl; [exact H0 | | exact H0].
  apply iter_pos_shr_1_nonneg, H0.
Qed.

Lemma round_nearest_even_nonneg m l : 0 <= m -> 0 <= round_nearest_even m l.
Proof.
  intros H. unfold round_nearest_even.
  destruct l as [|[]]; [exact H | | exact H | lia].
  destruct (Z.even m); lia.
Qed.

Lemma binary_round_aux_not_nan sx mx ex lx :
  0 <= mx -> binary_round_aux prec emax sx mx ex lx <> S754_nan.
Proof.
  intros H. unfold binary_round_aux.
  pose proof (shr_fexp_nonneg mx ex lx H) as H1.
  destruct (shr_fexp prec emax mx ex lx) as [mrs' e']. simpl in H1.
  pose proof (shr_fexp_nonneg _ e' loc_Exact
                (round_nearest_even_nonneg _ (loc_of_shr_record mrs') H1)) as H2.
  destruct (shr_fexp prec emax _ e' loc_Exact) as [mrs'' e'']. simpl in H2.
  destruct (shr_m mrs'') as [|p|p]; [discriminate| |lia].
  destruct (e'' <=? emax - prec); discriminate.
Qed.

Lemma binary_round_not_nan sx mx ex : binary_round prec emax sx mx ex <> S754_nan.
Proof.
  unfold binary_round. destruct (shl_align _ _ _) as [mz ez].
  apply binary_round_aux_not_nan. lia.
Qed.
End NotNaN.

Lemma decimal_not_NaN neg m e : 0 <= m -> F64.isNaN (F64.decimal neg m e) = false.
Proof.
  intros Hm.
  assert (H : F64.decimal neg m e <> S754_nan).
  { unfold F64.decimal. destruct m as [|p|p]; [discriminate| |lia].
    destruct (0 <=? e) eqn:He.
    - apply Z.leb_le in He.
      assert (Hpos : 0 < Z.pos p * 10 ^ e) by (apply Z.mul_pos_pos; [lia | apply Z.pow_pos_nonneg; lia]).
      unfold binary_normalize.
      destruct (Z.pos p * 10 ^ e) as [|q|q]; [lia| |lia].
      destruct neg; simpl; apply binary_round_not_nan.
    - unfold SFdiv_core_binary.
      set (m' := match _ - _ - _ with Z0 => Z.pos p | Z.pos _ => _ | Z.neg _ => 0 end).
      assert (Hm' : 0 <= m').
      { unfold m'. destruct (_ - _ - _); [lia | apply Z.shiftl_nonneg; lia | lia]. }
      assert (Hd : 0 < 10 ^ (- e)) by (apply Z.pow_pos_nonneg; lia).
      pose proof (Z.div_pos m' (10 ^ (- e)) Hm' Hd) as Hq.
      unfold Z.div in Hq.
      destruct (Z.div_eucl m' (10 ^ (- e))) as [q r]. simpl in Hq.
      apply binary_round_aux_not_nan. exact Hq. }
  destruct (F64.decimal neg m e); try reflexivity. contradiction.
Qed.


(** ** The token as a string *)

Section TokenFacts.

Lemma digit_facts c :
  isDigit c = true ->
  isSpace c = false /\ (c =? MINUS)%N = false /\ (c =? PLUS)%N = false
  /\ (c =? COMMA)%N = false /\ (c =? DOT)%N = false /\ (73 =? c)%N = false.
Proof.
  unfold isDigit, isSpace, MINUS, PLUS, COMMA, DOT. intros H.
  apply andb_prop in H as [H1 H2]. apply N.leb_le in H1, H2.
  repeat split; rewrite ?orb_false_iff, ?andb_false_iff, ?N.leb_gt, ?N.eqb_neq; lia.
Qed.

Lemma minus_facts : isSpace MINUS = false /\ (MINUS =? COMMA)%N = false.
Proof. split; reflexivity. Qed.

Lemma separator_not_digit c : isDecimalSeparator c = true -> isDigit c = false.
Proof.
  unfold isDecimalSeparator, isDigit, DOT, COMMA. intros H.
  apply orb_prop in H as [H|H]; apply N.eqb_eq in H; subst; reflexivity.
Qed.

Lemma dropWhile_app_all p pre x :
  Forall (fun c => p c = true) pre -> dropWhile p (pre ++ x) = dropWhile p x.
Proof. induction 1 as [|c pre Hc _ IH]; simpl; [reflexivity|]. rewrite Hc. exact IH. Qed.

Lemma takeWhile_app_all p pre x :
  Forall (fun c => p c = true) pre -> takeWhile p (pre ++ x) = pre ++ takeWhile p x.
Proof. induction 1 as [|c pre Hc _ IH]; simpl; [reflexivity|]. rewrite Hc, IH. reflexivity. Qed.

Lemma takeWhile_holds p s : Forall (fun c => p c = true) (takeWhile p s).
Proof.
  induction s as [|c s IH]; simpl; [constructor|].
  destruct (p c) eqn:E; constructor; assumption.
Qed.

Lemma replaceFirst_app a b pre x :
  Forall (fun c => (c =? a)%N = false) pre ->
  replaceFirst a b (pre ++ x) = pre ++ replaceFirst a b x.
Proof. induction 1 as [|c pre Hc _ IH]; simpl; [reflexivity|]. rewrite Hc, IH. reflexivity. Qed.

Lemma readNat_nonneg ds : digitsOnly ds -> 0 <= readNat ds.
Proof.
  unfold readNat. intros H.
  assert (G : forall acc, 0 <= acc ->
            0 <= fold_left (fun acc c => 10 * acc + digitVal c) ds acc).
  { induction H as [|c ds Hc _ IH]; intros acc Hacc; simpl; [exact Hacc|].
    apply IH. unfold digitVal, isDigit in *.
    apply andb_prop in Hc as [H1 _]. apply N.leb_le in H1. lia. }
  apply G. lia.
Qed.

Lemma last_digit ds :
  ds <> [] -> digitsOnly ds -> exists init l, ds = init ++ [l] /\ isDigit l = true.
Proof.
  intros Hne H. destruct (exists_last Hne) as (init & l & ->).
  exists init, l. split; [reflexivity|].
  apply Forall_app in H as [_ H]. inversion H. assumption.
Qed.

(** A numeric token starts with a minus sign or a digit and ends with a
    digit. *)
Lemma numericToken_shape tok :
  numericToken tok ->
  exists sign d rest init l,
    (sign = [] \/ sign = [MINUS]) /\ isDigit d = true /\ tok = sign ++ d :: rest
    /\ tok = init ++ [l] /\ isDigit l = true.
Proof.
  intros (sign & ds & frac & -> & Hsign & Hne & Hds & Hfrac).
  destruct ds as [|d ds']; [contradiction|].
  assert (Hd : isDigit d = true) by (inversion Hds; assumption).
  exists sign, d, (ds' ++ frac).
  destruct Hfrac as [-> | (c & fs & -> & _ & Hfs & Hdfs)].
  - destruct (last_digit (d :: ds') Hne Hds) as (init & l & E & Hl).
    exists (sign ++ init), l.
    split; [exact Hsign|]. split; [exact Hd|]. split; [reflexivity|].
    split; [|exact Hl].
    rewrite app_nil_r, E, app_assoc. reflexivity.
  - destruct (last_digit fs Hfs Hdfs) as (init & l & E & Hl).
    exists (sign ++ (d :: ds') ++ c :: init), l. subst fs.
    split; [exact Hsign|]. split; [exact Hd|]. split; [reflexivity|].
    split; [|exact Hl].
    rewrite <- !app_assoc. reflexivity.
Qed.

Lemma trim_token ws1 tok ws2 :
  whitespaceOnly ws1 -> whitespaceOnly ws2 -> numericToken tok ->
  trim (ws1 ++ tok ++ ws2) = tok.
Proof.
  intros H1 H2 Htok.
  destruct (numericToken_shape tok Htok) as (sign & d & rest & init & l & Hs & Hd & E1 & E2 & Hl).
  unfold trim, trimStart, trimEnd.
  rewrite (dropWhile_app_all _ _ _ H1).
  assert (Hhead : dropWhile isSpace (tok ++ ws2) = tok ++ ws2).
  { rewrite E1. destruct (digit_facts d Hd) as (Hsp & _).
    destruct Hs as [-> | ->]; simpl; [rewrite Hsp|]; reflexivity. }
  rewrite Hhead, rev_app_distr.
  rewrite dropWhile_app_all by (apply Forall_rev; exact H2).
  rewrite E2, rev_app_distr. simpl.
  destruct (digit_facts l Hl) as (Hsp & _). rewrite Hsp.
  change (l :: rev init) with ([l] ++ rev init).
  rewrite rev_app_distr, rev_involutive. reflexivity.
Qed.

Lemma cleanNumber_token tok : numericToken tok -> cleanNumber tok = true.
Proof.
  intros (sign & ds & frac & -> & Hsign & Hne & Hds & Hfrac).
  unfold cleanNumber.
  assert (Hopt : snd (optionalMinus (sign ++ ds ++ frac)) = ds ++ frac).
  { destruct Hsign as [-> | ->]; [|reflexivity].
    destruct ds as [|d ds']; [contradiction|]. simpl.
    inversion Hds as [|? ? Hd _]; subst.
    destruct (digit_facts d Hd) as (_ & -> & _). reflexivity. }
  rewrite Hopt, (dropWhile_app_all _ _ _ Hds).
  destruct Hfrac as [-> | (c & fs & -> & Hc & Hfs & Hdfs)]; [reflexivity|].
  simpl. rewrite (separator_not_digit c Hc), Hc.
  rewrite <- (app_nil_r fs), (takeWhile_app_all _ _ _ Hdfs), (dropWhile_app_all _ _ _ Hdfs).
  simpl. rewrite app_nil_r. destruct fs; [contradiction | reflexivity].
Qed.

Lemma parseFloat_leading_digit ws sign d rest :
  whitespaceOnly ws -> (sign = [] \/ sign = [MINUS]) -> isDigit d = true ->
  F64.isNaN (Conv.parseFloat (ws ++ sign ++ d :: rest)) = false.
Proof.
  intros Hws Hsign Hd.
  destruct (digit_facts d Hd) as (Hsp & Hmin & Hplus & _ & _ & HI).
  unfold Conv.parseFloat, trimStart.
  rewrite (dropWhile_app_all _ _ _ Hws).
  assert (Hbody : forall neg,
    F64.isNaN
      (if startsWith (lit "Infinity") (d :: rest) then S754_infinity neg
       else
         let ip := takeWhile isDigit (d :: rest) in
         let r := dropWhile isDigit (d :: rest) in
         match r with
         | c :: r' =>
             if (c =? DOT)%N then
               let fp := takeWhile isDigit r' in
               match ip, fp with
               | [], [] => F64.NaN
               | _, _ =>
                   F64.decimal neg (readNat (ip ++ fp))
                     (Conv.readExponent (dropWhile isDigit r') - Z.of_nat (length fp))
               end
             else
               match ip with
               | [] => F64.NaN
               | _ => F64.decimal neg (readNat ip) (Conv.readExponent r)
               end
         | [] =>
             match ip with
             | [] => F64.NaN
             | _ => F64.decimal neg (readNat ip) 0
             end
         end) = false).
  { intros neg.
    assert (Hinf : startsWith (lit "Infinity") (d :: rest) = false)
      by (change (startsWith (lit "Infinity") (d :: rest))
            with ((73 =? d)%N && startsWith (lit "nfinity") rest);
          rewrite HI; reflexivity).
    rewrite Hinf. cbn [takeWhile dropWhile]. rewrite Hd. cbv zeta.
    assert (Hip : digitsOnly (d :: takeWhile isDigit rest))
      by (constructor; [exact Hd | apply takeWhile_holds]).
    destruct (dropWhile isDigit rest) as [|c r'].
    - apply decimal_not_NaN, readNat_nonneg, Hip.
    - destruct (c =? DOT)%N.
      + apply decimal_not_NaN, readNat_nonneg.
        apply Forall_app. split; [exact Hip | apply takeWhile_holds].
      + apply decimal_not_NaN, readNat_nonneg, Hip. }
  destruct Hsign as [-> | ->].
  - cbn [app dropWhile]. rewrite Hsp, Hmin, Hplus. apply Hbody.
  - cbn [app dropWhile]. destruct minus_facts as [-> _].
    change (MINUS =? MINUS)%N with true. cbv iota. apply Hbody.
Qed.

Lemma parseNumber_token ws1 tok ws2 :
  whitespaceOnly ws1 -> whitespaceOnly ws2 -> numericToken tok ->
  exists v, parseNumber (Some (PStr (ws1 ++ tok ++ ws2))) = Some v.
Proof.
  intros H1 H2 Htok.
  destruct (numericToken_shape tok Htok) as (sign & d & rest & init & l & Hs & Hd & E1 & _ & _).
  unfold parseNumber. rewrite (trim_token _ _ _ H1 H2 Htok).
  destruct (digit_facts d Hd) as (_ & _ & _ & Hcomma & _).
  assert (Hnorm : exists rest',
    replaceFirst COMMA DOT (ws1 ++ tok ++ ws2) = ws1 ++ sign ++ d :: rest').
  { exists (replaceFirst COMMA DOT (rest ++ ws2)).
    rewrite replaceFirst_app.
    - f_equal. rewrite E1, <- app_assoc. rewrite replaceFirst_app.
      + f_equal. simpl. rewrite Hcomma. reflexivity.
      + destruct Hs as [-> | ->]; repeat constructor.
    - eapply Forall_impl; [exact H1|]. intros c Hc. cbv beta in Hc.
      unfold isSpace, COMMA in *.
      rewrite !orb_true_iff, !andb_true_iff, !N.leb_le, !N.eqb_eq in Hc.
      apply N.eqb_neq. lia. }
  destruct Hnorm as (rest' & ->).
  rewrite (parseFloat_leading_digit ws1 sign d rest' H1 Hs Hd).
  rewrite E1. destruct Hs as [-> | ->]; simpl; eauto.
Qed.
End TokenFacts.


(** ** The single-value case *)

Section SingleValue.
Variable rand : nat -> F64.number.

(** C8.  In a linear row whose window is resolved, a target cell (not a
    merge follower) whose string value is a single numeric token, with
    optional white space before and after it, is handled by the
    single-value case: the cell receives a number and the number format
    [0.00]. *)
Theorem processTarget_numeric_token (currentMin currentMax : F64.number)
    (row : gmap nat Cell) (colIndex : nat) (s : State) (ws1 tok ws2 : jsstring) :
  follower (getCell row colIndex) = false ->
  getCellValue (getCell row colIndex) = Some (PStr (ws1 ++ tok ++ ws2)) ->
  whitespaceOnly ws1 -> whitespaceOnly ws2 -> numericToken tok ->
  exists singleVal newVal s',
    parseNumber (Some (PStr (ws1 ++ tok ++ ws2))) = Some singleVal
    /\ processTarget rand false currentMin currentMax row colIndex s
       = caseA rand false currentMin currentMax 2 row colIndex singleVal s
    /\ processTarget rand false currentMin currentMax row colIndex s
       = Ok (<[colIndex := {| value := VPrim (PNum newVal);
                              numFmt := Some (lit "0.00");
                              follower := false |}]> row, s').
Proof.
  intros Hfol Hval H1 H2 Htok.
  destruct (parseNumber_token ws1 tok ws2 H1 H2 Htok) as (v & Hv).
  pose proof (cleanNumber_token tok Htok) as Hclean.
  pose proof (trim_token ws1 tok ws2 H1 H2 Htok) as Htrim.
  assert (Hrun : processTarget rand false currentMin currentMax row colIndex s
                 = caseA rand false currentMin currentMax 2 row colIndex v s).
  { unfold processTarget. rewrite Hfol, Hval.
    destruct (ws1 ++ tok ++ ws2) as [|c r] eqn:E.
    - destruct (numericToken_shape tok Htok) as (sign & d & rest & _ & _ & _ & _ & Etok & _).
      rewrite Etok in E. apply app_eq_nil in E as [_ E].
      apply app_eq_nil in E as [E _]. apply app_eq_nil in E as [_ E]. discriminate.
    - rewrite Hv, Htrim, Hclean. reflexivity. }
  exists v.
  destruct (total_regenerate rand false currentMin currentMax v s) as (newVal & s1 & Hreg).
  exists newVal, {| stats := incProcessedCells (stats s1); cursor := cursor s1 |}.
  split; [exact Hv|]. split; [exact Hrun|].
  rewrite Hrun. unfold caseA, bind. rewrite Hreg.
  unfold onStats, modify, ret. rewrite Hfol. reflexivity.
Qed.
End SingleValue.

(** The cell [ 12,5 ] against the window [0, 10]. *)
Lemma processTarget_numeric_token_witness :
  let row := rowOf [(5, textCell " 12,5 ")]%nat in
  exists singleVal newVal s',
    parseNumber (Some (PStr (lit " 12,5 "))) = Some singleVal
    /\ processTarget halves false (dec 0 0) (dec 10 0) row 5 freshState
       = caseA halves false (dec 0 0) (dec 10 0) 2 row 5 singleVal freshState
    /\ processTarget halves false (dec 0 0) (dec 10 0) row 5 freshState
       = Ok (<[5%nat := {| value := VPrim (PNum newVal);
                           numFmt := Some (lit "0.00");
                           follower := false |}]> row, s').
Proof.
  intros row.
  apply (processTarget_numeric_token halves (dec 0 0) (dec 10 0) row 5 freshState
           (lit " ") (lit "12,5") (lit " ")).
  - reflexivity.
  - reflexivity.
  - repeat constructor.
  - repeat constructor.
  - exists [], (lit "12"), (lit ",5").
    split; [reflexivity|]. split; [left; reflexivity|].
    split; [discriminate|]. split; [repeat constructor|].
    right. exists COMMA, (lit "5").
    split; [reflexivity|]. split; [reflexivity|].
    split; [discriminate | repeat constructor].
Defined.
(* ===================================================================== *)
(** * 16. Further evaluations                                             *)
(* ===================================================================== *)

(** [toFixed] rejects a digit count above 100: the out-of-spec generator
    then throws on its first attempt. *)
Example randomizeOutSpec_RangeError :
  randomizeOutSpec (A := Binary64) (constantDraw (dec 5 (-1)))
    (dec 16 0) (dec 10 0) (dec 15 0) 101 false 0%nat = Throw RangeError.
Proof. vm_compute. reflexivity. Qed.

(** An angular row with the window 30°10' .. 30°50' and the in-spec cell
    30°30': at precision 0 the replacement is a whole number of degrees,
    here 31°00', which is above the window. *)
Example angular_in_spec_leaves_window :
  let row := rowOf [(2, textCell "Angulo"); (3, textCell "30 50"); (4, textCell "30 10");
                    (5, textCell "30 30")]%nat in
  match processRow halves [5]%nat noWindow row freshState with
  | Ok ((row', _), s) =>
      (option_map value (row' !! 5%nat), inSpecCount (stats s))
  | Throw _ => (None, 0%nat)
  end
  = (Some (VPrim (PStr (lit "31" ++ [DEGREE] ++ lit "00'"))), 1%nat).
Proof. vm_compute. reflexivity. Qed.

(** C8, as stated, fails for a token with a plus sign.  The cell [+12.5]
    holds a single token (sign, digits, separator, digits) that the
    numeric parser reads as 12.5, but it is not a clean number string: the
    cell goes through CASE B and is written back as the string [+12.51],
    its number format untouched. *)
Lemma plus_sign_is_rewritten_as_text :
  let row := rowOf [(5, textCell "+12.5")]%nat in
  parseNumber (Some (PStr (lit "+12.5"))) = Some (dec 125 (-1))
  /\ match processTarget halves false (dec 0 0) (dec 10 0) row 5 freshState with
     | Ok (row', _) =>
         row' !! 5%nat = Some {| value := VPrim (PStr (lit "+12.51"));
                                 numFmt := None; follower := false |}
     | Throw _ => False
     end.
Proof. vm_compute. split; reflexivity. Qed.

(** A workbook whose sheets have no row, and one with the three rows of
    the latching scenario. *)
Example processExcelBuffer_samples :
  processExcelBuffer halves [[]; [None; None]] defaultTargetCols 0 = Throw NoDataError
  /\ match processExcelBuffer halves [[]; [Some rowR1; None; Some rowR2; Some rowR3]]
             defaultTargetCols 0 with
     | Ok (_, t) => Some t
     | Throw _ => None
     end
     = Some {| totalRows := 3; processedCells := 3; outOfSpecCount := 0; inSpecCount := 3 |}.
Proof. vm_compute. split; reflexivity. Qed.

(* ===================================================================== *)
(** * 17. The out-of-spec generator: draws and sides                     *)
(* ===================================================================== *)

Section OutSpecMore.
Context {A : Arith} {St : Type} (random : St -> A * St).
Variables (originalValue min max : A) (precision : Z) (isAngle : bool).

Lemma afterDraws_succ (i : nat) (s : St) :
  afterDraws random (Datatypes.S i) s = afterDraws random i (snd (random s)).
Proof.
  unfold afterDraws. induction i as [|i IH]; [reflexivity|].
  simpl in *. rewrite IH. reflexivity.
Qed.

(** The loop draws once for every attempt it makes. *)
Lemma retryLoop_draws fuel : forall n s o s',
  retryLoop random originalValue min max precision isAngle fuel n s = Ok (o, s') ->
  (n <= 50)%nat ->
  (n <= attempts o <= 50)%nat
  /\ exists k, s' = afterDraws random k s
       /\ (n + k = Nat.min (n + fuel) (Nat.min 50 (Datatypes.S (attempts o))))%nat.
Proof.
  induction fuel as [|fuel IH]; intros n s o s' H Hn; simpl in H.
  - unfold ret in H. injection H as <- <-. cbn [attempts newValue].
    split; [lia|]. exists 0%nat. split; [reflexivity | lia].
  - destruct (Nat.ltb_spec n 50) as [Hlt|Hge].
    + apply bind_Ok in H as (c & s1 & Hc & H).
      apply drawCandidate_state in Hc. subst s1.
      destruct (accepts _ _ _ _ _).
      * unfold ret in H. injection H as <- <-. cbn [attempts newValue].
        split; [lia|]. exists 1%nat. split; [reflexivity | lia].
      * apply IH in H as [Hatt (k & -> & Hk)]; [|lia].
        split; [lia|]. exists (Datatypes.S k).
        split; [rewrite afterDraws_succ; reflexivity | lia].
    + unfold ret in H. injection H as <- <-. cbn [attempts newValue].
      split; [lia|]. exists 0%nat. split; [reflexivity | lia].
Qed.

(** X1.  The retry loop of [randomizeOutSpec] ends after at most 50
    attempts; it calls [Math.random()] once in every pass, so the supply
    is advanced by one draw more than the final attempt count, and by 50
    when the attempts are used up; in that case the original value is what
    the loop leaves in [newValue]. *)
Theorem randomizeOutSpec_draws (s : St) (o : Outcome A) (s' : St) :
  randomizeOutSpecLoop random originalValue min max precision isAngle s = Ok (o, s') ->
  (attempts o <= 50)%nat
  /\ s' = afterDraws random (Nat.min 50 (Datatypes.S (attempts o))) s
  /\ (attempts o = 50%nat -> newValue o = originalValue).
Proof.
  intros H. pose proof H as H'.
  apply retryLoop_draws in H as [Hatt (k & -> & Hk)]; [|lia].
  split; [lia|]. split; [f_equal; lia|].
  intros E. apply retryLoop_outcome in H' as [[Hv _]|[_ Hlt]]; [exact Hv | lia].
Qed.

Lemma randomizeOutSpecLoop_out (s : St) (o : Outcome A) (s' : St) :
  nlt max originalValue = true \/ nlt originalValue min = true ->
  randomizeOutSpecLoop random originalValue min max precision isAngle s = Ok (o, s') ->
  nlt max (newValue o) = true \/ nlt (newValue o) min = true.
Proof.
  intros Hout Hloop.
  apply retryLoop_outcome in Hloop as [[-> _]|[Hacc _]]; [exact Hout|].
  unfold accepts, isStillOut in Hacc.
  apply andb_prop in Hacc as [Hacc _]. apply andb_prop in Hacc as [Hacc _].
  apply orb_prop in Hacc. exact Hacc.
Qed.

(** X2.  For an original value outside the window, whatever
    [randomizeOutSpec] returns is outside the window as well: an accepted
    candidate passed the test, and the fallback is the original itself. *)
Theorem randomizeOutSpec_keeps_out (s : St) (v : A) (s' : St) :
  nlt max originalValue = true \/ nlt originalValue min = true ->
  randomizeOutSpec random originalValue min max precision isAngle s = Ok (v, s') ->
  nlt max v = true \/ nlt v min = true.
Proof.
  intros Hout H. unfold randomizeOutSpec in H.
  apply bind_Ok in H as (o & s1 & Hloop & H). unfold ret in H. injection H as <- <-.
  exact (randomizeOutSpecLoop_out s o s1 Hout Hloop).
Qed.
End OutSpecMore.

(** The value 16.00 against the window [10, 15] with the draw 0.9: the
    first attempt is accepted after one draw. *)
Lemma randomizeOutSpec_draws_witness :
  let o := {| newValue := dec 1603 (-2); attempts := 0 |} in
  (attempts o <= 50)%nat
  /\ 1%nat = afterDraws (constantDraw (dec 9 (-1))) (Nat.min 50 (Datatypes.S (attempts o))) 0%nat
  /\ (attempts o = 50%nat -> newValue o = dec 16 0).
Proof.
  intros o.
  apply (randomizeOutSpec_draws (A := Binary64) (constantDraw (dec 9 (-1)))
           (dec 16 0) (dec 10 0) (dec 15 0) 2 false 0%nat o 1%nat).
  vm_compute. reflexivity.
Defined.

(** The same run: 16.03 is above the window, as 16.00 is. *)
Lemma randomizeOutSpec_keeps_out_witness :
  F64.ltb (dec 15 0) (dec 1603 (-2)) = true \/ F64.ltb (dec 1603 (-2)) (dec 10 0) = true.
Proof.
  apply (randomizeOutSpec_keeps_out (A := Binary64) (constantDraw (dec 9 (-1)))
           (dec 16 0) (dec 10 0) (dec 15 0) 2 false 0%nat (dec 1603 (-2)) 1%nat).
  - left. vm_compute. reflexivity.
  - vm_compute. reflexivity.
Defined.




(* ===================================================================== *)
(** * 18. The in-spec generator on an empty window                       *)
(* ===================================================================== *)

Section ZeroWidth.
Context {St : Type} (random : St -> F64.number * St).

Lemma sub_diag (x : F64.number) :
  finiteNumber x -> exists sg, F64.sub x x = S754_zero sg.
Proof.
  destruct x as [sg| | |sg m e]; simpl; try contradiction; intros _.
  - destruct sg; eexists; reflexivity.
  - unfold F64.sub, SFsub. rewrite Z.sub_diag. exists false. reflexivity.
Qed.

(** X4.  For a window whose two bounds are the same finite number,
    [randomizeInSpec] returns that bound without drawing and without
    calling [toFixed], whatever the precision. *)
Theorem randomizeInSpec_zero_width (x : F64.number) (precision : Z) (s : St) :
  finiteNumber x ->
  randomizeInSpec (A := Binary64) random x x precision s = Ok (x, s).
Proof.
  intros Hx. unfold randomizeInSpec. cbn [nsub nle nlit Binary64].
  destruct (sub_diag x Hx) as (sg & ->).
  destruct sg; reflexivity.
Qed.
End ZeroWidth.

(** The window [10, 10]. *)
Lemma randomizeInSpec_zero_width_witness :
  randomizeInSpec (A := Binary64) (constantDraw (dec 5 (-1))) (dec 10 0) (dec 10 0) 2 0%nat
  = Ok (dec 10 0, 0%nat).
Proof.
  apply (randomizeInSpec_zero_width (constantDraw (dec 5 (-1))) (dec 10 0) 2 0%nat).
  vm_compute. exact I.
Defined.

(* ===================================================================== *)
(** * 19. The statistics of a run                                        *)
(* ===================================================================== *)

Section Counters.
Local Open Scope nat_scope.
Variable rand : nat -> F64.number.

Lemma tally_refl t : tally 0 0 t t.
Proof. unfold tally. lia. Qed.

Lemma tally_trans a b c d t t' t'' :
  tally a b t t' -> tally c d t' t'' -> tally (a + c) (b + d) t t''.
Proof. unfold tally. lia. Qed.

Lemma tally_weaken a b b' t t' : tally a b t t' -> b <= b' -> tally a b' t t'.
Proof. unfold tally. lia. Qed.

Lemma stats_afterDraws k s : stats (afterDraws (random rand) k s) = stats s.
Proof.
  unfold afterDraws. induction k as [|k IH]; [reflexivity|].
  simpl. exact IH.
Qed.

Lemma randomizeInSpec_stats min max precision s v s' :
  randomizeInSpec (A := Binary64) (random rand) min max precision s = Ok (v, s') ->
  stats s' = stats s.
Proof.
  unfold randomizeInSpec, bind, Math_random, roundTo, ret, throw, random.
  destruct (nle _ _); [intros [= _ <-]; reflexivity|].
  destruct (nle _ _); destruct (_ && _); intros [= _ <-]; reflexivity.
Qed.

Lemma randomizeOutSpec_stats orig min max precision isAngle s v s' :
  randomizeOutSpec (A := Binary64) (random rand) orig min max precision isAngle s
    = Ok (v, s') ->
  stats s' = stats s.
Proof.
  unfold randomizeOutSpec. intros H.
  apply bind_Ok in H as (o & s1 & Hloop & H). unfold ret in H. injection H as _ <-.
  apply retryLoop_draws in Hloop as [_ (k & -> & _)]; [|lia].
  apply stats_afterDraws.
Qed.

Lemma regenerate_stats isAngle cmin cmax precision val s v s' :
  regenerate rand isAngle cmin cmax precision val s = Ok (v, s') ->
  stats s' = (if F64.gtb val cmax || F64.ltb val cmin
              then incOutOfSpecCount else incInSpecCount) (stats s).
Proof.
  unfold regenerate. destruct (_ || _); intros H;
    apply bind_Ok in H as (nv & s1 & Hr & H);
    unfold bind, onStats, modify, ret in H; injection H as _ <-; simpl.
  - apply randomizeOutSpec_stats in Hr. rewrite Hr. reflexivity.
  - apply randomizeInSpec_stats in Hr. rewrite Hr. reflexivity.
Qed.

(** A decoded token counts once, as in spec or as out of spec. *)
Lemma regenerate_tally isAngle cmin cmax precision val s v s' :
  regenerate rand isAngle cmin cmax precision val s = Ok (v, s') ->
  totalRows (stats s') = totalRows (stats s)
  /\ processedCells (stats s') = processedCells (stats s)
  /\ inSpecCount (stats s') + outOfSpecCount (stats s')
     = Datatypes.S (inSpecCount (stats s) + outOfSpecCount (stats s))
  /\ inSpecCount (stats s) <= inSpecCount (stats s')
  /\ outOfSpecCount (stats s) <= outOfSpecCount (stats s').
Proof.
  intros H. apply regenerate_stats in H. rewrite H.
  destruct (_ || _); simpl; lia.
Qed.

Lemma rewriteToken_tally isAngle cmin cmax precision m s t b s' :
  rewriteToken rand isAngle cmin cmax precision m s = Ok ((t, b), s') ->
  tokensTally b (stats s) (stats s').
Proof.
  unfold rewriteToken. destruct (if isAngle then _ else _) as [val|].
  - intros H. apply bind_Ok in H as (nv & s1 & Hr & H).
    apply regenerate_tally in Hr.
    assert (s' = s1 /\ b = true) as [-> ->].
    { destruct isAngle; [|destruct (includes _ _)]; unfold ret in H;
        injection H as _ <- <-; auto. }
    unfold tokensTally. lia.
  - unfold ret. intros [= _ <- <-]. unfold tokensTally. split_and!; try lia; try discriminate.
Qed.

Lemma replacePattern_tally tok isAngle cmin cmax precision fuel : forall s0 s u b s',
  replacePattern fuel tok (rewriteToken rand isAngle cmin cmax precision) s0 s
    = Ok ((u, b), s') ->
  tokensTally b (stats s) (stats s').
Proof.
  induction fuel as [|fuel IH]; intros s0 s u b s' H; simpl in H.
  - unfold ret in H. injection H as _ <- <-. unfold tokensTally. split_and!; try lia; try discriminate.
  - destruct (tok s0) as [[m rest]|].
    + apply bind_Ok in H as ([t b1] & s1 & Hcb & H).
      apply bind_Ok in H as ([u' b2] & s2 & Hrec & H).
      unfold ret in H. injection H as _ <- <-.
      apply rewriteToken_tally in Hcb. apply IH in Hrec.
      unfold tokensTally in *. split_and!; try lia.
      intros Hb. apply orb_prop in Hb as [Hb|Hb]; [|]; intuition lia.
    + destruct s0 as [|c r].
      * unfold ret in H. injection H as _ <- <-. unfold tokensTally. split_and!; try lia; try discriminate.
      * apply bind_Ok in H as ([u' b2] & s2 & Hrec & H).
        unfold ret in H. injection H as _ <- <-. eapply IH, Hrec.
Qed.

Lemma caseA_tally isAngle cmin cmax precision (row : gmap nat Cell) col v s row' s' :
  caseA rand isAngle cmin cmax precision row col v s = Ok (row', s') ->
  tally 0 1 (stats s) (stats s')
  /\ processedCells (stats s') = Datatypes.S (processedCells (stats s)).
Proof.
  unfold caseA. intros H. apply bind_Ok in H as (nv & s1 & Hr & H).
  apply regenerate_tally in Hr.
  unfold bind, onStats, modify, ret in H. injection H as _ <-. simpl.
  unfold tally. simpl. lia.
Qed.

Lemma caseB_tally isAngle cmin cmax precision (row : gmap nat Cell) col str s row' s' :
  caseB rand isAngle cmin cmax precision row col str s = Ok (row', s') ->
  tally 0 1 (stats s) (stats s').
Proof.
  unfold caseB. destruct (testPattern _ _).
  - intros H. apply bind_Ok in H as ([u b] & s1 & Hrep & H).
    apply replacePattern_tally in Hrep. destruct b.
    + unfold bind, onStats, modify, ret in H. injection H as _ <-.
      unfold tokensTally, tally in *. simpl. intuition lia.
    + unfold ret in H. injection H as _ <-. unfold tokensTally, tally in *. intuition lia.
  - unfold ret. intros [= _ <-]. apply tally_weaken with 0; [apply tally_refl | lia].
Qed.

Lemma processTarget_tally isAngle cmin cmax (row : gmap nat Cell) col s row' s' :
  processTarget rand isAngle cmin cmax row col s = Ok (row', s') ->
  tally 0 1 (stats s) (stats s').
Proof.
  assert (Hret : forall r : gmap nat Cell, ret r s = Ok (row', s') -> tally 0 1 (stats s) (stats s')).
  { unfold ret. intros r [= _ <-]. apply tally_weaken with 0; [apply tally_refl | lia]. }
  unfold processTarget.
  destruct (follower _); [apply Hret|].
  destruct (getCellValue _) as [[x|str|b]|]; [| | |apply Hret].
  - destruct (if isAngle then _ else _) as [v|]; [|apply Hret].
    simpl. intros H. eapply caseA_tally, H.
  - destruct str as [|c str]; [apply Hret|].
    destruct (if isAngle then _ else _) as [v|]; [|apply caseB_tally].
    destruct (_ || _); [intros H; eapply caseA_tally, H | apply caseB_tally].
  - destruct (if isAngle then _ else _) as [v|]; [|apply Hret].
    simpl. destruct isAngle; apply Hret.
Qed.

Lemma foldM_tally isAngle cmin cmax cols : forall (row : gmap nat Cell) s row' s',
  foldM (processTarget rand isAngle cmin cmax) row cols s = Ok (row', s') ->
  tally 0 (length cols) (stats s) (stats s').
Proof.
  induction cols as [|c cols IH]; intros row s row' s' H; simpl in H.
  - unfold ret in H. injection H as _ <-. apply tally_refl.
  - apply bind_Ok in H as (r1 & s1 & H1 & H).
    apply processTarget_tally in H1. apply IH in H.
    exact (tally_trans _ _ _ _ _ _ _ H1 H).
Qed.

Lemma processRow_tally cols l (row : gmap nat Cell) s row' l' s' :
  processRow rand cols l row s = Ok ((row', l'), s') ->
  tally 1 (length cols) (stats s) (stats s').
Proof.
  unfold processRow. intros H.
  apply bind_Ok in H as ([] & s1 & H1 & H).
  unfold onStats, modify in H1. injection H1 as <-.
  assert (Hinc : tally 1 0 (stats s)
                   (stats {| stats := incTotalRows (stats s); cursor := cursor s |}))
    by (unfold tally; simpl; lia).
  destruct (currentMax _); [destruct (currentMin _)|].
  - apply bind_Ok in H as (r1 & s2 & Hf & H). unfold ret in H. injection H as _ _ <-.
    apply foldM_tally in Hf.
    exact (tally_trans _ _ _ _ _ _ _ Hinc Hf).
  - unfold ret in H. injection H as _ _ <-.
    apply tally_weaken with 0; [exact Hinc | lia].
  - unfold ret in H. injection H as _ _ <-.
    apply tally_weaken with 0; [exact Hinc | lia].
Qed.

Lemma eachRow_tally cols rows : forall l s rows' l' s',
  eachRow rand cols l rows s = Ok ((rows', l'), s') ->
  tally (visitedRows rows) (visitedRows rows * length cols) (stats s) (stats s').
Proof.
  unfold visitedRows.
  induction rows as [|[row|] rows IH]; intros l s rows' l' s' H;
    cbn [eachRow List.filter] in *.
  - unfold ret in H. injection H as _ _ <-. apply tally_refl.
  - destruct (hasValues row).
    + apply bind_Ok in H as ([r1 l1] & s1 & H1 & H).
      apply bind_Ok in H as ([rest l2] & s2 & H2 & H).
      unfold ret in H. injection H as _ _ <-.
      apply processRow_tally in H1. apply IH in H2.
      pose proof (tally_trans _ _ _ _ _ _ _ H1 H2) as Ht.
      cbn [length]. eapply tally_weaken; [exact Ht|]. lia.
    + apply bind_Ok in H as ([rest l2] & s2 & H2 & H).
      unfold ret in H. injection H as _ _ <-. eapply IH, H2.
  - apply bind_Ok in H as ([rest l2] & s2 & H2 & H).
    unfold ret in H. injection H as _ _ <-. eapply IH, H2.
Qed.

Lemma eachSheet_tally cols sheets : forall n s sheets' n' s',
  eachSheet rand cols n sheets s = Ok ((sheets', n'), s') ->
  let v := list_sum (map visitedRows sheets) in
  tally v (v * length cols) (stats s) (stats s').
Proof.
  induction sheets as [|sheet sheets IH]; intros n s sheets' n' s' H;
    cbn [eachSheet map list_sum] in *.
  - unfold ret in H. injection H as _ _ <-. apply tally_refl.
  - assert (Hempty : (0 <? rowCount sheet) = false -> visitedRows sheet = 0).
    { intros E. apply Nat.ltb_ge in E.
      assert (E0 : rowCount sheet = 0) by lia.
      apply rowCount_zero in E0. unfold visitedRows.
      apply filter_length_zero, List.Forall_forall. intros [row|] Hin; [|reflexivity].
      exfalso. apply E0. exists row. exact Hin. }
    destruct (0 <? rowCount sheet).
    + unfold processSheet in H.
      apply bind_Ok in H as (sh' & s1 & H1 & H).
      apply bind_Ok in H1 as ([rows' l'] & s1' & H1 & Hr).
      unfold ret in Hr. injection Hr as _ <-.
      apply bind_Ok in H as ([rest n2] & s2 & H2 & H).
      unfold ret in H. injection H as _ _ <-.
      apply eachRow_tally in H1. apply IH in H2. cbv zeta in H2.
      rewrite length_map in H1.
      pose proof (tally_trans _ _ _ _ _ _ _ H1 H2) as Ht.
      eapply tally_weaken; [exact Ht|].
      change (list_sum (visitedRows sheet :: map visitedRows sheets))
        with (visitedRows sheet + list_sum (map visitedRows sheets)).
      nia.
    + apply bind_Ok in H as ([rest n2] & s2 & H2 & H).
      unfold ret in H. injection H as _ _ <-.
      apply IH in H2. cbv zeta in H2. rewrite (Hempty eq_refl). exact H2.
Qed.

(** X5.  When [processExcelBuffer] returns, [totalRows] is the number of
    rows [eachRow] visits, the row objects that hold a value, summed over
    the sheets; and [processedCells] is at most that number times the
    number of target columns. *)
Theorem processExcelBuffer_totalRows
    (workbook workbook' : list (list (option (gmap nat Cell))))
    (targetCols : list nat) (start : nat) (t : ProcessingStats) :
  processExcelBuffer rand workbook targetCols start = Ok (workbook', t) ->
  totalRows t = list_sum (map visitedRows workbook)
  /\ processedCells t <= totalRows t * length targetCols.
Proof.
  unfold processExcelBuffer. intros H.
  destruct (eachSheet _ _ _ _ _) as [[[wb n] s]|e] eqn:E; [|discriminate].
  destruct (n =? 0); [discriminate|]. injection H as _ <-.
  apply eachSheet_tally in E. cbv zeta in E. unfold tally in E. simpl in E.
  lia.
Qed.

(** X6.  When [processExcelBuffer] returns, every processed cell has
    been counted at least once as in spec or as out of spec:
    [processedCells <= inSpecCount + outOfSpecCount]. *)
Theorem processExcelBuffer_classified
    (workbook workbook' : list (list (option (gmap nat Cell))))
    (targetCols : list nat) (start : nat) (t : ProcessingStats) :
  processExcelBuffer rand workbook targetCols start = Ok (workbook', t) ->
  processedCells t <= inSpecCount t + outOfSpecCount t.
Proof.
  unfold processExcelBuffer. intros H.
  destruct (eachSheet _ _ _ _ _) as [[[wb n] s]|e] eqn:E; [|discriminate].
  destruct (n =? 0); [discriminate|]. injection H as _ <-.
  apply eachSheet_tally in E. cbv zeta in E. unfold tally in E. simpl in E.
  lia.
Qed.
End Counters.

(** The sample workbook on the default columns E, F and G. *)
Lemma processExcelBuffer_totalRows_witness :
  match processExcelBuffer halves sampleWorkbook defaultTargetCols 0 with
  | Ok (_, t) =>
      (totalRows t = list_sum (map visitedRows sampleWorkbook)
       /\ processedCells t <= totalRows t * length defaultTargetCols)%nat
  | Throw _ => False
  end.
Proof.
  destruct (processExcelBuffer halves sampleWorkbook defaultTargetCols 0)
    as [[wb' t]|e] eqn:E.
  - exact (processExcelBuffer_totalRows halves sampleWorkbook wb' defaultTargetCols 0 t E).
  - vm_compute in E. discriminate.
Defined.

Lemma processExcelBuffer_classified_witness :
  match processExcelBuffer halves sampleWorkbook defaultTargetCols 0 with
  | Ok (_, t) => (processedCells t <= inSpecCount t + outOfSpecCount t)%nat
  | Throw _ => False
  end.
Proof.
  destruct (processExcelBuffer halves sampleWorkbook defaultTargetCols 0)
    as [[wb' t]|e] eqn:E.
  - exact (processExcelBuffer_classified halves sampleWorkbook wb' defaultTargetCols 0 t E).
  - vm_compute in E. discriminate.
Defined.

(* ===================================================================== *)
(** * 20. What a run leaves untouched, and what it writes                *)
(* ===================================================================== *)

Section Frame.
Local Open Scope nat_scope.
Variable rand : nat -> F64.number.

Lemma rowFrame_refl cols row : rowFrame cols row row.
Proof. intros c _ _. reflexivity. Qed.

Lemma rowFrame_trans cols r1 r2 r3 :
  rowFrame cols r1 r2 -> rowFrame cols r2 r3 -> rowFrame cols r1 r3.
Proof.
  intros H12 H23 c Hc Hf. rewrite <- (H12 c Hc Hf). apply H23; [exact Hc|].
  unfold getCell in *. rewrite (H12 c Hc Hf). exact Hf.
Qed.

(** The column callback changes at most the cell of its column, and only
    when that cell is not a merge follower. *)
Lemma processTarget_writes isAngle cmin cmax (row : gmap nat Cell) col s row' s' :
  processTarget rand isAngle cmin cmax row col s = Ok (row', s') ->
  row' = row
  \/ (follower (getCell row col) = false /\ exists cell', row' = <[col := cell']> row).
Proof.
  assert (Hret : forall st, ret row st = Ok (row', s') ->
            row' = row \/ (follower (getCell row col) = false
                           /\ exists cell', row' = <[col := cell']> row))
    by (unfold ret; intros st [= <- _]; left; reflexivity).
  unfold processTarget.
  destruct (follower (getCell row col)) eqn:Hfol; [apply Hret|].
  assert (HA : forall p v, caseA rand isAngle cmin cmax p row col v s = Ok (row', s') ->
            row' = row \/ (false = false /\ exists cell', row' = <[col := cell']> row)).
  { intros p v H. unfold caseA in H. apply bind_Ok in H as (nv & s1 & _ & H).
    unfold bind, onStats, modify, ret in H. injection H as <- _. right. eauto. }
  assert (HB : forall p str, caseB rand isAngle cmin cmax p row col str s = Ok (row', s') ->
            row' = row \/ (false = false /\ exists cell', row' = <[col := cell']> row)).
  { intros p str. unfold caseB. destruct (testPattern _ _); [|apply Hret].
    intros H. apply bind_Ok in H as ([u b] & s1 & _ & H). destruct b.
    - unfold bind, onStats, modify, ret in H. injection H as <- _. right. eauto.
    - unfold ret in H. injection H as <- _. left. reflexivity. }
  destruct (getCellValue _) as [[x|str|b]|]; [| | |apply Hret].
  - destruct (if isAngle then _ else _) as [v|]; [|apply Hret]. simpl. apply HA.
  - destruct str as [|c str]; [apply Hret|].
    destruct (if isAngle then _ else _) as [v|]; [|apply HB].
    destruct (_ || _); [apply HA | apply HB].
  - destruct (if isAngle then _ else _) as [v|]; [|apply Hret].
    simpl. destruct isAngle; apply Hret.
Qed.

Lemma processTarget_frame cols isAngle cmin cmax (row : gmap nat Cell) col s row' s' :
  In col cols ->
  processTarget rand isAngle cmin cmax row col s = Ok (row', s') ->
  rowFrame cols row row'.
Proof.
  intros Hin H. apply processTarget_writes in H as [-> | [Hfol (cell' & ->)]].
  - apply rowFrame_refl.
  - intros c Hc _. apply lookup_insert_ne. intros <-. contradiction.
Qed.

Lemma foldM_frame cols isAngle cmin cmax cs : forall (row : gmap nat Cell) s row' s',
  (forall c, In c cs -> In c cols) ->
  foldM (processTarget rand isAngle cmin cmax) row cs s = Ok (row', s') ->
  rowFrame cols row row'.
Proof.
  induction cs as [|c cs IH]; intros row s row' s' Hsub H; simpl in H.
  - unfold ret in H. injection H as <- _. apply rowFrame_refl.
  - apply bind_Ok in H as (r1 & s1 & H1 & H).
    apply (processTarget_frame cols) in H1; [|apply Hsub; left; reflexivity].
    apply IH in H; [|intros c' Hc'; apply Hsub; right; exact Hc'].
    exact (rowFrame_trans _ _ _ _ H1 H).
Qed.

Lemma processRow_frame cols l (row : gmap nat Cell) s row' l' s' :
  processRow rand cols l row s = Ok ((row', l'), s') -> rowFrame cols row row'.
Proof.
  unfold processRow. intros H. apply bind_Ok in H as ([] & s1 & _ & H).
  destruct (currentMax _); [destruct (currentMin _)|].
  - apply bind_Ok in H as (r1 & s2 & Hf & H). unfold ret in H. injection H as <- _ _.
    eapply foldM_frame; [|exact Hf]. auto.
  - unfold ret in H. injection H as <- _ _. apply rowFrame_refl.
  - unfold ret in H. injection H as <- _ _. apply rowFrame_refl.
Qed.

Lemma eachRow_frame cols rows : forall l s rows' l' s',
  eachRow rand cols l rows s = Ok ((rows', l'), s') -> sheetFrame cols rows rows'.
Proof.
  unfold sheetFrame.
  induction rows as [|[row|] rows IH]; intros l s rows' l' s' H; cbn [eachRow] in H.
  - unfold ret in H. injection H as <- _ _. constructor.
  - destruct (hasValues row).
    + apply bind_Ok in H as ([r1 l1] & s1 & H1 & H).
      apply bind_Ok in H as ([rest l2] & s2 & H2 & H).
      unfold ret in H. injection H as <- _ _.
      constructor; [eapply processRow_frame, H1 | eapply IH, H2].
    + apply bind_Ok in H as ([rest l2] & s2 & H2 & H).
      unfold ret in H. injection H as <- _ _.
      constructor; [apply rowFrame_refl | eapply IH, H2].
  - apply bind_Ok in H as ([rest l2] & s2 & H2 & H).
    unfold ret in H. injection H as <- _ _.
    constructor; [exact I | eapply IH, H2].
Qed.

Lemma sheetFrame_refl cols sheet : sheetFrame cols sheet sheet.
Proof.
  unfold sheetFrame. induction sheet as [|[row|] sheet IH]; constructor;
    try exact IH; [apply rowFrame_refl | exact I].
Qed.

Lemma eachSheet_frame cols sheets : forall n s sheets' n' s',
  eachSheet rand cols n sheets s = Ok ((sheets', n'), s') ->
  Forall2 (sheetFrame (map Datatypes.S cols)) sheets sheets'.
Proof.
  induction sheets as [|sheet sheets IH]; intros n s sheets' n' s' H; cbn [eachSheet] in H.
  - unfold ret in H. injection H as <- _ _. constructor.
  - destruct (0 <? rowCount sheet).
    + unfold processSheet in H.
      apply bind_Ok in H as (sh' & s1 & H1 & H).
      apply bind_Ok in H1 as ([rows' l'] & s1' & H1 & Hr).
      unfold ret in Hr. injection Hr as <- <-.
      apply bind_Ok in H as ([rest n2] & s2 & H2 & H).
      unfold ret in H. injection H as <- _ _.
      constructor; [eapply eachRow_frame, H1 | eapply IH, H2].
    + apply bind_Ok in H as ([rest n2] & s2 & H2 & H).
      unfold ret in H. injection H as <- _ _.
      constructor; [apply sheetFrame_refl | eapply IH, H2].
Qed.

(** X7.  [processExcelBuffer] keeps the shape of the workbook and
    changes nothing but target cells: a cell in a column that is not a
    target column, and that is not a merge follower, is in the result
    what it was in the input. *)
Theorem processExcelBuffer_frame (workbook workbook' : list (list (option (gmap nat Cell))))
    (targetCols : list nat) (start : nat) (t : ProcessingStats) :
  processExcelBuffer rand workbook targetCols start = Ok (workbook', t) ->
  Forall2 (sheetFrame (map Datatypes.S targetCols)) workbook workbook'.
Proof.
  unfold processExcelBuffer. intros H.
  destruct (eachSheet _ _ _ _ _) as [[[wb n] s]|e] eqn:E; [|discriminate].
  destruct (n =? 0); [discriminate|]. injection H as <- _.
  eapply eachSheet_frame, E.
Qed.

(** X8.  A linear target cell that holds a number other than NaN is
    always rewritten: the cell gets a number and the format [0.00],
    [processedCells] grows by one, and exactly one of [inSpecCount] and
    [outOfSpecCount] grows by one, according to the side of the window the
    old value is on; an out-of-spec value is replaced by an out-of-spec
    value. *)
Theorem processTarget_number (currentMin currentMax : F64.number)
    (row : gmap nat Cell) (colIndex : nat) (s : State) (x : F64.number) :
  follower (getCell row colIndex) = false ->
  getCellValue (getCell row colIndex) = Some (PNum x) ->
  F64.isNaN x = false ->
  exists newVal s',
    processTarget rand false currentMin currentMax row colIndex s
    = Ok (<[colIndex := {| value := VPrim (PNum newVal);
                           numFmt := Some (lit "0.00");
                           follower := false |}]> row, s')
    /\ processedCells (stats s') = Datatypes.S (processedCells (stats s))
    /\ totalRows (stats s') = totalRows (stats s)
    /\ if F64.gtb x currentMax || F64.ltb x currentMin
       then outOfSpecCount (stats s') = Datatypes.S (outOfSpecCount (stats s))
            /\ inSpecCount (stats s') = inSpecCount (stats s)
            /\ F64.gtb newVal currentMax || F64.ltb newVal currentMin = true
       else inSpecCount (stats s') = Datatypes.S (inSpecCount (stats s))
            /\ outOfSpecCount (stats s') = outOfSpecCount (stats s).
Proof.
  intros Hfol Hval Hnan.
  destruct (total_regenerate rand false currentMin currentMax x s) as (nv & s1 & Hreg).
  exists nv, {| stats := incProcessedCells (stats s1); cursor := cursor s1 |}.
  split.
  - unfold processTarget. rewrite Hfol, Hval. cbn [parseNumber]. rewrite Hnan.
    cbn [negb orb]. unfold caseA, bind. rewrite Hreg.
    unfold onStats, modify, ret. rewrite Hfol. reflexivity.
  - pose proof (regenerate_stats rand _ _ _ _ _ _ _ _ Hreg) as Hst.
    cbn [stats]. rewrite Hst.
    destruct (F64.gtb x currentMax || F64.ltb x currentMin) eqn:Hout.
    + cbn. split_and!; try reflexivity.
      unfold regenerate in Hreg. rewrite Hout in Hreg.
      apply bind_Ok in Hreg as (v & s2 & Hr & Hreg).
      unfold bind, onStats, modify, ret in Hreg. injection Hreg as <- _.
      apply orb_prop in Hout.
      unfold randomizeOutSpec in Hr.
      apply bind_Ok in Hr as (o & s3 & Hloop & Hr). unfold ret in Hr. injection Hr as <- _.
      apply (randomizeOutSpecLoop_out (A := Binary64)) in Hloop; [|exact Hout].
      apply orb_true_iff. exact Hloop.
    + cbn. split_and!; reflexivity.
Qed.
End Frame.

Lemma processExcelBuffer_frame_witness :
  match processExcelBuffer halves sampleWorkbook defaultTargetCols 0 with
  | Ok (workbook', _) =>
      Forall2 (sheetFrame (map Datatypes.S defaultTargetCols)) sampleWorkbook workbook'
  | Throw _ => False
  end.
Proof.
  destruct (processExcelBuffer halves sampleWorkbook defaultTargetCols 0)
    as [[wb' t]|e] eqn:E.
  - exact (processExcelBuffer_frame halves sampleWorkbook wb' defaultTargetCols 0 t E).
  - vm_compute in E. discriminate.
Defined.

(** The measured value 5 of the row R1 against the window [0, 10]. *)
Lemma processTarget_number_witness :
  exists newVal s',
    processTarget halves false (dec 0 0) (dec 10 0) rowR1 5 freshState
    = Ok (<[5%nat := {| value := VPrim (PNum newVal);
                        numFmt := Some (lit "0.00");
                        follower := false |}]> rowR1, s')
    /\ processedCells (stats s') = 1%nat.
Proof.
  destruct (processTarget_number halves (dec 0 0) (dec 10 0) rowR1 5 freshState (dec 5 0))
    as (newVal & s' & Hrun & Hcells & _).
  - vm_compute. reflexivity.
  - vm_compute. reflexivity.
  - vm_compute. reflexivity.
  - exists newVal, s'. split; [exact Hrun | exact Hcells].
Defined.

(* ===================================================================== *)
(** * 21. Text cells and the numeric parser                              *)
(* ===================================================================== *)

Section TextFacts.

Lemma replaceFirst_without a b s : without a s -> replaceFirst a b s = s.
Proof.
  intros H. rewrite <- (app_nil_r s) at 1. rewrite replaceFirst_app by exact H.
  simpl. apply app_nil_r.
Qed.


Lemma takeWhile_dropWhile p s : takeWhile p s ++ dropWhile p s = s.
Proof.
  induction s as [|c s IH]; simpl; [reflexivity|].
  destruct (p c); simpl; [rewrite IH|]; reflexivity.
Qed.

Lemma dropWhile_head p s c r : dropWhile p s = c :: r -> p c = false.
Proof.
  induction s as [|d s IH]; simpl; [discriminate|].
  destruct (p d) eqn:E; [exact IH|]. intros [= <- _]. exact E.
Qed.

Lemma dropWhile_snoc p l c :
  p c = false -> exists x, dropWhile p (l ++ [c]) = x ++ [c].
Proof.
  intros Hc. induction l as [|d l IH]; simpl.
  - rewrite Hc. exists []. reflexivity.
  - destruct (p d); [exact IH|]. exists (d :: l). reflexivity.
Qed.

(** [trim] removes white space at both ends and nothing else. *)
Lemma trim_decompose s :
  exists ws1 ws2, s = ws1 ++ trim s ++ ws2 /\ whitespaceOnly ws1 /\ whitespaceOnly ws2.
Proof.
  unfold trim, trimStart, trimEnd.
  exists (takeWhile isSpace s), (rev (takeWhile isSpace (rev (dropWhile isSpace s)))).
  split; [|split].
  - rewrite <- rev_app_distr, takeWhile_dropWhile, rev_involutive, takeWhile_dropWhile.
    reflexivity.
  - apply takeWhile_holds.
  - apply Forall_rev, takeWhile_holds.
Qed.

Lemma trim_head s c r : trim s = c :: r -> isSpace c = false.
Proof.
  unfold trim, trimStart, trimEnd.
  destruct (dropWhile isSpace s) as [|h u] eqn:E; [discriminate|].
  pose proof (dropWhile_head _ _ _ _ E) as Hh.
  simpl. destruct (dropWhile_snoc isSpace (rev u) h Hh) as (x & ->).
  rewrite rev_app_distr. simpl. intros [= <- _]. exact Hh.
Qed.

Lemma trim_cons c r : isSpace c = false -> exists r', trim (c :: r) = c :: r'.
Proof.
  intros Hc. unfold trim, trimStart, trimEnd. simpl. rewrite Hc. simpl.
  destruct (dropWhile_snoc isSpace (rev r) c Hc) as (x & ->).
  rewrite rev_app_distr. simpl. eauto.
Qed.

Lemma noDigits_app a b : noDigits (a ++ b) <-> noDigits a /\ noDigits b.
Proof. apply Forall_app. Qed.

Lemma takeWhile_noDigits s : noDigits s -> takeWhile isDigit s = [].
Proof. destruct 1 as [|c s Hc _]; simpl; [reflexivity|]. rewrite Hc. reflexivity. Qed.

Lemma dropWhile_noDigits s : noDigits s -> dropWhile isDigit s = s.
Proof. destruct 1 as [|c s Hc _]; simpl; [reflexivity|]. rewrite Hc. reflexivity. Qed.

Lemma optionalMinus_noDigits s : noDigits s -> noDigits (snd (optionalMinus s)).
Proof.
  intros H. unfold optionalMinus. destruct H as [|c s Hc Hs]; [constructor|].
  destruct (c =? MINUS)%N; simpl; [exact Hs | constructor; assumption].
Qed.

(** No number pattern matches at the head of a text without digits. *)
Lemma tokens_need_digits s :
  noDigits s -> linearToken s = None /\ angleToken s = None /\ dmsMatch s = None.
Proof.
  intros H. pose proof (optionalMinus_noDigits s H) as Hr.
  split; [|split].
  - unfold linearToken. destruct (optionalMinus s) as [sign r]. simpl in Hr.
    rewrite (takeWhile_noDigits r Hr). reflexivity.
  - unfold angleToken. destruct (optionalMinus s) as [sign r]. simpl in Hr.
    rewrite (takeWhile_noDigits r Hr). reflexivity.
  - unfold dmsMatch. destruct H as [|c r Hc Hs]; [reflexivity|].
    destruct (c =? MINUS)%N.
    + rewrite (takeWhile_noDigits r Hs). reflexivity.
    + simpl. rewrite Hc. reflexivity.
Qed.

Lemma testPattern_noDigits (isAngle : bool) s :
  noDigits s -> testPattern (if isAngle then angleToken else linearToken) s = false.
Proof.
  induction 1 as [|c s Hc Hs IH].
  - destruct isAngle; reflexivity.
  - assert (Hcs : noDigits (c :: s)) by (constructor; assumption).
    destruct (tokens_need_digits _ Hcs) as (Hl & Ha & _).
    cbn [testPattern]. destruct isAngle; [rewrite Ha | rewrite Hl]; exact IH.
Qed.

Lemma space_facts c :
  isSpace c = true ->
  isDigit c = false /\ (c =? MINUS)%N = false /\ (c =? PLUS)%N = false
  /\ (c =? COMMA)%N = false /\ (c =? DOT)%N = false /\ (73 =? c)%N = false.
Proof.
  unfold isSpace, isDigit, MINUS, PLUS, COMMA, DOT. intros H.
  rewrite !orb_true_iff, !andb_true_iff, !N.leb_le, !N.eqb_eq in H.
  repeat split; rewrite ?andb_false_iff, ?N.leb_gt, ?N.eqb_neq; lia.
Qed.

(** A lone minus sign among white space is not a number. *)
Lemma parseNumber_lone_minus ws1 sp :
  whitespaceOnly ws1 -> whitespaceOnly sp ->
  parseNumber (Some (PStr (ws1 ++ MINUS :: sp))) = None.
Proof.
  intros H1 H2. unfold parseNumber.
  destruct (trim _) as [|t0 tr]; [reflexivity|].
  rewrite replaceFirst_without.
  2:{ apply Forall_app. split.
      - eapply Forall_impl; [exact H1|]. intros x Hx. apply (space_facts x Hx).
      - constructor; [reflexivity|].
        eapply Forall_impl; [exact H2|]. intros x Hx. apply (space_facts x Hx). }
  assert (E : Conv.parseFloat (ws1 ++ MINUS :: sp) = F64.NaN); [|rewrite E; reflexivity].
  unfold Conv.parseFloat, trimStart. rewrite (dropWhile_app_all _ _ _ H1).
  cbn [dropWhile]. destruct minus_facts as [-> _].
  change (MINUS =? MINUS)%N with true. cbv iota.
  destruct H2 as [|d sp Hc Hsp]; [reflexivity|].
  destruct (space_facts d Hc) as (Hd & _ & _ & _ & Hdot & HI).
  change (startsWith (lit "Infinity") (d :: sp))
    with ((73 =? d)%N && startsWith (lit "nfinity") sp).
  rewrite HI. cbn [andb takeWhile dropWhile]. rewrite Hd. cbv zeta.
  rewrite Hdot. reflexivity.
Qed.

(** A text without digits that the clean-number pattern accepts is blank
    or a lone minus sign, and is not a number. *)
Lemma clean_noDigits_not_number s :
  noDigits s -> cleanNumber (trim s) = true -> parseNumber (Some (PStr s)) = None.
Proof.
  intros Hnd Hclean.
  destruct (trim_decompose s) as (ws1 & ws2 & Es & H1 & H2).
  assert (Hndt : noDigits (trim s)).
  { rewrite Es in Hnd. apply noDigits_app in Hnd as [_ Hnd].
    apply noDigits_app in Hnd as [Hnd _]. exact Hnd. }
  destruct (trim s) as [|c r] eqn:Et.
  - unfold parseNumber. rewrite Et. reflexivity.
  - pose proof (trim_head s c r Et) as Hc.
    unfold cleanNumber in Hclean.
    pose proof (optionalMinus_noDigits _ Hndt) as Hr.
    rewrite (dropWhile_noDigits _ Hr) in Hclean.
    assert (Hsp : forallb isSpace (snd (optionalMinus (c :: r))) = true).
    { destruct (snd (optionalMinus (c :: r))) as [|d r'] eqn:Eo; [reflexivity|].
      destruct (isDecimalSeparator d) eqn:Hd; [|exact Hclean].
      inversion Hr as [|? ? _ Hr']; subst.
      rewrite (takeWhile_noDigits _ Hr') in Hclean.
      cbn [forallb] in Hclean. apply andb_prop in Hclean as [Hsd _].
      unfold isDecimalSeparator in Hd. unfold isSpace in Hsd.
      apply orb_prop in Hd as [Hd|Hd]; apply N.eqb_eq in Hd; subst d; discriminate. }
    unfold optionalMinus in Hsp.
    destruct (c =? MINUS)%N eqn:Hm.
    + apply N.eqb_eq in Hm. subst c. simpl in Hsp.
      rewrite Es. 
      assert (Hall : whitespaceOnly (r ++ ws2)).
      { apply Forall_app. split; [|exact H2].
        apply Forall_forall. intros x Hx.
        apply forallb_forall with (x := x) in Hsp; [exact Hsp|].
        apply list_elem_of_In. exact Hx. }
      change ((MINUS :: r) ++ ws2) with (MINUS :: (r ++ ws2)).
      apply parseNumber_lone_minus; assumption.
    + simpl in Hsp. apply andb_prop in Hsp as [Hsp _]. congruence.
Qed.

Lemma parseNumber_visible c r :
  isSpace c = false ->
  parseNumber (Some (PStr (c :: r)))
  = (let num := Conv.parseFloat (replaceFirst COMMA DOT (c :: r)) in
     if F64.isNaN num then None else Some num).
Proof.
  intros Hc. unfold parseNumber.
  destruct (trim_cons c r Hc) as (r' & ->). reflexivity.
Qed.
End TextFacts.

Section Text.
Variable rand : nat -> F64.number.

(** X9.  A target cell whose text holds no digit is left as it is and
    no counter changes; in an angular row this needs the text not to parse
    as a number (as [Infinity] would). *)
Theorem processTarget_text_without_digits (isAngle : bool)
    (currentMin currentMax : F64.number) (row : gmap nat Cell) (colIndex : nat)
    (s : State) (t : jsstring) :
  getCellValue (getCell row colIndex) = Some (PStr t) ->
  noDigits t ->
  isAngle = false \/ parseNumber (Some (PStr t)) = None ->
  processTarget rand isAngle currentMin currentMax row colIndex s = Ok (row, s).
Proof.
  intros Hval Hnd Hmode. unfold processTarget.
  destruct (follower _); [reflexivity|]. rewrite Hval.
  destruct t as [|c t]; [reflexivity|].
  assert (HB : caseB rand isAngle currentMin currentMax (if isAngle then 0 else 2)
                 row colIndex (c :: t) s = Ok (row, s)).
  { unfold caseB. rewrite (testPattern_noDigits isAngle _ Hnd). reflexivity. }
  destruct (tokens_need_digits _ Hnd) as (_ & _ & Hdms).
  assert (Hsingle : (if isAngle then parseAngleToDecimal (Some (PStr (c :: t)))
                     else parseNumber (Some (PStr (c :: t))))
                    = parseNumber (Some (PStr (c :: t)))).
  { destruct isAngle; [|reflexivity]. unfold parseAngleToDecimal. rewrite Hdms. reflexivity. }
  rewrite Hsingle.
  destruct (parseNumber (Some (PStr (c :: t)))) as [v|] eqn:Hpn; [|exact HB].
  destruct Hmode as [-> | Hnone]; [|discriminate].
  cbn [orb andb].
  destruct (cleanNumber (trim (c :: t))) eqn:Hclean; [|exact HB].
  rewrite (clean_noDigits_not_number _ Hnd Hclean) in Hpn. discriminate.
Qed.

(** X10.  [parseNumber] reads a decimal comma as a decimal point: digits,
    a comma and digits, with or without a minus sign, give the number the
    same text with a point gives, and never null. *)
Theorem parseNumber_comma (sign ds fs : jsstring) :
  sign = [] \/ sign = [MINUS] ->
  ds <> [] -> digitsOnly ds -> digitsOnly fs ->
  parseNumber (Some (PStr (sign ++ ds ++ COMMA :: fs)))
  = parseNumber (Some (PStr (sign ++ ds ++ DOT :: fs)))
  /\ exists v, parseNumber (Some (PStr (sign ++ ds ++ DOT :: fs))) = Some v
               /\ F64.isNaN v = false.
Proof.
  intros Hsign Hne Hds Hfs.
  destruct ds as [|d ds']; [contradiction|].
  assert (Hd : isDigit d = true) by (inversion Hds; assumption).
  assert (Hnc : forall l, digitsOnly l -> Forall (fun c => (c =? COMMA)%N = false) l).
  { intros l Hl. eapply Forall_impl; [exact Hl|]. intros c Hc. apply (digit_facts c Hc). }
  assert (Hsc : Forall (fun c => (c =? COMMA)%N = false) sign)
    by (destruct Hsign as [-> | ->]; repeat constructor).
  assert (Hhead : forall sep, exists c r, sign ++ (d :: ds') ++ sep :: fs = c :: r
                                          /\ isSpace c = false).
  { intros sep. destruct Hsign as [-> | ->]; simpl; eexists _, _; split; try reflexivity.
    apply (digit_facts d Hd). }
  assert (Hnorm1 : replaceFirst COMMA DOT (sign ++ (d :: ds') ++ COMMA :: fs)
                   = sign ++ (d :: ds') ++ DOT :: fs).
  { rewrite replaceFirst_app by exact Hsc. rewrite replaceFirst_app by (apply Hnc, Hds).
    reflexivity. }
  assert (Hnorm2 : replaceFirst COMMA DOT (sign ++ (d :: ds') ++ DOT :: fs)
                   = sign ++ (d :: ds') ++ DOT :: fs).
  { rewrite replaceFirst_app by exact Hsc. rewrite replaceFirst_app by (apply Hnc, Hds).
    simpl. rewrite replaceFirst_without by (apply Hnc, Hfs). reflexivity. }
  assert (Hnan : F64.isNaN (Conv.parseFloat (sign ++ (d :: ds') ++ DOT :: fs)) = false).
  { change (sign ++ (d :: ds') ++ DOT :: fs) with ([] ++ sign ++ d :: (ds' ++ DOT :: fs)).
    apply parseFloat_leading_digit; [constructor | exact Hsign | exact Hd]. }
  assert (Hpn : forall sep,
            replaceFirst COMMA DOT (sign ++ (d :: ds') ++ sep :: fs)
            = sign ++ (d :: ds') ++ DOT :: fs ->
            parseNumber (Some (PStr (sign ++ (d :: ds') ++ sep :: fs)))
            = Some (Conv.parseFloat (sign ++ (d :: ds') ++ DOT :: fs))).
  { intros sep Hnorm. destruct (Hhead sep) as (c & r & E & Hc).
    rewrite E, (parseNumber_visible c r Hc), <- E, Hnorm. cbv zeta.
    rewrite Hnan. reflexivity. }
  rewrite (Hpn COMMA Hnorm1), (Hpn DOT Hnorm2). split; [reflexivity|]. eauto.
Qed.
End Text.

(** A linear row whose column E holds the text n/a. *)
Lemma processTarget_text_without_digits_witness :
  let row := rowOf [(5, textCell "n/a")]%nat in
  processTarget halves false (dec 0 0) (dec 10 0) row 5 freshState = Ok (row, freshState).
Proof.
  intros row.
  apply (processTarget_text_without_digits halves false (dec 0 0) (dec 10 0) row 5
           freshState (lit "n/a")).
  - vm_compute. reflexivity.
  - repeat constructor.
  - left. reflexivity.
Defined.

(** The texts 10,5 and 10.5. *)
Lemma parseNumber_comma_witness :
  parseNumber (Some (PStr (lit "10,5"))) = parseNumber (Some (PStr (lit "10.5")))
  /\ exists v, parseNumber (Some (PStr (lit "10.5"))) = Some v /\ F64.isNaN v = false.
Proof.
  apply (parseNumber_comma [] (lit "10") (lit "5")).
  - left. reflexivity.
  - discriminate.
  - repeat constructor.
  - repeat constructor.
Defined.

Section RowKind.
Variable rand : nat -> F64.number.

Lemma startsWith_prefix p x : startsWith p (p ++ x) = true.
Proof. induction p as [|a p IH]; simpl; [reflexivity|]. rewrite N.eqb_refl. exact IH. Qed.

Lemma dropWhile_before p a b c :
  p c = false -> dropWhile p (a ++ c :: b) = dropWhile p a ++ c :: b.
Proof.
  intros Hc. induction a as [|d a IH]; simpl.
  - rewrite Hc. reflexivity.
  - destruct (p d); [exact IH | reflexivity].
Qed.

Lemma includes_app c a b : includes c (a ++ b) = includes c a || includes c b.
Proof. unfold includes. apply existsb_app. Qed.

Lemma includes_whitespace c ws :
  isSpace c = false -> whitespaceOnly ws -> includes c ws = false.
Proof.
  intros Hc H. unfold includes. induction H as [|x ws Hx _ IH]; simpl; [reflexivity|].
  rewrite IH, orb_false_r. apply N.eqb_neq. intros ->. congruence.
Qed.

Lemma includes_toLowerCase c s :
  lowerUnit c = c -> includes c s = true -> includes c (toLowerCase s) = true.
Proof.
  intros Hc. unfold includes, toLowerCase. induction s as [|x s IH]; simpl; [discriminate|].
  intros H. apply orb_prop in H as [H|H].
  - apply N.eqb_eq in H. subst x. rewrite Hc, N.eqb_refl. reflexivity.
  - rewrite (IH H). apply orb_true_r.
Qed.

(** X11.  A row is angular when its description holds a degree sign
    anywhere, or starts, after leading white space and in any letter case,
    with [ang]. *)
Theorem rowIsAngle_description (row : gmap nat Cell) (descVal : jsstring) :
  getCellValue (getCell row COL_DESC) = Some (PStr descVal) ->
  includes DEGREE descVal = true
  \/ (exists ws p rest,
        descVal = ws ++ p ++ rest /\ whitespaceOnly ws /\ toLowerCase p = lit "ang") ->
  rowIsAngle row = true.
Proof.
  intros Hval Hdesc. unfold rowIsAngle. rewrite Hval. cbv zeta.
  apply orb_true_iff. destruct Hdesc as [Hdeg | (ws & p & rest & -> & Hws & Hp)].
  - right. apply includes_toLowerCase; [reflexivity|].
    destruct (trim_decompose descVal) as (ws1 & ws2 & E & H1 & H2).
    rewrite E, !includes_app in Hdeg.
    rewrite (includes_whitespace DEGREE ws1 eq_refl H1) in Hdeg.
    rewrite (includes_whitespace DEGREE ws2 eq_refl H2) in Hdeg.
    rewrite orb_false_r in Hdeg. exact Hdeg.
  - left.
    destruct p as [|a [|n [|g [|? ?]]]]; try discriminate.
    injection Hp as Ha Hn Hg.
    assert (Hsp : forall c k, lowerUnit c = k -> (97 <= k <= 122)%N -> isSpace c = false).
    { intros c k Hc Hk. unfold lowerUnit in Hc.
      destruct (((65 <=? c) && (c <=? 90) || (192 <=? c) && (c <=? 222) && negb (c =? 215))%N) eqn:E.
      - apply orb_prop in E as [E|E].
        + apply andb_prop in E as [E1 E2]. apply N.leb_le in E1, E2.
          unfold isSpace.
          repeat (apply orb_false_iff; split);
            rewrite ?andb_false_iff, ?N.leb_gt, ?N.eqb_neq; lia.
        + apply andb_prop in E as [E _]. apply andb_prop in E as [E1 E2].
          apply N.leb_le in E1, E2. lia.
      - subst c. unfold isSpace.
        repeat (apply orb_false_iff; split);
          rewrite ?andb_false_iff, ?N.leb_gt, ?N.eqb_neq; lia. }
    assert (Hsa : isSpace a = false) by (apply (Hsp a 97%N Ha); lia).
    assert (Hsn : isSpace n = false) by (apply (Hsp n 110%N Hn); lia).
    assert (Hsg : isSpace g = false) by (apply (Hsp g 103%N Hg); lia).
    assert (Htrim : exists r', trim (ws ++ [a; n; g] ++ rest) = [a; n; g] ++ r').
    { unfold trim, trimStart, trimEnd.
      rewrite (dropWhile_app_all _ _ _ Hws). cbn [app dropWhile]. rewrite Hsa.
      change (rev (a :: n :: g :: rest)) with (((rev rest ++ [g]) ++ [n]) ++ [a]).
      rewrite <- !app_assoc. cbn [app].
      rewrite (dropWhile_before isSpace (rev rest) [n; a] g Hsg).
      rewrite rev_app_distr. cbn [rev app]. eauto. }
    destruct Htrim as (r' & ->).
    unfold toLowerCase. rewrite map_app. cbn [map]. rewrite Ha, Hn, Hg.
    apply (startsWith_prefix (lit "ang")).
Qed.

(** X12.  A target cell that holds a boolean is left as it is, in linear
    and in angular rows, and no counter changes. *)
Theorem processTarget_boolean (isAngle : bool) (currentMin currentMax : F64.number)
    (row : gmap nat Cell) (colIndex : nat) (s : State) (b : bool) :
  getCellValue (getCell row colIndex) = Some (PBool b) ->
  processTarget rand isAngle currentMin currentMax row colIndex s = Ok (row, s).
Proof.
  intros Hval. unfold processTarget. rewrite Hval.
  destruct (follower _); [reflexivity|].
  destruct isAngle; reflexivity.
Qed.
End RowKind.

Lemma rowIsAngle_description_witness :
  rowIsAngle (rowOf [(2, textCell "  ANGULO 1")]%nat) = true
  /\ rowIsAngle (rowOf [(2, textCell "Chanfro 45" )]%nat) = false.
Proof.
  split; [|vm_compute; reflexivity].
  apply (rowIsAngle_description _ (lit "  ANGULO 1")); [vm_compute; reflexivity|].
  right. exists (lit "  "), (lit "ANG"), (lit "ULO 1").
  split; [reflexivity|]. split; [repeat constructor | reflexivity].
Defined.

Lemma processTarget_boolean_witness :
  let row := rowOf [(5, {| value := VPrim (PBool true); numFmt := None; follower := false |})]%nat in
  processTarget halves true (dec 0 0) (dec 10 0) row 5 freshState = Ok (row, freshState).
Proof.
  intros row.
  apply (processTarget_boolean halves true (dec 0 0) (dec 10 0) row 5 freshState true).
  vm_compute. reflexivity.
Defined.

(* ===================================================================== *)
(** * 22. Decimals, column selection and file names                      *)
(* ===================================================================== *)

Import Helpers.

Section SplitFacts.

Lemma split_nonempty sep s : split sep s <> [].
Proof.
  destruct s as [|c r]; simpl; [discriminate|].
  destruct (c =? sep)%N; [discriminate|]. destruct (split sep r); discriminate.
Qed.

Lemma split_without sep s : without sep s -> split sep s = [s].
Proof.
  induction 1 as [|c r Hc _ IH]; simpl; [reflexivity|]. rewrite Hc, IH. reflexivity.
Qed.

Lemma split_app sep a b :
  without sep b -> split sep (a ++ sep :: b) = split sep a ++ [b].
Proof.
  intros Hb. induction a as [|c a IH]; simpl.
  - rewrite N.eqb_refl, (split_without sep b Hb). reflexivity.
  - destruct (c =? sep)%N; rewrite IH; [reflexivity|].
    destruct (split sep a) as [|seg segs] eqn:E; [|reflexivity].
    exfalso. exact (split_nonempty sep a E).
Qed.

(** Joining what [split] returns gives the string back. *)
Lemma join_split sep s : join sep (split sep s) = s.
Proof.
  induction s as [|c r IH]; simpl; [reflexivity|].
  destruct (split sep r) as [|seg segs] eqn:E; [exfalso; exact (split_nonempty sep r E)|].
  destruct (N.eqb_spec c sep) as [->|Hne].
  - cbn [join app]. f_equal. exact IH.
  - destruct segs as [|seg' segs']; cbn [join] in *; subst r; reflexivity.
Qed.

Lemma endsWith_app suffix a : endsWith suffix (a ++ suffix) = true.
Proof. unfold endsWith. rewrite rev_app_distr. apply startsWith_prefix. Qed.

Lemma includes_without sep s : without sep s -> includes sep s = false.
Proof.
  unfold includes. induction 1 as [|c r Hc _ IH]; simpl; [reflexivity|].
  rewrite N.eqb_sym, Hc. exact IH.
Qed.

Lemma includes_app_sep sep a b : includes sep (a ++ sep :: b) = true.
Proof.
  unfold includes. rewrite existsb_app. simpl. rewrite N.eqb_refl.
  apply orb_true_iff. right. reflexivity.
Qed.

Lemma digits_without sep s :
  isDigit sep = false -> digitsOnly s -> without sep s.
Proof.
  intros Hsep H. eapply Forall_impl; [exact H|]. intros c Hc. cbv beta in *.
  apply N.eqb_neq. intros ->. congruence.
Qed.

Lemma digitsOf_digits fuel : forall z acc,
  digitsOnly acc -> digitsOnly (digitsOf fuel z acc).
Proof.
  induction fuel as [|fuel IH]; intros z acc Hacc; simpl; [exact Hacc|].
  assert (Hd : isDigit (48 + Z.to_N (z mod 10))%N = true).
  { pose proof (Z.mod_pos_bound z 10 ltac:(lia)) as Hm.
    unfold isDigit. apply andb_true_iff. rewrite !N.leb_le. lia. }
  destruct (z <? 10); [constructor; assumption|].
  apply IH. constructor; assumption.
Qed.

Lemma showNat_digits z : digitsOnly (showNat z).
Proof. apply digitsOf_digits. constructor. Qed.
End SplitFacts.

Section Decimals.

Lemma countDecimals_dot (pre fs : jsstring) :
  without DOT pre -> without COMMA pre -> without DOT fs -> without COMMA fs ->
  countDecimals (inr (pre ++ DOT :: fs)) = length fs.
Proof.
  intros Hd Hc Hfs Hfc. unfold countDecimals. cbv zeta.
  rewrite replaceFirst_app by exact Hc. simpl replaceFirst.
  rewrite (replaceFirst_without _ _ fs Hfc).
  rewrite includes_app_sep. cbn [negb]. change (@app N) with (@app codeunit).
  rewrite (split_app DOT pre fs Hfs), (split_without DOT pre Hd). reflexivity.
Qed.

Lemma countDecimals_plain (pre : jsstring) :
  without DOT pre -> without COMMA pre -> countDecimals (inr pre) = 0%nat.
Proof.
  intros Hd Hc. unfold countDecimals. cbv zeta. rewrite (replaceFirst_without _ _ pre Hc).
  rewrite (includes_without DOT pre Hd). reflexivity.
Qed.

(** X13.  [countDecimals] of a text with one decimal separator, a point
    or a comma, is the number of code units after it, and 0 for a text
    without a separator. *)
Theorem countDecimals_separator (pre fs : jsstring) (sep : codeunit) :
  isDecimalSeparator sep = true ->
  without DOT pre -> without COMMA pre -> without DOT fs -> without COMMA fs ->
  countDecimals (inr (pre ++ sep :: fs)) = length fs
  /\ countDecimals (inr pre) = 0%nat.
Proof.
  intros Hsep Hd Hc Hfs Hfc. split.
  - unfold isDecimalSeparator in Hsep.
    apply orb_prop in Hsep as [E|E]; apply N.eqb_eq in E; subst sep.
    + apply countDecimals_dot; assumption.
    + unfold countDecimals. cbv zeta. rewrite replaceFirst_app by exact Hc. simpl replaceFirst.
      rewrite includes_app_sep. cbn [negb]. change (@app N) with (@app codeunit).
      rewrite (split_app DOT pre fs Hfs), (split_without DOT pre Hd). reflexivity.
  - apply countDecimals_plain; assumption.
Qed.

Lemma length_padStart n s : (n <= length (padStart n s))%nat.
Proof. unfold padStart. rewrite length_app, repeat_length. lia. Qed.

Lemma padStart_digits n s : digitsOnly s -> digitsOnly (padStart n s).
Proof.
  intros H. unfold padStart. apply Forall_app. split; [|exact H].
  apply Forall_forall. intros c Hc. apply list_elem_of_In, repeat_spec in Hc. subst. reflexivity.
Qed.

(** X14.  The text [toFixed(f)] writes for a number in fixed notation
    (zero, or below [10^21] in magnitude) has exactly [f] decimals, as
    [countDecimals] counts them. *)
Theorem countDecimals_toFixed (f : nat) (x : F64.number) :
  fixedNotation x ->
  countDecimals (inr (Conv.toFixedDigits f x)) = f.
Proof.
  intros Hx.
  assert (Hrep : forall n, digitsOnly (repeat ZERO n)).
  { intros n. apply Forall_forall. intros c Hc.
    apply list_elem_of_In, repeat_spec in Hc. subst. reflexivity. }
  destruct x as [sg| | |sg m e]; simpl in Hx; try contradiction.
  - destruct f as [|f]; [reflexivity|].
    change (Conv.toFixedDigits (S f) (S754_zero sg))
      with ([ZERO] ++ DOT :: repeat ZERO (S f)).
    rewrite countDecimals_dot.
    + apply repeat_length.
    + repeat constructor.
    + repeat constructor.
    + apply digits_without; [reflexivity | apply Hrep].
    + apply digits_without; [reflexivity | apply Hrep].
  - unfold Conv.toFixedDigits. destruct (F64.fraction m e) as [p q]. rewrite Hx.
    set (n := (2 * p * 10 ^ Z.of_nat f + q) / (2 * q)).
    set (ds := padStart (S f) (if n =? 0 then lit "0" else showNat n)).
    assert (Hds : digitsOnly ds).
    { apply padStart_digits. destruct (n =? 0); [repeat constructor | apply showNat_digits]. }
    assert (Hlen : (S f <= length ds)%nat) by apply length_padStart.
    assert (Hsign : forall sep, (MINUS =? sep)%N = false ->
              without sep (if sg then [MINUS] else [])).
    { intros sep Hm. destruct sg; repeat constructor. exact Hm. }
    destruct f as [|f].
    + apply countDecimals_plain.
      * apply Forall_app. split; [apply Hsign; reflexivity|].
        apply digits_without; [reflexivity | exact Hds].
      * apply Forall_app. split; [apply Hsign; reflexivity|].
        apply digits_without; [reflexivity | exact Hds].
    + cbv zeta. rewrite app_assoc.
      change ([DOT] ++ drop (length ds - S f)%nat ds)
        with (DOT :: drop (length ds - S f)%nat ds).
      assert (Htake : digitsOnly (take (length ds - S f)%nat ds))
        by (apply Forall_take; exact Hds).
      assert (Hdrop : digitsOnly (drop (length ds - S f)%nat ds))
        by (apply Forall_drop; exact Hds).
      rewrite countDecimals_dot.
      * rewrite length_drop. lia.
      * apply Forall_app. split; [apply Hsign; reflexivity|].
        apply digits_without; [reflexivity | exact Htake].
      * apply Forall_app. split; [apply Hsign; reflexivity|].
        apply digits_without; [reflexivity | exact Htake].
      * apply digits_without; [reflexivity | exact Hdrop].
      * apply digits_without; [reflexivity | exact Hdrop].
Qed.
End Decimals.

(** The text 10,25 and the number 10.5 written with two decimals. *)
Lemma countDecimals_separator_witness :
  countDecimals (inr (lit "10,25")) = 2%nat /\ countDecimals (inr (lit "10")) = 0%nat.
Proof.
  apply (countDecimals_separator (lit "10") (lit "25") COMMA).
  - reflexivity.
  - repeat constructor.
  - repeat constructor.
  - repeat constructor.
  - repeat constructor.
Defined.

Lemma countDecimals_toFixed_witness :
  countDecimals (inr (Conv.toFixedDigits 2 (dec 105 (-1)))) = 2%nat.
Proof.
  apply (countDecimals_toFixed 2 (dec 105 (-1))).
  vm_compute. reflexivity.
Defined.

Section ReadBack.

(** The number pattern of a linear row matches a numeric token whole. *)
Lemma linearToken_token tok : numericToken tok -> linearToken tok = Some (tok, []).
Proof.
  intros (sign & ds & frac & -> & Hsign & Hne & Hds & Hfrac).
  unfold linearToken.
  assert (Hopt : optionalMinus (sign ++ ds ++ frac) = (sign, ds ++ frac)).
  { destruct Hsign as [-> | ->]; [|reflexivity].
    destruct ds as [|d ds']; [contradiction|]. simpl.
    inversion Hds as [|? ? Hd _]; subst.
    destruct (digit_facts d Hd) as (_ & -> & _). reflexivity. }
  rewrite Hopt.
  assert (Hrun : forall fs, digitsOnly fs -> takeWhile isDigit fs = fs /\ dropWhile isDigit fs = []).
  { intros fs Hfs. split.
    - rewrite <- (app_nil_r fs) at 1. rewrite (takeWhile_app_all _ _ _ Hfs). apply app_nil_r.
    - rewrite <- (app_nil_r fs) at 1. rewrite (dropWhile_app_all _ _ _ Hfs). reflexivity. }
  destruct Hfrac as [-> | (c & fs & -> & Hc & Hfne & Hfs)].
  - rewrite app_nil_r. destruct (Hrun ds Hds) as [-> ->].
    destruct ds; [contradiction|]. reflexivity.
  - rewrite (takeWhile_app_all _ _ _ Hds), (dropWhile_app_all _ _ _ Hds).
    cbn [takeWhile dropWhile]. rewrite (separator_not_digit c Hc), app_nil_r.
    destruct ds as [|d ds']; [contradiction|].
    rewrite Hc. destruct (Hrun fs Hfs) as [-> ->].
    destruct fs; [contradiction|]. reflexivity.
Qed.

Lemma toFixed_token (f : nat) (x : F64.number) :
  fixedNotation x -> numericToken (Conv.toFixedDigits f x).
Proof.
  intros Hx.
  assert (Hrep : forall n, digitsOnly (repeat ZERO n)).
  { intros n. apply Forall_forall. intros c Hc.
    apply list_elem_of_In, repeat_spec in Hc. subst. reflexivity. }
  destruct x as [sg| | |sg m e]; simpl in Hx; try contradiction.
  - exists [], [ZERO], (match f with O => [] | S _ => DOT :: repeat ZERO f end).
    split; [destruct f; reflexivity|]. split; [left; reflexivity|].
    split; [discriminate|]. split; [repeat constructor|].
    destruct f as [|f]; [left; reflexivity|right].
    exists DOT, (repeat ZERO (S f)). split; [reflexivity|]. split; [reflexivity|].
    split; [discriminate | apply Hrep].
  - unfold Conv.toFixedDigits. destruct (F64.fraction m e) as [p q]. rewrite Hx.
    set (n := (2 * p * 10 ^ Z.of_nat f + q) / (2 * q)).
    set (ds := padStart (S f) (if n =? 0 then lit "0" else showNat n)).
    assert (Hds : digitsOnly ds).
    { apply padStart_digits. destruct (n =? 0); [repeat constructor | apply showNat_digits]. }
    assert (Hlen : (S f <= length ds)%nat) by apply length_padStart.
    cbv zeta.
    exists (if sg then [MINUS] else []).
    destruct f as [|f].
    + exists ds, []. split; [rewrite app_nil_r; reflexivity|].
      split; [destruct sg; auto|]. split; [|split; [exact Hds | left; reflexivity]].
      intros ->. simpl in Hlen. lia.
    + exists (take (length ds - S f)%nat ds), (DOT :: drop (length ds - S f)%nat ds).
      split; [reflexivity|]. split; [destruct sg; auto|].
      assert (Hl1 : length (take (length ds - S f)%nat ds) = (length ds - S f)%nat)
        by (rewrite length_take; lia).
      assert (Hl2 : length (drop (length ds - S f)%nat ds) = S f)
        by (rewrite length_drop; lia).
      split; [intros E; rewrite E in Hl1; simpl in Hl1; lia|].
      split; [apply Forall_take; exact Hds|]. right.
      exists DOT, (drop (length ds - S f)%nat ds).
      split; [reflexivity|]. split; [reflexivity|].
      split; [intros E; rewrite E in Hl2; discriminate | apply Forall_drop; exact Hds].
Qed.

(** X15.  The text [toFixed(f)] writes for a number in fixed notation is
    a numeric token: the number pattern of a linear row matches it whole,
    the clean-number test accepts it and [parseNumber] reads a number from
    it.  So the text a linear token is replaced by is read as one token
    again. *)
Theorem toFixed_reads_back (f : nat) (x : F64.number) :
  fixedNotation x ->
  let t := Conv.toFixedDigits f x in
  linearToken t = Some (t, [])
  /\ cleanNumber t = true
  /\ exists v, parseNumber (Some (PStr t)) = Some v.
Proof.
  intros Hx t. pose proof (toFixed_token f x Hx) as Htok. fold t in Htok.
  split; [apply linearToken_token; exact Htok|].
  split; [apply cleanNumber_token; exact Htok|].
  destruct (parseNumber_token [] t [] ltac:(constructor) ltac:(constructor) Htok) as (v & Hv).
  rewrite app_nil_r in Hv. exists v. exact Hv.
Qed.
End ReadBack.

Lemma toFixed_reads_back_witness :
  let t := Conv.toFixedDigits 2 (dec (-105) (-1)) in
  linearToken t = Some (t, [])
  /\ cleanNumber t = true
  /\ exists v, parseNumber (Some (PStr t)) = Some v.
Proof.
  apply (toFixed_reads_back 2 (dec (-105) (-1))).
  vm_compute. reflexivity.
Defined.

Section Columns.

(** X16.  [toggleColumn] on a selection without duplicates: the result
    has no duplicate, the toggled column is in it exactly when it was not
    before, and every other column is kept or left out as before. *)
Theorem toggleColumn_selection (prev : list nat) (index : nat) :
  List.NoDup prev ->
  List.NoDup (toggleColumn prev index)
  /\ (In index (toggleColumn prev index) <-> ~ In index prev)
  /\ (forall j, j <> index -> (In j (toggleColumn prev index) <-> In j prev)).
Proof.
  intros Hnd. unfold toggleColumn.
  destruct (existsb (Nat.eqb index) prev) eqn:E.
  - apply existsb_exists in E as (x & Hin & Hx). apply Nat.eqb_eq in Hx. subst x.
    split; [apply List.NoDup_filter; exact Hnd|]. split.
    + rewrite List.filter_In, Nat.eqb_refl. simpl. split; [intros [_ [=]] | contradiction].
    + intros j Hj. rewrite List.filter_In.
      apply Nat.eqb_neq in Hj. rewrite Hj. simpl. tauto.
  - assert (Hnot : ~ In index prev).
    { intros Hin. apply not_true_iff_false in E. apply E.
      apply existsb_exists. exists index. split; [exact Hin | apply Nat.eqb_refl]. }
    split; [|split].
    + apply List.NoDup_app; [exact Hnd | repeat constructor; intros [] |].
      intros x Hx [<-|[]]. contradiction.
    + rewrite List.in_app_iff. simpl. tauto.
    + intros j Hj. rewrite List.in_app_iff. simpl. split; [|tauto].
      intros [H|[H|[]]]; [exact H | congruence].
Qed.

(** X17.  Toggling a column that is not selected twice gives the
    selection back, in the same order. *)
Theorem toggleColumn_twice (prev : list nat) (index : nat) :
  ~ In index prev ->
  toggleColumn (toggleColumn prev index) index = prev.
Proof.
  intros Hnot. unfold toggleColumn at 2.
  assert (E : existsb (Nat.eqb index) prev = false).
  { apply not_true_iff_false. intros H. apply existsb_exists in H as (x & Hin & Hx).
    apply Nat.eqb_eq in Hx. subst x. contradiction. }
  rewrite E. unfold toggleColumn.
  rewrite existsb_app. simpl. rewrite Nat.eqb_refl, orb_true_r.
  rewrite List.filter_app. simpl. rewrite Nat.eqb_refl. simpl. rewrite app_nil_r.
  clear E. induction prev as [|x prev IH]; simpl; [reflexivity|].
  destruct (Nat.eqb_spec x index) as [->|Hne]; [exfalso; apply Hnot; left; reflexivity|].
  simpl. f_equal. apply IH. intros H. apply Hnot. right. exact H.
Qed.
End Columns.

(** The default selection E, F, G: toggling F, and toggling H twice. *)
Lemma toggleColumn_selection_witness :
  List.NoDup (toggleColumn [4; 5; 6]%nat 5)
  /\ (In 5%nat (toggleColumn [4; 5; 6]%nat 5) <-> ~ In 5%nat [4; 5; 6]%nat)
  /\ (forall j, j <> 5%nat ->
        (In j (toggleColumn [4; 5; 6]%nat 5) <-> In j [4; 5; 6]%nat)).
Proof.
  apply (toggleColumn_selection [4; 5; 6]%nat 5).
  repeat (constructor; [simpl; intuition discriminate|]). constructor.
Defined.

Lemma toggleColumn_twice_witness :
  toggleColumn (toggleColumn [4; 5; 6]%nat 7) 7 = [4; 5; 6]%nat.
Proof.
  apply (toggleColumn_twice [4; 5; 6]%nat 7).
  simpl. intuition discriminate.
Defined.

Section Names.

(** X18.  The name of the generated file: for [base.ext], with no dot in
    [ext], it is [base_Gerado.ext], dots of [base] kept; a name without
    any dot is taken as the extension, giving [_Gerado.name]. *)
Theorem downloadName_extension (base ext : jsstring) :
  without DOT ext ->
  downloadName (base ++ DOT :: ext) = base ++ lit "_Gerado." ++ ext
  /\ downloadName ext = lit "_Gerado." ++ ext.
Proof.
  intros Hext. unfold downloadName. split.
  - rewrite (split_app DOT base ext Hext).
    rewrite last_last, removelast_last, join_split. reflexivity.
  - rewrite (split_without DOT ext Hext). reflexivity.
Qed.

(** X19.  A file named with one of the three Excel extensions passes
    [validateFile] whatever its MIME type, and so does the name
    [downloadFile] generates from it. *)
Theorem validateFile_generated (type base ext : jsstring) :
  In ext [lit "xlsx"; lit "xls"; lit "xlsm"] ->
  validateFile type (base ++ DOT :: ext) = true
  /\ validateFile type (downloadName (base ++ DOT :: ext)) = true.
Proof.
  intros Hext.
  assert (Hw : without DOT ext).
  { simpl in Hext. destruct Hext as [<-|[<-|[<-|[]]]]; repeat constructor. }
  assert (Hname : downloadName (base ++ DOT :: ext) = base ++ lit "_Gerado." ++ ext).
  { unfold downloadName. rewrite (split_app DOT base ext Hw).
    rewrite last_last, removelast_last, join_split. reflexivity. }
  rewrite Hname.
  assert (H : forall a, validateFile type (a ++ DOT :: ext) = true).
  { intros a. unfold validateFile.
    simpl in Hext. destruct Hext as [<-|[<-|[<-|[]]]].
    - apply orb_true_iff; left. apply orb_true_iff; left. apply orb_true_iff; right.
      exact (endsWith_app (lit ".xlsx") a).
    - apply orb_true_iff; left. apply orb_true_iff; right.
      exact (endsWith_app (lit ".xls") a).
    - apply orb_true_iff; right. exact (endsWith_app (lit ".xlsm") a). }
  split; [apply H|].
  change (lit "_Gerado." ++ ext) with (lit "_Gerado" ++ DOT :: ext).
  rewrite (app_assoc base (lit "_Gerado") (DOT :: ext)). apply H.
Qed.
End Names.

(** The file relatorio.xlsx. *)
Lemma downloadName_extension_witness :
  downloadName (lit "relatorio.xlsx") = lit "relatorio_Gerado.xlsx"
  /\ downloadName (lit "xlsx") = lit "_Gerado.xlsx".
Proof.
  apply (downloadName_extension (lit "relatorio") (lit "xlsx")).
  repeat constructor.
Defined.

Lemma validateFile_generated_witness :
  validateFile [] (lit "relatorio.xlsx") = true
  /\ validateFile [] (downloadName (lit "relatorio.xlsx")) = true.
Proof.
  apply (validateFile_generated [] (lit "relatorio") (lit "xlsx")).
  left. reflexivity.
Defined.

(* ===================================================================== *)
(** * 23. Binary64: values and rounding                                  *)
(* ===================================================================== *)

(** The value of a number as a rational, and what the operations of
    [SpecFloat] compute on it: each returns a number nearest to the exact
    result. *)

Section Pow2.
Local Open Scope Q_scope.

(** Powers of two. *)
Lemma pow2_pos e : 0 < pow2 e.
Proof. apply Qpower_0_lt. reflexivity. Qed.

Lemma pow2_add a b : pow2 (a + b) == pow2 a * pow2 b.
Proof. apply Qpower_plus. discriminate. Qed.


Lemma pow2_le a b : (a <= b)%Z -> pow2 a <= pow2 b.
Proof. intros H. apply Qpower_le_compat_l; [exact H | discriminate]. Qed.



Lemma pow2_lt_inv a b : pow2 a < pow2 b -> (a < b)%Z.
Proof. intros H. apply (Qpower_lt_compat_l_inv 2); [exact H | reflexivity]. Qed.

Lemma pow2_Z a : (0 <= a)%Z -> pow2 a == inject_Z (2 ^ a).
Proof. intros H. unfold pow2. rewrite Zpower_Qpower by exact H. reflexivity. Qed.

Lemma pow2_succ a : pow2 (a + 1) == 2 * pow2 a.
Proof. rewrite pow2_add. change (pow2 1) with 2. ring. Qed.


Lemma pow2_opp_l a : pow2 (- a) * pow2 a == 1.
Proof. rewrite <- pow2_add. replace (- a + a)%Z with 0%Z by lia. reflexivity. Qed.

Lemma pow2_opp_r a : pow2 a * pow2 (- a) == 1.
Proof. rewrite Qmult_comm. apply pow2_opp_l. Qed.
End Pow2.

Section Digits.

(** The number of binary digits of a significand, and what [bounded] says
    of a finite number. *)
Lemma digits2_size m : digits2_pos m = Pos.size m.
Proof. induction m as [m IH|m IH|]; simpl; rewrite ?IH; reflexivity. Qed.

Lemma Zdigits2_spec n : 0 < n -> 2 ^ (Zdigits2 n - 1) <= n < 2 ^ Zdigits2 n.
Proof.
  destruct n as [|p|p]; try lia. intros _. simpl Zdigits2. rewrite digits2_size.
  pose proof (Pos.size_gt p) as H1. pose proof (Pos.size_le p) as H2.
  assert (E : Z.pos (Pos.size p) = Z.succ (Z.pos (Pos.size p) - 1)) by lia.
  split.
  - assert (H3 : 2 ^ Z.pos (Pos.size p) <= 2 * Z.pos p).
    { change (2 * Z.pos p) with (Z.pos (p~0)). rewrite <- Pos2Z.inj_pow.
      apply Pos2Z.pos_le_pos. exact H2. }
    rewrite E, Z.pow_succ_r in H3 by lia. lia.
  - rewrite <- Pos2Z.inj_pow. apply Pos2Z.pos_lt_pos. exact H1.
Qed.

Lemma Zdigits2_pos n : 0 < n -> 0 < Zdigits2 n.
Proof. destruct n; simpl; lia. Qed.


Lemma fexp_eq e : fexp 53 1024 e = Z.max (e - 53) (-1074).
Proof. reflexivity. Qed.

Lemma bounded_facts m e :
  bounded 53 1024 m e = true ->
  Zpos m < 2 ^ 53 /\ -1074 <= e <= 971
  /\ (-1074 < e -> 2 ^ 52 <= Zpos m).
Proof.
  unfold bounded, canonical_mantissa. intros H. apply andb_prop in H as [H1 H2].
  apply Z.eqb_eq in H1. apply Z.leb_le in H2. rewrite fexp_eq in H1.
  change (1024 - 53) with 971 in H2.
  pose proof (Zdigits2_spec (Zpos m) ltac:(lia)) as Hs. simpl Zdigits2 in Hs.
  set (d := Z.pos (digits2_pos m)) in *.
  assert (Hd : d <= 53) by lia.
  split; [|split; [lia|]].
  - assert (2 ^ d <= 2 ^ 53) by (apply Z.pow_le_mono_r; lia). lia.
  - intros He. assert (d = 53) by lia. replace (d - 1) with 52 in Hs by lia. lia.
Qed.
End Digits.

Section Shift.
Local Open Scope Q_scope.

Lemma inject_xO p : inject_Z (Z.pos p~0) == 2 * inject_Z (Z.pos p).
Proof. change (Z.pos p~0) with (2 * Z.pos p)%Z. rewrite inject_Z_mult. reflexivity. Qed.

Lemma inject_xI p : inject_Z (Z.pos p~1) == 2 * inject_Z (Z.pos p) + 1.
Proof.
  change (Z.pos p~1) with (2 * Z.pos p + 1)%Z. rewrite inject_Z_plus, inject_Z_mult.
  reflexivity.
Qed.

Lemma located_ext x y mrs : x == y -> located x mrs -> located y mrs.
Proof.
  intros E [H0 H]. split; [exact H0|].
  unfold inbetween in *. destruct (loc_of_shr_record mrs) as [|[]]; lra.
Qed.

(** A right shift by one digit halves the value and keeps track of where
    it lies. *)
Lemma shr_1_located x mrs : located x mrs -> located (x * (1 # 2)) (shr_1 mrs).
Proof.
  intros [H0 H]. destruct mrs as [m r s]. unfold located.
  cbn [shr_m] in H0.
  destruct m as [|p|p]; [| |lia].
  - change (inject_Z 0) with 0 in *.
    destruct r, s; cbn [shr_1 shr_m loc_of_shr_record inbetween orb] in *;
      change (inject_Z 0) with 0 in *; (split; [lia | lra]).
  - destruct p as [p|p|].
    + pose proof (inject_xI p) as E.
      destruct r, s; cbn [shr_1 shr_m loc_of_shr_record inbetween orb] in *;
        (split; [lia | lra]).
    + pose proof (inject_xO p) as E.
      destruct r, s; cbn [shr_1 shr_m loc_of_shr_record inbetween orb] in *;
        (split; [lia | lra]).
    + destruct r, s; cbn [shr_1 shr_m loc_of_shr_record inbetween orb] in *;
        change (inject_Z 1) with 1 in *; change (inject_Z 0) with 0 in *;
        (split; [lia | lra]).
Qed.

Lemma iter_shr_located p : forall x mrs,
  located x mrs -> located (x * pow2 (- Z.pos p)) (SpecFloat.iter_pos shr_1 p mrs).
Proof.
  induction p as [p IH|p IH|]; intros x mrs H; cbn [SpecFloat.iter_pos].
  - apply (located_ext (x * (1 # 2) * pow2 (- Z.pos p) * pow2 (- Z.pos p))).
    + replace (- Z.pos p~1)%Z with (- Z.pos p + - Z.pos p + -1)%Z by lia.
      rewrite !pow2_add. change (pow2 (-1)) with (1 # 2). ring.
    + apply IH, IH, shr_1_located, H.
  - apply (located_ext (x * pow2 (- Z.pos p) * pow2 (- Z.pos p))).
    + replace (- Z.pos p~0)%Z with (- Z.pos p + - Z.pos p)%Z by lia.
      rewrite !pow2_add. ring.
    + apply IH, IH, H.
  - apply (located_ext (x * (1 # 2))); [reflexivity|]. apply shr_1_located, H.
Qed.

Lemma record_of_loc m l :
  shr_m (shr_record_of_loc m l) = m
  /\ loc_of_shr_record (shr_record_of_loc m l) = l.
Proof. destruct l as [|[]]; split; reflexivity. Qed.

(** The first shift of [binary_round_aux]: the value is located on the
    grid of the exponent [fexp] gives. *)
Lemma shr_fexp_located (q : Q) (mx ex : Z) (lx : location) :
  (0 <= mx)%Z -> inbetween (q * pow2 (- ex)) mx lx ->
  (ex <= fexp 53 1024 (Zdigits2 mx + ex))%Z ->
  let e' := fexp 53 1024 (Zdigits2 mx + ex) in
  exists mrs, shr_fexp 53 1024 mx ex lx = (mrs, e') /\ located (q * pow2 (- e')) mrs.
Proof.
  intros Hmx Hin Hle e'. unfold shr_fexp, shr. fold e'.
  destruct (record_of_loc mx lx) as [Em El].
  assert (Hloc : located (q * pow2 (- ex)) (shr_record_of_loc mx lx)).
  { split; rewrite ?Em, ?El; assumption. }
  destruct (e' - ex)%Z as [|p|p] eqn:E; [| |lia].
  - assert (e' = ex) as -> by lia. eauto.
  - eexists. split; [f_equal; lia|].
    apply (located_ext (q * pow2 (- ex) * pow2 (- Z.pos p))); [|apply iter_shr_located, Hloc].
    replace (- e')%Z with (- ex + - Z.pos p)%Z by lia. rewrite pow2_add. ring.
Qed.

(** Rounding to nearest, ties to even, returns an integer within a half
    of the value. *)
Lemma round_nearest_even_spec (y : Q) (m : Z) (l : location) :
  (0 <= m)%Z -> inbetween y m l ->
  let n := round_nearest_even m l in
  (m <= n <= m + 1)%Z /\ Qabs (y - inject_Z n) <= 1 # 2
  /\ inject_Z m <= y < inject_Z m + 1.
Proof.
  intros Hm H n. unfold n, round_nearest_even, inbetween in *.
  destruct l as [|[]].
  - split; [lia|]. split; [|lra]. apply Qabs_Qle_condition. lra.
  - destruct (Z.even m).
    + split; [lia|]. split; [|lra]. apply Qabs_Qle_condition. lra.
    + split; [lia|]. rewrite inject_Z_plus. change (inject_Z 1) with 1.
      split; [|lra]. apply Qabs_Qle_condition. lra.
  - split; [lia|]. split; [|lra]. apply Qabs_Qle_condition. lra.
  - split; [lia|]. rewrite inject_Z_plus. change (inject_Z 1) with 1.
    split; [|lra]. apply Qabs_Qle_condition. lra.
Qed.
End Shift.

Section RoundAux.
Local Open Scope Q_scope.

Lemma inbetween_bounds y m l : inbetween y m l -> inject_Z m <= y < inject_Z m + 1.
Proof. unfold inbetween. destruct l as [|[]]; lra. Qed.

Lemma inject_Z_lt_inv a b : inject_Z a < inject_Z b -> (a < b)%Z.
Proof. intros H. rewrite Zlt_Qlt. exact H. Qed.

Lemma inject_Z_le_inv a b : inject_Z a <= inject_Z b -> (a <= b)%Z.
Proof. intros H. rewrite Zle_Qle. exact H. Qed.

Lemma Qabs_signed (s : bool) (y : Q) (n : Z) :
  Qabs ((if s then - y else y) - inject_Z (cond_Zopp s n)) == Qabs (y - inject_Z n).
Proof.
  destruct s; cbn [cond_Zopp]; [|reflexivity].
  rewrite inject_Z_opp. rewrite <- (Qabs_opp (y - inject_Z n)).
  apply Qabs_wd. ring.
Qed.

(** The bounds the first shift leaves on the integer part. *)
Lemma shifted_bounds (q : Q) (mx ex : Z) (lx : location) (m' : Z) :
  (0 <= mx)%Z -> inbetween (q * pow2 (- ex)) mx lx ->
  (ex <= fexp 53 1024 (Zdigits2 mx + ex))%Z ->
  let e' := fexp 53 1024 (Zdigits2 mx + ex) in
  inject_Z m' <= q * pow2 (- e') < inject_Z m' + 1 ->
  (m' < 2 ^ 53)%Z
  /\ ((-1074 < e')%Z -> (2 ^ 52 <= m')%Z /\ pow2 (52 + e') <= q).
Proof.
  intros Hmx Hin Hle e' Hm'. unfold e' in *. clear e'. rewrite fexp_eq in *.
  apply inbetween_bounds in Hin.
  set (D := (Zdigits2 mx + ex)%Z) in *. set (E := Z.max (D - 53) (-1074)) in *.
  assert (Hy : q * pow2 (- E) == q * pow2 (- ex) * pow2 (ex - E)).
  { replace (- E)%Z with (- ex + (ex - E))%Z by lia. rewrite pow2_add. ring. }
  pose proof (pow2_pos (ex - E)) as Hp.
  destruct (Z.eq_dec mx 0%Z) as [->|Hne].
  - change (inject_Z 0) with 0 in Hin. unfold D in *. cbn [Zdigits2] in *.
    assert (HE : E = (-1074)%Z) by lia.
    assert (Hle1 : pow2 (ex - E) <= 1).
    { change 1 with (pow2 0). apply pow2_le. lia. }
    assert (Hlt : q * pow2 (- E) < 1) by (rewrite Hy; nra).
    split; [|lia].
    assert (inject_Z m' < inject_Z 1) by (change (inject_Z 1) with 1; lra).
    apply inject_Z_lt_inv in H. lia.
  - assert (Hpos : (0 < mx)%Z) by lia.
    pose proof (Zdigits2_spec mx Hpos) as Hs. pose proof (Zdigits2_pos mx Hpos) as Hd.
    set (d := Zdigits2 mx) in *.
    assert (H1 : pow2 (d - 1) <= q * pow2 (- ex)).
    { rewrite (pow2_Z (d - 1)) by lia. apply Qle_trans with (inject_Z mx); [|lra].
      rewrite <- Zle_Qle. lia. }
    assert (H2 : q * pow2 (- ex) < pow2 d).
    { rewrite (pow2_Z d) by lia. apply Qlt_le_trans with (inject_Z mx + 1); [lra|].
      change 1 with (inject_Z 1). rewrite <- inject_Z_plus, <- Zle_Qle. lia. }
    assert (H3 : pow2 (D - 1 - E) <= q * pow2 (- E)).
    { rewrite Hy. replace (D - 1 - E)%Z with ((d - 1) + (ex - E))%Z by (unfold D; lia).
      rewrite pow2_add. apply Qmult_le_compat_r; lra. }
    assert (H4 : q * pow2 (- E) < pow2 (D - E)).
    { rewrite Hy. replace (D - E)%Z with (d + (ex - E))%Z by (unfold D; lia).
      rewrite pow2_add. apply Qmult_lt_compat_r; lra. }
    split.
    + assert (H5 : pow2 (D - E) <= pow2 53) by (apply pow2_le; lia).
      assert (H6 : inject_Z m' < inject_Z (2 ^ 53)).
      { rewrite <- (pow2_Z 53) by lia. lra. }
      apply inject_Z_lt_inv in H6. exact H6.
    + intros HE. assert (E = (D - 53)%Z) as HE' by lia.
      assert (H5 : pow2 52 <= q * pow2 (- E)).
      { replace 52%Z with (D - 1 - E)%Z by lia. exact H3. }
      split.
      * assert (H6 : inject_Z (2 ^ 52 - 1) < inject_Z m').
        { unfold Zminus. rewrite inject_Z_plus, <- (pow2_Z 52) by lia.
          assert (Em : inject_Z (- (1)) == - (1)) by reflexivity. lra. }
        apply inject_Z_lt_inv in H6. lia.
      * rewrite pow2_add.
        assert (Hq : q == q * pow2 (- E) * pow2 E).
        { rewrite <- Qmult_assoc, pow2_opp_l. ring. }
        rewrite Hq. pose proof (pow2_pos E). apply Qmult_le_compat_r; lra.
Qed.

(** The rounding step of [SpecFloat]: for a value located on a grid at
    least as fine as that of its binade and below [2^1023],
    [binary_round_aux] returns a number nearest to it, with the sign asked
    for. *)
Lemma binary_round_aux_rounds (sx : bool) (mx ex : Z) (lx : location) (q : Q) :
  (0 <= mx)%Z -> inbetween (q * pow2 (- ex)) mx lx ->
  (ex <= fexp 53 1024 (Zdigits2 mx + ex))%Z ->
  (Zdigits2 mx + ex <= 1023)%Z ->
  let z := binary_round_aux 53 1024 sx mx ex lx in
  rounds (if sx then - q else q) z /\ signOf z = Some sx.
Proof.
  intros Hmx Hin Hle Hfin z.
  destruct (shr_fexp_located q mx ex lx Hmx Hin Hle) as (mrs' & Hshr & [Hm0 Hloc]).
  set (e' := fexp 53 1024 (Zdigits2 mx + ex)) in *.
  pose proof (round_nearest_even_spec _ _ _ Hm0 Hloc) as (Hn & Habs & Hy).
  set (n := round_nearest_even (shr_m mrs') (loc_of_shr_record mrs')) in *.
  destruct (shifted_bounds q mx ex lx (shr_m mrs') Hmx Hin Hle Hy) as [Hm53 Hnormal].
  fold e' in Hnormal.
  assert (He' : (-1074 <= e' <= 970)%Z) by (unfold e'; rewrite fexp_eq; lia).
  assert (Hq0 : 0 <= q).
  { apply inbetween_bounds in Hin. pose proof (pow2_pos ex).
    assert (0 <= q * pow2 (- ex)).
    { apply Qle_trans with (inject_Z mx); [|lra]. change 0 with (inject_Z 0).
      rewrite <- Zle_Qle. exact Hmx. }
    assert (Hq : q == q * pow2 (- ex) * pow2 ex).
    { rewrite <- Qmult_assoc, pow2_opp_l. ring. }
    rewrite Hq. apply Qmult_le_0_compat; lra. }
  assert (Habsq : Qabs (if sx then - q else q) == q).
  { destruct sx; [rewrite Qabs_opp|]; apply Qabs_pos; exact Hq0. }
  assert (Hgrid : forall N : Z, N = cond_Zopp sx n ->
            Qabs ((if sx then - q else q) * pow2 (- e') - inject_Z N) <= 1 # 2).
  { intros N ->.
    assert (E : (if sx then - q else q) * pow2 (- e')
                == (if sx then - (q * pow2 (- e')) else q * pow2 (- e')))
      by (destruct sx; ring).
    rewrite E, Qabs_signed. exact Habs. }
  assert (Hnorm : (-1074 < e')%Z -> pow2 (52 + e') <= Qabs (if sx then - q else q)).
  { intros H. rewrite Habsq. apply Hnormal, H. }
  unfold z, binary_round_aux. rewrite Hshr. fold n.
  unfold shr_fexp, shr.
  destruct (Z.eq_dec n 0%Z) as [En|Hn0].
  - (* the value rounds to zero *)
    rewrite En. change (Zdigits2 0 + e')%Z with (0 + e')%Z. rewrite Z.add_0_l, fexp_eq.
    assert (Hzero : rounds (if sx then - q else q) (S754_zero sx)).
    { split; [exact I|].
      exists 0%Z, e'. split; [cbn; ring|].
      split; [apply Hgrid; rewrite En; destruct sx; reflexivity|].
      split; [lia | exact Hnorm]. }
    destruct (Z.max (e' - 53) (-1074) - e')%Z eqn:Es; try lia;
      cbn [shr_record_of_loc shr_m]; (split; [exact Hzero | reflexivity]).
  - assert (Hnpos : (0 < n)%Z) by lia.
    pose proof (Zdigits2_spec n Hnpos) as Hds. pose proof (Zdigits2_pos n Hnpos) as Hdp.
    destruct (Z.eq_dec n (2 ^ 53)%Z) as [En|Hn53].
    + (* the mantissa overflows to the next binade *)
      rewrite En. change (Zdigits2 (2 ^ 53)%Z) with 54%Z. rewrite fexp_eq.
      replace (Z.max (54 + e' - 53) (-1074) - e')%Z with 1%Z by lia.
      cbn [shr_record_of_loc SpecFloat.iter_pos]. 
      change (shr_m (shr_1 {| shr_m := (2 ^ 53)%Z; shr_r := false; shr_s := false |}))
        with (Z.pos (2 ^ 52)).
      cbv iota beta.
      replace (e' + 1 <=? 1024 - 53)%Z with true by (symmetry; apply Z.leb_le; lia).
      split; [|reflexivity]. split.
      * unfold wellFormed, bounded, canonical_mantissa.
        change (Z.pos (digits2_pos (2 ^ 52))) with 53%Z. rewrite fexp_eq.
        apply andb_true_intro. split; [apply Z.eqb_eq | apply Z.leb_le]; lia.
      * exists (cond_Zopp sx (2 ^ 53)%Z), e'.
        split; [|split; [apply Hgrid; rewrite En; reflexivity | split; [lia | exact Hnorm]]].
        cbn [B2Q]. rewrite pow2_succ.
        destruct sx; cbn [cond_Zopp]; rewrite ?inject_Z_opp;
          change (inject_Z (2 ^ 53)%Z) with (2 * inject_Z (Z.pos (2 ^ 52))); ring.
    + assert (Hlt53 : (n < 2 ^ 53)%Z) by lia.
      assert (Hd53 : (Zdigits2 n <= 53)%Z).
      { destruct (Z_le_gt_dec (Zdigits2 n) 53%Z) as [|Hgt]; [assumption|].
        assert (2 ^ 53 <= 2 ^ (Zdigits2 n - 1))%Z by (apply Z.pow_le_mono_r; lia). lia. }
      assert (Hcanon : Z.max (Zdigits2 n + e' - 53) (-1074) = e').
      { destruct (Z.eq_dec e' (-1074)%Z) as [|Hne]; [lia|].
        assert (2 ^ 52 <= n)%Z by (destruct Hnormal as [H _]; lia).
        assert (Zdigits2 n = 53%Z); [|lia].
        destruct (Z_le_gt_dec 53%Z (Zdigits2 n)) as [|Hgt]; [lia|].
        assert (2 ^ Zdigits2 n <= 2 ^ 52)%Z by (apply Z.pow_le_mono_r; lia). lia. }
      rewrite fexp_eq, Hcanon, Z.sub_diag.
      rewrite (proj1 (record_of_loc n loc_Exact)).
      destruct n as [|p|p]; try lia.
      replace (e' <=? 1024 - 53)%Z with true by (symmetry; apply Z.leb_le; lia).
      split; [|reflexivity]. split.
      * unfold wellFormed, bounded, canonical_mantissa. rewrite fexp_eq.
        cbn [Zdigits2] in Hcanon. rewrite Hcanon.
        apply andb_true_intro. split; [apply Z.eqb_eq | apply Z.leb_le]; lia.
      * exists (cond_Zopp sx (Z.pos p)), e'.
        split; [reflexivity|]. split; [apply Hgrid; reflexivity|]. split; [lia | exact Hnorm].
Qed.
End RoundAux.

Section RoundsFacts.
Local Open Scope Q_scope.

Lemma Qabs_cases t : (0 <= t /\ Qabs t == t) \/ (t <= 0 /\ Qabs t == - t).
Proof.
  destruct (Qlt_le_dec t 0) as [H|H].
  - right. split; [lra|]. apply Qabs_neg. lra.
  - left. split; [exact H|]. apply Qabs_pos. exact H.
Qed.

Lemma B2Q_abs_finite s m e : Qabs (B2Q (S754_finite s m e)) == inject_Z (Z.pos m) * pow2 e.
Proof.
  cbn [B2Q]. rewrite Qabs_Qmult. rewrite (Qabs_pos (pow2 e)) by (pose proof (pow2_pos e); lra).
  destruct s; cbn [cond_Zopp]; [rewrite inject_Z_opp, Qabs_opp|];
    rewrite Qabs_pos; try reflexivity;
    change 0 with (inject_Z 0); rewrite <- Zle_Qle; lia.
Qed.

(** Among the integers, one within a half of [y] is nearest to [y]. *)
Lemma nearest_integer (y : Q) (n j : Z) :
  Qabs (y - inject_Z n) <= 1 # 2 -> Qabs (y - inject_Z n) <= Qabs (y - inject_Z j).
Proof.
  intros H. destruct (Z.eq_dec n j) as [->|Hne]; [lra|].
  assert (Hd : inject_Z n + 1 <= inject_Z j \/ inject_Z j + 1 <= inject_Z n).
  { change 1 with (inject_Z 1). rewrite <- !inject_Z_plus, <- !Zle_Qle. lia. }
  destruct (Qabs_cases (y - inject_Z n)) as [[? E1]|[? E1]];
    destruct (Qabs_cases (y - inject_Z j)) as [[? E2]|[? E2]];
    rewrite E1 in *; rewrite E2; lra.
Qed.

Lemma scaled_distance (q v : Q) (e : Z) :
  Qabs (q - v) == Qabs (q * pow2 (- e) - v * pow2 (- e)) * pow2 e.
Proof.
  pose proof (pow2_pos e) as Hp.
  transitivity (Qabs ((q * pow2 (- e) - v * pow2 (- e)) * pow2 e)).
  - apply Qabs_wd.
    assert (E : (q * pow2 (- e) - v * pow2 (- e)) * pow2 e
                == (q - v) * (pow2 (- e) * pow2 e)) by ring.
    rewrite E, pow2_opp_l. ring.
  - rewrite Qabs_Qmult. rewrite (Qabs_pos (pow2 e)) by lra. reflexivity.
Qed.

Lemma rounds_wellFormed q x : rounds q x -> wellFormed x.
Proof. intros [H _]. exact H. Qed.

Lemma rounds_ext q q' x : q == q' -> rounds q x -> rounds q' x.
Proof.
  intros E (Hwf & n & e & Hv & Hn & He & Hnorm).
  split; [exact Hwf|]. exists n, e. rewrite <- E. auto.
Qed.

(** A number that [rounds] [q] is nearest to [q] among all numbers. *)
Lemma rounds_nearest q x z :
  rounds q x -> wellFormed z -> Qabs (q - B2Q x) <= Qabs (q - B2Q z).
Proof.
  intros (Hwf & n & e & Hv & Hn & He & Hnorm) Hz.
  rewrite (scaled_distance q (B2Q x) e), (scaled_distance q (B2Q z) e).
  pose proof (pow2_pos e) as Hpe.
  apply Qmult_le_compat_r; [|lra].
  set (y := q * pow2 (- e)) in *.
  assert (Ex : B2Q x * pow2 (- e) == inject_Z n).
  { rewrite Hv, <- Qmult_assoc, pow2_opp_r. ring. }
  rewrite Ex.
  assert (Hint : forall j : Z, B2Q z * pow2 (- e) == inject_Z j ->
            Qabs (y - inject_Z n) <= Qabs (y - B2Q z * pow2 (- e))).
  { intros j ->. apply nearest_integer, Hn. }
  destruct z as [sz| | |sz mz ez]; try contradiction.
  - apply (Hint 0%Z). cbn. ring.
  - cbn [wellFormed] in Hz. destruct (bounded_facts mz ez Hz) as (Hm & Hez & _).
    destruct (Z_le_gt_dec e ez) as [Hle|Hgt].
    + apply (Hint (cond_Zopp sz (Z.pos mz) * 2 ^ (ez - e))%Z).
      cbn [B2Q]. rewrite inject_Z_mult, <- (pow2_Z (ez - e)) by lia.
      replace (ez - e)%Z with (ez + - e)%Z by lia. rewrite pow2_add. ring.
    + (* [z] lies below the binade of [q] *)
      assert (Hq : pow2 (52 + e) <= Qabs q) by (apply Hnorm; lia).
      assert (Hy : pow2 52 <= Qabs y).
      { unfold y. rewrite Qabs_Qmult, (Qabs_pos (pow2 (- e)))
          by (pose proof (pow2_pos (- e)); lra).
        replace 52%Z with (52 + e + - e)%Z by lia. rewrite pow2_add.
        pose proof (pow2_pos (- e)). apply Qmult_le_compat_r; lra. }
      assert (Hw : Qabs (B2Q (S754_finite sz mz ez) * pow2 (- e)) <= pow2 52).
      { rewrite Qabs_Qmult, (Qabs_pos (pow2 (- e))) by (pose proof (pow2_pos (- e)); lra).
        rewrite B2Q_abs_finite, <- Qmult_assoc, <- pow2_add.
        assert (H1 : inject_Z (Z.pos mz) <= pow2 53).
        { rewrite (pow2_Z 53) by lia. rewrite <- Zle_Qle. lia. }
        assert (H2 : pow2 (ez + - e) <= pow2 (-1)) by (apply pow2_le; lia).
        pose proof (pow2_pos (ez + - e)).
        assert (H3 : 0 <= inject_Z (Z.pos mz)).
        { change 0 with (inject_Z 0). rewrite <- Zle_Qle. lia. }
        assert (E52 : pow2 52 == pow2 53 * pow2 (-1)) by (rewrite <- pow2_add; reflexivity).
        rewrite E52.
        apply Qle_trans with (pow2 53 * pow2 (ez + - e)).
        - apply Qmult_le_compat_r; lra.
        - apply Qmult_le_l; [apply pow2_pos | exact H2]. }
      set (w := B2Q (S754_finite sz mz ez) * pow2 (- e)) in *.
      assert (H52 : pow2 52 == inject_Z (2 ^ 52)) by (apply pow2_Z; lia).
      destruct (Qabs_cases y) as [[Hy0 Ey]|[Hy0 Ey]].
      * apply Qle_trans with (Qabs (y - inject_Z (2 ^ 52))); [apply nearest_integer, Hn|].
        destruct (Qabs_cases w) as [[? Ew]|[? Ew]];
          destruct (Qabs_cases (y - inject_Z (2 ^ 52))) as [[? E1]|[? E1]];
          destruct (Qabs_cases (y - w)) as [[? E2]|[? E2]];
          rewrite E1, E2; lra.
      * apply Qle_trans with (Qabs (y - inject_Z (- 2 ^ 52))); [apply nearest_integer, Hn|].
        assert (Eo : inject_Z (- 2 ^ 52) == - inject_Z (2 ^ 52)) by (rewrite inject_Z_opp; reflexivity).
        destruct (Qabs_cases w) as [[? Ew]|[? Ew]];
          destruct (Qabs_cases (y - inject_Z (- 2 ^ 52))) as [[? E1]|[? E1]];
          destruct (Qabs_cases (y - w)) as [[? E2]|[? E2]];
          rewrite E1, E2; lra.
Qed.

(** Rounding does not cross a number. *)
Lemma rounds_le q x z : rounds q x -> wellFormed z -> q <= B2Q z -> B2Q x <= B2Q z.
Proof.
  intros Hr Hz Hq. pose proof (rounds_nearest q x z Hr Hz) as H.
  destruct (Qabs_cases (q - B2Q x)) as [[? E1]|[? E1]];
    destruct (Qabs_cases (q - B2Q z)) as [[? E2]|[? E2]];
    rewrite E1, E2 in H; lra.
Qed.

Lemma rounds_ge q x z : rounds q x -> wellFormed z -> B2Q z <= q -> B2Q z <= B2Q x.
Proof.
  intros Hr Hz Hq. pose proof (rounds_nearest q x z Hr Hz) as H.
  destruct (Qabs_cases (q - B2Q x)) as [[? E1]|[? E1]];
    destruct (Qabs_cases (q - B2Q z)) as [[? E2]|[? E2]];
    rewrite E1, E2 in H; lra.
Qed.


Lemma rounds_nonneg q x : rounds q x -> 0 <= q -> 0 <= B2Q x.
Proof.
  intros Hr Hq. change 0 with (B2Q (S754_zero false)) at 1.
  apply (rounds_ge q); [exact Hr | exact I | exact Hq].
Qed.

Lemma rounds_nonpos q x : rounds q x -> q <= 0 -> B2Q x <= 0.
Proof.
  intros Hr Hq. change (B2Q x <= B2Q (S754_zero false)).
  apply (rounds_le q); [exact Hr | exact I | exact Hq].
Qed.



Lemma rounds_self z : wellFormed z -> rounds (B2Q z) z.
Proof.
  intros Hz. split; [exact Hz|].
  destruct z as [sz| | |sz mz ez]; try contradiction.
  - exists 0%Z, (-1074)%Z. split; [cbn; ring|]. split; [|split; [lia|lia]].
    cbn [B2Q]. apply Qabs_Qle_condition.
    assert (E : 0 * pow2 (- -1074) - inject_Z 0 == 0) by (change (inject_Z 0) with 0; ring).
    rewrite E. lra.
  - cbn [wellFormed] in Hz. destruct (bounded_facts mz ez Hz) as (Hm & Hez & Hn).
    exists (cond_Zopp sz (Z.pos mz)), ez. split; [reflexivity|].
    split; [|split; [lia|]].
    + cbn [B2Q]. apply Qabs_Qle_condition.
      assert (E : inject_Z (cond_Zopp sz (Z.pos mz)) * pow2 ez * pow2 (- ez)
                  - inject_Z (cond_Zopp sz (Z.pos mz)) == 0)
        by (rewrite <- Qmult_assoc, pow2_opp_r; ring).
      rewrite E. lra.
    + intros He. rewrite B2Q_abs_finite. rewrite pow2_add, (pow2_Z 52) by lia.
      pose proof (pow2_pos ez). apply Qmult_le_compat_r; [|lra].
      rewrite <- Zle_Qle. apply Hn, He.
Qed.

Lemma rounds_zero s : rounds 0 (S754_zero s).
Proof. apply (rounds_self (S754_zero s)). exact I. Qed.
End RoundsFacts.

Section Operations.
Local Open Scope Q_scope.

Lemma digits_bound (m e K : Z) :
  (0 < m)%Z -> inject_Z m * pow2 e < pow2 K -> (Zdigits2 m + e <= K)%Z.
Proof.
  intros Hm H. pose proof (Zdigits2_spec m Hm) as Hs. pose proof (Zdigits2_pos m Hm) as Hd.
  assert (H1 : pow2 (Zdigits2 m - 1 + e) <= inject_Z m * pow2 e).
  { rewrite pow2_add, (pow2_Z (Zdigits2 m - 1)) by lia.
    pose proof (pow2_pos e). apply Qmult_le_compat_r; [|lra]. rewrite <- Zle_Qle. lia. }
  assert (H2 : pow2 (Zdigits2 m - 1 + e) < pow2 K) by lra.
  apply pow2_lt_inv in H2. lia.
Qed.










Lemma mul_rounds x y :
  wellFormed x -> wellFormed y -> Qabs (B2Q x * B2Q y) < pow2 1023 ->
  rounds (B2Q x * B2Q y) (F64.mul x y).
Proof.
  intros Hx Hy Hb. unfold F64.mul.
  destruct x as [sx| | |sx mx ex], y as [sy| | |sy my ey]; try contradiction;
    try (apply (rounds_ext 0); [cbn; ring | apply rounds_zero]).
  cbn [SFmul wellFormed] in *.
  destruct (bounded_facts mx ex Hx) as (Hmx & Hex & Hnx).
  destruct (bounded_facts my ey Hy) as (Hmy & Hey & Hny).
  pose proof (Zdigits2_spec (Z.pos mx) ltac:(lia)) as Hsx.
  pose proof (Zdigits2_spec (Z.pos my) ltac:(lia)) as Hsy.
  pose proof (Zdigits2_pos (Z.pos mx) ltac:(lia)) as Hdx.
  pose proof (Zdigits2_pos (Z.pos my) ltac:(lia)) as Hdy.
  pose proof (Zdigits2_spec (Z.pos (mx * my)) ltac:(lia)) as Hsp.
  set (dx := Zdigits2 (Z.pos mx)) in *. set (dy := Zdigits2 (Z.pos my)) in *.
  set (dp := Zdigits2 (Z.pos (mx * my))) in *.
  assert (Hdp : (dx + dy - 1 <= dp)%Z).
  { destruct (Z_le_gt_dec (dx + dy - 1) dp) as [|Hgt]; [assumption|exfalso].
    assert (H1 : (2 ^ dp <= 2 ^ (dx - 1 + (dy - 1)))%Z) by (apply Z.pow_le_mono_r; lia).
    rewrite Z.pow_add_r in H1 by lia. rewrite Pos2Z.inj_mul in Hsp. nia. }
  assert (H53x : ((-1074 < ex)%Z -> (53 <= dx)%Z)).
  { intros H. specialize (Hnx H).
    destruct (Z_le_gt_dec 53 dx) as [|Hgt]; [assumption|exfalso].
    assert (2 ^ dx <= 2 ^ 52)%Z by (apply Z.pow_le_mono_r; lia). lia. }
  assert (H53y : ((-1074 < ey)%Z -> (53 <= dy)%Z)).
  { intros H. specialize (Hny H).
    destruct (Z_le_gt_dec 53 dy) as [|Hgt]; [assumption|exfalso].
    assert (2 ^ dy <= 2 ^ 52)%Z by (apply Z.pow_le_mono_r; lia). lia. }
  assert (Eabs : Qabs (B2Q (S754_finite sx mx ex) * B2Q (S754_finite sy my ey))
                 == inject_Z (Z.pos (mx * my)) * pow2 (ex + ey)).
  { rewrite Qabs_Qmult, !B2Q_abs_finite, Pos2Z.inj_mul, inject_Z_mult, pow2_add. ring. }
  destruct (binary_round_aux_rounds (xorb sx sy) (Z.pos (mx * my)) (ex + ey) loc_Exact
              (inject_Z (Z.pos (mx * my)) * pow2 (ex + ey))) as [H _].
  - lia.
  - cbn [inbetween]. rewrite <- Qmult_assoc, pow2_opp_r. ring.
  - fold dp. rewrite fexp_eq. lia.
  - fold dp. apply digits_bound; [lia|]. rewrite <- Eabs. exact Hb.
  - revert H. apply rounds_ext.
    cbn [B2Q]. rewrite Pos2Z.inj_mul, inject_Z_mult.
    destruct sx, sy; cbn [xorb cond_Zopp]; rewrite ?inject_Z_opp, pow2_add; ring.
Qed.
End Operations.

Section Compare.
Local Open Scope Q_scope.

Lemma mag_pos (m : positive) (e : Z) : 0 < inject_Z (Z.pos m) * pow2 e.
Proof.
  pose proof (pow2_pos e).
  assert (0 < inject_Z (Z.pos m)) by (change 0 with (inject_Z 0); rewrite <- Zlt_Qlt; lia).
  nra.
Qed.

Lemma mag_lt (m1 m2 : positive) (e1 e2 : Z) :
  bounded 53 1024 m1 e1 = true -> bounded 53 1024 m2 e2 = true -> (e1 < e2)%Z ->
  inject_Z (Z.pos m1) * pow2 e1 < inject_Z (Z.pos m2) * pow2 e2.
Proof.
  intros H1 H2 He.
  destruct (bounded_facts m1 e1 H1) as (Hm1 & He1 & _).
  destruct (bounded_facts m2 e2 H2) as (_ & _ & Hn2).
  pose proof (pow2_pos e1). pose proof (pow2_pos e2).
  apply Qlt_le_trans with (pow2 53 * pow2 e1).
  - apply Qmult_lt_compat_r; [lra|]. rewrite (pow2_Z 53) by lia. rewrite <- Zlt_Qlt. lia.
  - apply Qle_trans with (pow2 52 * pow2 e2).
    + rewrite <- !pow2_add. apply pow2_le. lia.
    + apply Qmult_le_compat_r; [|lra]. rewrite (pow2_Z 52) by lia.
      rewrite <- Zle_Qle. apply Hn2. lia.
Qed.

Lemma mag_compare (m1 m2 : positive) (e1 e2 : Z) :
  bounded 53 1024 m1 e1 = true -> bounded 53 1024 m2 e2 = true ->
  (inject_Z (Z.pos m1) * pow2 e1 ?= inject_Z (Z.pos m2) * pow2 e2)
  = match (e1 ?= e2)%Z with
    | Lt => Lt
    | Gt => Gt
    | Eq => Pos.compare_cont Eq m1 m2
    end.
Proof.
  intros H1 H2. destruct (Z.compare_spec e1 e2) as [->|He|He].
  - change (Pos.compare_cont Eq m1 m2) with (Z.pos m1 ?= Z.pos m2)%Z.
    pose proof (pow2_pos e2) as Hp.
    destruct (Z.compare_spec (Z.pos m1) (Z.pos m2)) as [E|E|E].
    + apply Qeq_alt. rewrite E. reflexivity.
    + apply Qlt_alt. apply Qmult_lt_compat_r; [lra|]. rewrite <- Zlt_Qlt. exact E.
    + apply Qgt_alt. apply Qmult_lt_compat_r; [lra|]. rewrite <- Zlt_Qlt. exact E.
  - apply Qlt_alt. apply mag_lt; assumption.
  - apply Qgt_alt. apply mag_lt; assumption.
Qed.

(** The comparisons of binary64 are those of the values. *)
Lemma compare_spec x y :
  wellFormed x -> wellFormed y -> SFcompare x y = Some (B2Q x ?= B2Q y).
Proof.
  intros Hx Hy.
  destruct x as [sx| | |sx mx ex], y as [sy| | |sy my ey]; try contradiction;
    cbn [SFcompare B2Q wellFormed] in *.
  - reflexivity.
  - pose proof (mag_pos my ey). f_equal. symmetry.
    destruct sy; cbn [cond_Zopp]; rewrite ?inject_Z_opp; [apply Qgt_alt | apply (proj1 (Qlt_alt _ _))]; lra.
  - pose proof (mag_pos mx ex). f_equal. symmetry.
    destruct sx; cbn [cond_Zopp]; rewrite ?inject_Z_opp; [apply (proj1 (Qlt_alt _ _)) | apply Qgt_alt]; lra.
  - pose proof (mag_pos mx ex). pose proof (mag_pos my ey). f_equal. symmetry.
    pose proof (mag_compare mx my ex ey Hx Hy) as Hc.
    destruct sx, sy; cbn [cond_Zopp]; rewrite ?inject_Z_opp.
    + set (a := inject_Z (Z.pos mx) * pow2 ex) in *.
      set (b := inject_Z (Z.pos my) * pow2 ey) in *.
      assert (Ho : (- inject_Z (Z.pos mx) * pow2 ex ?= - inject_Z (Z.pos my) * pow2 ey)
                   = CompOpp (a ?= b)).
      { destruct (Qcompare_spec a b) as [E|E|E]; cbn [CompOpp]; unfold a, b in *.
        - apply Qeq_alt. lra.
        - apply Qgt_alt. lra.
        - apply (proj1 (Qlt_alt _ _)). lra. }
      rewrite Ho, Hc. destruct (ex ?= ey)%Z; reflexivity.
    + apply (proj1 (Qlt_alt _ _)). lra.
    + apply Qgt_alt. lra.
    + exact Hc.
Qed.


Lemma ltb_spec x y :
  wellFormed x -> wellFormed y -> (F64.ltb x y = true <-> B2Q x < B2Q y).
Proof.
  intros Hx Hy. unfold F64.ltb, SFltb. rewrite (compare_spec x y Hx Hy).
  rewrite Qlt_alt. destruct (B2Q x ?= B2Q y); split; congruence.
Qed.

Lemma eqb_spec x y :
  wellFormed x -> wellFormed y -> (F64.eqb x y = true <-> B2Q x == B2Q y).
Proof.
  intros Hx Hy. unfold F64.eqb, SFeqb. rewrite (compare_spec x y Hx Hy).
  rewrite Qeq_alt. destruct (B2Q x ?= B2Q y); split; congruence.
Qed.
End Compare.

Section Decimal.
Local Open Scope Q_scope.






End Decimal.


(* ===================================================================== *)
(** * 24. Binary64: toFixed read back by parseFloat                      *)
(* ===================================================================== *)

Section Digits10.

(** Reading digits: [readNat] inverts [showNat], and leading zeros do not
    count. *)
Lemma readFrom_app acc a b : readFrom acc (a ++ b) = readFrom (readFrom acc a) b.
Proof. apply fold_left_app. Qed.





End Digits10.

Section FixedText.





End FixedText.

Section Fixed.
Local Open Scope Q_scope.











End Fixed.

Section FixedRounding.
Local Open Scope Q_scope.










End FixedRounding.


(* ===================================================================== *)
(** * 25. The in-spec generator on binary64                              *)
(* ===================================================================== *)

Section InSpecWindow.
Local Open Scope Q_scope.







End InSpecWindow.

Section InSpecBinary64.
Local Open Scope Q_scope.

End InSpecBinary64.

Section InSpecTheorem.
Local Open Scope Q_scope.



(** Without a bound on the magnitudes the sample can overflow: for the
    window [-1.7e308, 1.7e308] the width is not a number of binary64. *)
Example randomizeInSpec_overflow :
  F64.ltb (dec (-17) 307) (dec 17 307) = true
  /\ randomizeInSpec (A := Binary64) (constantDraw (dec 5 (-1)))
       (dec (-17) 307) (dec 17 307) 2 0%nat = Ok (S754_infinity false, 1%nat).
Proof. vm_compute. split; reflexivity. Qed.
End InSpecTheorem.


(* ===================================================================== *)
(** * 26. The out-of-spec generator on binary64: the steps               *)
(* ===================================================================== *)

Section OutSpecBinary64.
Local Open Scope Q_scope.

(** The largest number below 1. *)
Lemma below_one (x : F64.number) :
  wellFormed x -> B2Q x < 1 -> B2Q x <= 1 - pow2 (-53).
Proof.
  intros Wx Hx. pose proof (pow2_pos (-53)) as H53.
  assert (E53 : pow2 (-53) < 1) by reflexivity.
  destruct x as [s| s| |s m e]; try contradiction.
  - cbn [B2Q]. lra.
  - pose proof (bounded_facts m e Wx) as (Hm & He & Hn).
    pose proof (mag_pos m e) as Hpos.
    destruct s; cbn [B2Q cond_Zopp] in *.
    + assert (E : inject_Z (- Z.pos m) * pow2 e == - (inject_Z (Z.pos m) * pow2 e))
        by (rewrite inject_Z_opp; ring).
      rewrite E. lra.
    + destruct (Z_le_gt_dec e (-53)) as [Hle|Hgt].
      * assert (H1 : inject_Z (Z.pos m) <= inject_Z (2 ^ 53 - 1)) by (rewrite <- Zle_Qle; lia).
        assert (H2 : pow2 e <= pow2 (-53)) by (apply pow2_le; lia).
        pose proof (pow2_pos e) as Hpe.
        assert (H3 : inject_Z (Z.pos m) * pow2 e <= inject_Z (2 ^ 53 - 1) * pow2 (-53)).
        { apply (Qle_trans _ (inject_Z (2 ^ 53 - 1) * pow2 e)).
          - apply Qmult_le_compat_r; lra.
          - apply Qmult_le_l; [reflexivity | exact H2]. }
        assert (E : inject_Z (2 ^ 53 - 1) * pow2 (-53) == 1 - pow2 (-53)) by reflexivity.
        lra.
      * exfalso.
        assert (H1 : inject_Z (2 ^ 52) <= inject_Z (Z.pos m)) by (rewrite <- Zle_Qle; apply Hn; lia).
        assert (H2 : pow2 (-52) <= pow2 e) by (apply pow2_le; lia).
        pose proof (pow2_pos (-52)) as Hp52.
        assert (H3 : inject_Z (2 ^ 52) * pow2 (-52) <= inject_Z (Z.pos m) * pow2 e).
        { apply (Qle_trans _ (inject_Z (2 ^ 52) * pow2 e)).
          - apply Qmult_le_l; [reflexivity | exact H2].
          - apply Qmult_le_compat_r; [exact H1 | pose proof (pow2_pos e); lra]. }
        assert (E : inject_Z (2 ^ 52) * pow2 (-52) == 1) by reflexivity.
        lra.
Qed.

(** Seven times a number of [0, 1) stays below 7 after rounding. *)
Lemma seven_draws (r : F64.number) :
  wellFormed r -> 0 <= B2Q r < 1 ->
  let x := F64.mul r (F64.decimal false 7 0) in
  wellFormed x /\ 0 <= B2Q x < 7.
Proof.
  intros Wr Hr x.
  assert (W7 : wellFormed (F64.decimal false 7 0)) by (vm_compute; reflexivity).
  assert (E7 : B2Q (F64.decimal false 7 0) == 7) by (vm_compute; reflexivity).
  pose proof (below_one r Wr ltac:(lra)) as Hb.
  assert (R : rounds (B2Q r * B2Q (F64.decimal false 7 0)) x).
  { apply mul_rounds; [assumption | assumption |]. rewrite E7.
    assert (H : 7 < pow2 1023).
    { rewrite (pow2_Z 1023) by lia. change 7 with (inject_Z 7). rewrite <- Zlt_Qlt. reflexivity. }
    apply Qabs_Qlt_condition. split; lra. }
  apply (rounds_ext _ (B2Q r * 7)) in R; [|rewrite E7; reflexivity].
  set (q := B2Q r * 7) in *.
  split; [exact (rounds_wellFormed _ _ R)|].
  split; [apply (rounds_nonneg _ _ R); unfold q; lra|].
  set (z := S754_finite false 7881299347898367 (-50)).
  assert (Wz : wellFormed z) by (vm_compute; reflexivity).
  assert (Ez : B2Q z == 7 - pow2 (-50)) by (vm_compute; reflexivity).
  assert (E50 : pow2 (-50) == 8 * pow2 (-53)) by reflexivity.
  pose proof (pow2_pos (-53)) as H53.
  destruct (Qlt_le_dec (B2Q z) q) as [Hlt|Hle].
  - pose proof (rounds_nearest _ _ z R Wz) as Hn.
    rewrite (Qabs_pos (q - B2Q z)) in Hn by lra.
    apply Qabs_Qle_condition in Hn. unfold q in *. lra.
  - pose proof (rounds_le _ _ z R Wz Hle). lra.
Qed.

(** [Math.floor] of a number of [0, 7). *)
Lemma floor_below_seven (x : F64.number) :
  wellFormed x -> 0 <= B2Q x < 7 ->
  F64.floor x = S754_zero true
  \/ exists n : Z, (0 <= n <= 6)%Z /\ F64.floor x = F64.ofZ n.
Proof.
  intros Wx Hx. destruct x as [s| s| |s m e]; try contradiction.
  - destruct s; [left; reflexivity | right; exists 0%Z; split; [lia | reflexivity]].
  - right. pose proof (bounded_facts m e Wx) as (Hm & He & Hn).
    pose proof (mag_pos m e) as Hpos.
    destruct s; cbn [B2Q cond_Zopp] in Hx.
    + exfalso.
      assert (E : inject_Z (- Z.pos m) * pow2 e == - (inject_Z (Z.pos m) * pow2 e))
        by (rewrite inject_Z_opp; ring).
      rewrite E in Hx. lra.
    + assert (He0 : (e < 0)%Z).
      { destruct (Z_lt_le_dec e 0) as [|Hge]; [assumption|exfalso].
        assert (H1 : inject_Z (2 ^ 52) <= inject_Z (Z.pos m)) by (rewrite <- Zle_Qle; apply Hn; lia).
        assert (H2 : pow2 0 <= pow2 e) by (apply pow2_le; lia).
        assert (E0 : pow2 0 == 1) by reflexivity.
        assert (H3 : inject_Z (2 ^ 52) * 1 <= inject_Z (Z.pos m) * pow2 e).
        { apply (Qle_trans _ (inject_Z (2 ^ 52) * pow2 e)).
          - apply Qmult_le_l; [reflexivity | lra].
          - apply Qmult_le_compat_r; [exact H1 | pose proof (pow2_pos e); lra]. }
        assert (E : 7 < inject_Z (2 ^ 52) * 1) by reflexivity.
        lra. }
      cbn [F64.floor cond_Zopp].
      replace (0 <=? e)%Z with false by (symmetry; apply Z.leb_gt; exact He0).
      exists (Z.pos m / 2 ^ (- e))%Z. split; [|reflexivity].
      assert (Hd : (0 < 2 ^ (- e))%Z) by (apply Z.pow_pos_nonneg; lia).
      split; [apply Z.div_pos; lia|].
      assert (Hlt : (Z.pos m < 7 * 2 ^ (- e))%Z).
      { rewrite Zlt_Qlt, inject_Z_mult, <- (pow2_Z (- e)) by lia.
        change (inject_Z 7) with 7.
        assert (E : inject_Z (Z.pos m) * pow2 e * pow2 (- e) == inject_Z (Z.pos m)).
        { rewrite <- Qmult_assoc, pow2_opp_r. ring. }
        pose proof (pow2_pos (- e)) as Hpe.
        assert (inject_Z (Z.pos m) * pow2 e * pow2 (- e) < 7 * pow2 (- e))
          by (apply Qmult_lt_compat_r; lra).
        lra. }
      assert (Z.pos m / 2 ^ (- e) < 7)%Z by (apply Z.div_lt_upper_bound; lia).
      lia.
Qed.

(** The multiplier of the step: [Math.floor(r * 7) - 3], with 1 for 0. *)
Lemma multiplier_range (r : F64.number) :
  wellFormed r -> 0 <= B2Q r < 1 ->
  let randomInt :=
    F64.sub (F64.floor (F64.mul r (F64.decimal false 7 0))) (F64.decimal false 3 0) in
  exists k : Z, (-3 <= k <= 3)%Z /\ k <> 0%Z
    /\ (if F64.eqb randomInt (F64.decimal false 0 0)
        then F64.decimal false 1 0 else randomInt) = F64.ofZ k.
Proof.
  intros Wr Hr randomInt.
  destruct (seven_draws r Wr Hr) as [Wx Hx].
  destruct (floor_below_seven _ Wx Hx) as [E|(n & Hn & E)]; unfold randomInt; rewrite E.
  - exists (-3)%Z. split; [lia|]. split; [discriminate|]. vm_compute. reflexivity.
  - assert (Hcases : (n = 0 \/ n = 1 \/ n = 2 \/ n = 3 \/ n = 4 \/ n = 5 \/ n = 6)%Z) by lia.
    destruct Hcases as [->|[->|[->|[->|[->|[->| ->]]]]]].
    + exists (-3)%Z. split; [lia|]. split; [discriminate|]. vm_compute. reflexivity.
    + exists (-2)%Z. split; [lia|]. split; [discriminate|]. vm_compute. reflexivity.
    + exists (-1)%Z. split; [lia|]. split; [discriminate|]. vm_compute. reflexivity.
    + exists 1%Z. split; [lia|]. split; [discriminate|]. vm_compute. reflexivity.
    + exists 1%Z. split; [lia|]. split; [discriminate|]. vm_compute. reflexivity.
    + exists 2%Z. split; [lia|]. split; [discriminate|]. vm_compute. reflexivity.
    + exists 3%Z. split; [lia|]. split; [discriminate|]. vm_compute. reflexivity.
Qed.
End OutSpecBinary64.

Section OutSpecLoop.
Context {A : Arith} {St : Type} (random : St -> A * St).
Variables (originalValue min max : A) (precision : Z) (isAngle : bool).

(** The loop returns the original or a candidate it drew. *)
Lemma retryLoop_returns fuel : forall n s o s',
  retryLoop random originalValue min max precision isAngle fuel n s = Ok (o, s') ->
  newValue o = originalValue
  \/ exists s1 s2,
       drawCandidate random originalValue precision isAngle s1 = Ok (newValue o, s2).
Proof.
  induction fuel as [|fuel IH]; intros n s o s' H; simpl in H.
  - unfold ret in H. injection H as <- _. left. reflexivity.
  - destruct (n <? 50)%nat.
    + apply bind_Ok in H as (c & s1 & Hc & H).
      destruct (accepts _ _ _ _ _).
      * unfold ret in H. injection H as <- _. right. eauto.
      * eapply IH, H.
    + unfold ret in H. injection H as <- _. left. reflexivity.
Qed.
End OutSpecLoop.

Section OutSpecStep.
Context {St : Type} (random : St -> F64.number * St).
Hypothesis random_unit :
  forall s, wellFormed (fst (random s)) /\ (0 <= B2Q (fst (random s)) < 1)%Q.
Variables (originalValue min max : F64.number) (isAngle : bool).

Lemma drawCandidate_multiplier (s : St) (c : F64.number) (s' : St) :
  drawCandidate (A := Binary64) random originalValue (if isAngle then 0 else 2) isAngle s
  = Ok (c, s') ->
  exists k : Z, -3 <= k <= 3 /\ k <> 0 /\ c = candidateFor originalValue isAngle k.
Proof using random_unit.
  intros H. unfold drawCandidate, bind, Math_random in H.
  destruct (random_unit s) as [Wr Hr].
  destruct (random s) as [r s1]. cbn [fst] in Wr, Hr.
  cbn [num nadd nsub nmul ndiv nseq nlit nfloor npow10 nfixed Binary64] in H.
  destruct (multiplier_range r Wr Hr) as (k & Hk & Hk0 & Ek).
  cbv zeta in Ek. rewrite Ek in H.
  exists k. split; [exact Hk|]. split; [exact Hk0|].
  unfold candidateFor. destruct isAngle; cbn [negb] in H.
  - unfold ret in H. injection H as <- _. reflexivity.
  - unfold roundTo in H. cbn [Z.leb Z.compare andb] in H. unfold ret in H.
    injection H as <- _. reflexivity.
Qed.

(** X3.  On binary64, with draws that are numbers of [0, 1): the value
    [randomizeOutSpec] returns, called as the service calls it (two
    decimals for a linear value, none for an angle), is the original or
    the candidate for a whole multiplier between -3 and 3 other than 0:
    the original plus that many steps, rounded to two decimals for a
    linear value. *)
Theorem randomizeOutSpec_step (s : St) (v : F64.number) (s' : St) :
  randomizeOutSpec (A := Binary64) random originalValue min max
    (if isAngle then 0 else 2) isAngle s = Ok (v, s') ->
  v = originalValue
  \/ exists k : Z, -3 <= k <= 3 /\ k <> 0 /\ v = candidateFor originalValue isAngle k.
Proof using random_unit.
  intros H. unfold randomizeOutSpec, randomizeOutSpecLoop in H.
  apply bind_Ok in H as (o & s1 & Hloop & H). unfold ret in H.
  injection H as Hv _. subst v.
  apply retryLoop_returns in Hloop as [Ho | (s2 & s3 & Hc)].
  - left. exact Ho.
  - right. exact (drawCandidate_multiplier s2 _ s3 Hc).
Qed.
End OutSpecStep.

(** The value 16 against the window [10, 15], every draw being 9/10:
    the multiplier is 3. *)
Lemma randomizeOutSpec_step_witness :
  match randomizeOutSpec (A := Binary64) (constantDraw (dec 9 (-1)))
          (dec 16 0) (dec 10 0) (dec 15 0) 2 false 0%nat with
  | Ok (v, _) =>
      v = dec 16 0
      \/ exists k : Z, -3 <= k <= 3 /\ k <> 0 /\ v = candidateFor (dec 16 0) false k
  | Throw _ => False
  end.
Proof.
  assert (Hunit : forall k, wellFormed (fst (constantDraw (dec 9 (-1)) k))
                            /\ (0 <= B2Q (fst (constantDraw (dec 9 (-1)) k)) < 1)%Q).
  { intros k. cbn [constantDraw fst].
    split; [vm_compute; reflexivity|].
    split; [vm_compute; discriminate | vm_compute; reflexivity]. }
  destruct (randomizeOutSpec (A := Binary64) (constantDraw (dec 9 (-1)))
              (dec 16 0) (dec 10 0) (dec 15 0) 2 false 0%nat) as [[v s']|e] eqn:E.
  - exact (randomizeOutSpec_step (constantDraw (dec 9 (-1))) Hunit
             (dec 16 0) (dec 10 0) (dec 15 0) false 0%nat v s' E).
  - vm_compute in E. discriminate.
Defined.

(** The same run evaluated: the candidate for the multiplier 3. *)
Example randomizeOutSpec_step_sample :
  randomizeOutSpec (A := Binary64) (constantDraw (dec 9 (-1)))
    (dec 16 0) (dec 10 0) (dec 15 0) 2 false 0%nat
  = Ok (candidateFor (dec 16 0) false 3, 1%nat)
  /\ candidateFor (dec 16 0) false 3 = dec 1603 (-2).
Proof. vm_compute. split; reflexivity. Qed.
